(** * spacectl: credential store, authenticated transport, output formatter
      and GitHub-login callback flow, embedded from the Go sources.

    Layout: the embedding first (one module per Go package or file), then the
    theorems about it. Go strings and byte slices are [string] (sequences of
    8-bit [ascii]); Go maps with string keys are [gmap string _]; integers
    are [Z]. *)

From Stdlib Require Import ZArith Lia Bool Ascii String List SpecFloat.
From stdpp Require Import base option list gmap strings sorting pretty.

Set Warnings "-register-all".

(* ===================================================================== *)
(** * Go runtime helpers: errors and the [strings] package               *)
(* ===================================================================== *)

Module Go.

(** [error] values as built by [fmt.Errorf]: a message, or a prefix
    wrapping a cause with the verb %w. *)
Inductive error :=
| New (msg : string)
| Wrap (prefix : string) (cause : error).

(** [err.Error()] *)
Fixpoint Error (e : error) : string :=
  match e with
  | New msg => msg
  | Wrap p c => p +:+ Error c
  end.

(** [errors.Unwrap] followed to the innermost cause. *)
Fixpoint root_cause (e : error) : error :=
  match e with
  | New msg => New msg
  | Wrap _ c => root_cause c
  end.

Inductive result (A : Type) :=
| Ok (a : A)
| Fail (e : error).
Arguments Ok {A} a.
Arguments Fail {A} e.

Definition is_ok {A} (r : result A) : bool :=
  match r with Ok _ => true | Fail _ => false end.

Definition byte_val (c : ascii) : N := N_of_ascii c.

Definition is_upper (c : ascii) : bool :=
  ((65 <=? byte_val c) && (byte_val c <=? 90))%N.

Definition lower_byte (c : ascii) : ascii :=
  if is_upper c then ascii_of_N (byte_val c + 32) else c.

(** [sort.Strings]: ascending in Go's [<] on strings, the bytewise
    lexicographic order [String.le]. *)
Definition sort_Strings (l : list string) : list string :=
  merge_sort String.le l.

(** [strings.Split(s, ",")[0]]: the text before the first comma. *)
Fixpoint before_comma (s : string) : string :=
  match s with
  | EmptyString => EmptyString
  | String c r =>
      if bool_decide (c = ","%char) then EmptyString
      else String c (before_comma r)
  end.

(** [strconv.FormatInt(n, 10)], also what %d and %v print for an int. *)
Definition FormatInt (n : Z) : string := pretty n.

Definition newline : string := String "010"%char EmptyString.

(** Concatenation of a list of strings. *)
Definition concat_all (l : list string) : string :=
  foldr String.append EmptyString l.

End Go.

(* ===================================================================== *)
(** * unicode/utf8 and encoding/json                                      *)
(* ===================================================================== *)

Module Utf8.
Import Go.

(** [utf8.RuneError], U+FFFD. *)
Definition RuneError : N := 65533.

Definition in_range (lo hi : N) (c : ascii) : bool :=
  ((lo <=? byte_val c) && (byte_val c <=? hi))%N.

(** A continuation byte, 0x80..0xBF. *)
Definition is_cont (c : ascii) : bool := in_range 128 191 c.

(** [utf8.DecodeRune]: the first rune of [s] and its width in bytes. An
    invalid or truncated encoding gives [(RuneError, 1)], the empty string
    [(RuneError, 0)]. The accepted second bytes per lead byte are those of
    the table in package utf8 (no overlong forms, no surrogates, nothing
    above U+10FFFF). *)
Definition DecodeRune (s : string) : N * nat :=
  match s with
  | EmptyString => (RuneError, 0%nat)
  | String c0 r0 =>
      let x := byte_val c0 in
      if (x <? 128)%N then (x, 1%nat)
      else if in_range 194 223 c0 then
        match r0 with
        | String c1 _ =>
            if is_cont c1
            then (((x - 192) * 64 + (byte_val c1 - 128))%N, 2%nat)
            else (RuneError, 1%nat)
        | _ => (RuneError, 1%nat)
        end
      else if in_range 224 239 c0 then
        match r0 with
        | String c1 (String c2 _) =>
            let lo := if (x =? 224)%N then 160%N else 128%N in
            let hi := if (x =? 237)%N then 159%N else 191%N in
            if in_range lo hi c1 && is_cont c2
            then ((((x - 224) * 64 + (byte_val c1 - 128)) * 64
                   + (byte_val c2 - 128))%N, 3%nat)
            else (RuneError, 1%nat)
        | _ => (RuneError, 1%nat)
        end
      else if in_range 240 244 c0 then
        match r0 with
        | String c1 (String c2 (String c3 _)) =>
            let lo := if (x =? 240)%N then 144%N else 128%N in
            let hi := if (x =? 244)%N then 143%N else 191%N in
            if in_range lo hi c1 && is_cont c2 && is_cont c3
            then (((((x - 240) * 64 + (byte_val c1 - 128)) * 64
                    + (byte_val c2 - 128)) * 64 + (byte_val c3 - 128))%N,
                  4%nat)
            else (RuneError, 1%nat)
        | _ => (RuneError, 1%nat)
        end
      else (RuneError, 1%nat)
  end.

(** The head of [s] is not the start of a valid encoding. *)
Definition invalid_head (s : string) : bool :=
  let '(r, size) := DecodeRune s in
  (r =? RuneError)%N && (size =? 1)%nat.

Definition byte_of (n : N) : ascii := ascii_of_N n.

(** [utf8.EncodeRune]; surrogates and values above U+10FFFF are written
    as U+FFFD. *)
Definition EncodeRune (r : N) : string :=
  let r := if ((55296 <=? r) && (r <=? 57343) || (1114111 <? r))%N
           then RuneError else r in
  if (r <? 128)%N then String (byte_of r) EmptyString
  else if (r <? 2048)%N then
    String (byte_of (192 + r / 64))
      (String (byte_of (128 + r mod 64)) EmptyString)
  else if (r <? 65536)%N then
    String (byte_of (224 + r / 4096))
      (String (byte_of (128 + (r / 64) mod 64))
         (String (byte_of (128 + r mod 64)) EmptyString))
  else
    String (byte_of (240 + r / 262144))
      (String (byte_of (128 + (r / 4096) mod 64))
         (String (byte_of (128 + (r / 64) mod 64))
            (String (byte_of (128 + r mod 64)) EmptyString))).

(** [utf8.ValidString], read off [DecodeRune]: [k] is the number of
    continuation bytes of the current rune still to pass. *)
Fixpoint Valid_go (k : nat) (s : string) : bool :=
  match s with
  | EmptyString => (k =? 0)%nat
  | String c rest =>
      match k with
      | S k' => Valid_go k' rest
      | O =>
          if invalid_head s then false
          else Valid_go (snd (DecodeRune s) - 1) rest
      end
  end.

Definition ValidString (s : string) : bool := Valid_go 0 s.

End Utf8.

(* ===================================================================== *)
(** * Packages unicode and strings                                        *)
(* ===================================================================== *)

Module Strings.
Import Go Utf8.

(** The tables of package unicode are not part of this repository. On
    ASCII the functions below are written out as package unicode has
    them; for the code points above ASCII the case mappings and the
    categories are taken as given. *)
Record Unicode := {
  lower_of : N -> N;       (* unicode.ToLower above ASCII *)
  title_of : N -> N;       (* unicode.ToTitle above ASCII *)
  is_letter : N -> bool;   (* unicode.IsLetter above ASCII *)
  is_digit : N -> bool }.  (* unicode.IsDigit above ASCII *)

Definition unicode_ToLower (u : Unicode) (r : N) : N :=
  if (r <=? 127)%N
  then (if ((65 <=? r) && (r <=? 90))%N then (r + 32)%N else r)
  else lower_of u r.

Definition unicode_ToTitle (u : Unicode) (r : N) : N :=
  if (r <=? 127)%N
  then (if ((97 <=? r) && (r <=? 122))%N then (r - 32)%N else r)
  else title_of u r.

(** [unicode.IsSpace]: the white space of Latin-1, and above it the
    code points with the property White_Space. *)
Definition unicode_IsSpace (r : N) : bool :=
  if (r <=? 255)%N
  then ((9 <=? r) && (r <=? 13) || (r =? 32) || (r =? 133) || (r =? 160))%N
  else ((r =? 5760) || (8192 <=? r) && (r <=? 8202) || (r =? 8232)
        || (r =? 8233) || (r =? 8239) || (r =? 8287) || (r =? 12288))%N.

(** [isSeparator] of package strings: ASCII alphanumerics and the
    underscore are not separators, the other ASCII code points are;
    above ASCII, letters and digits are not, and of the rest only the
    spaces are. *)
Definition isSeparator (u : Unicode) (r : N) : bool :=
  if (r <=? 127)%N
  then negb ((48 <=? r) && (r <=? 57) || (97 <=? r) && (r <=? 122)
             || (65 <=? r) && (r <=? 90) || (r =? 95))%N
  else if is_letter u r || is_digit u r then false
  else unicode_IsSpace r.

(** [strings.Map]: the runes of [s] in order, as ranging over a string
    yields them (a byte that starts no valid encoding is U+FFFD), each
    replaced by what [mapping] gives and written back in UTF-8. [skip]
    is the number of bytes of the current rune still to pass. *)
Fixpoint Map_go (mapping : N -> N) (skip : nat) (s : string) : string :=
  match s with
  | EmptyString => EmptyString
  | String c rest =>
      match skip with
      | S skip' => Map_go mapping skip' rest
      | O =>
          let '(r, width) := DecodeRune s in
          EncodeRune (mapping r) +:+ Map_go mapping (width - 1) rest
      end
  end.

Definition Map (mapping : N -> N) (s : string) : string :=
  Map_go mapping 0 s.

Fixpoint isASCII (s : string) : bool :=
  match s with
  | EmptyString => true
  | String c r => (byte_val c <? 128)%N && isASCII r
  end.

Fixpoint lower_bytes (s : string) : string :=
  match s with
  | EmptyString => EmptyString
  | String c r => String (lower_byte c) (lower_bytes r)
  end.

(** [strings.ToLower]: byte by byte when the string is ASCII, else
    [Map(unicode.ToLower, s)]. *)
Definition ToLower (u : Unicode) (s : string) : string :=
  if isASCII s then lower_bytes s else Map (unicode_ToLower u) s.

(** [strings.Title] is [Map] with a mapping that remembers the rune
    before: a rune after a separator is put in title case. *)
Fixpoint Title_go (u : Unicode) (prev : N) (skip : nat) (s : string)
  : string :=
  match s with
  | EmptyString => EmptyString
  | String c rest =>
      match skip with
      | S skip' => Title_go u prev skip' rest
      | O =>
          let '(r, width) := DecodeRune s in
          EncodeRune (if isSeparator u prev then unicode_ToTitle u r else r)
          +:+ Title_go u r (width - 1) rest
      end
  end.

(** [strings.Title]: the first letter of every word in title case. *)
Definition Title (u : Unicode) (s : string) : string := Title_go u 32 0 s.

(** The entries of the tables for Latin-1 (U+0080 to U+00FF) and for
    U+0130, U+212A and U+212B, which lower into Latin-1; the examples
    run on them. Every other code point is left as it is and counted
    as no letter. *)
Definition latin1 : Unicode :=
  {| lower_of r :=
       if ((192 <=? r) && (r <=? 214) || (216 <=? r) && (r <=? 222))%N
       then (r + 32)%N
       else if (r =? 304)%N then 105%N
       else if (r =? 8490)%N then 107%N
       else if (r =? 8491)%N then 229%N
       else r;
     title_of r :=
       if ((224 <=? r) && (r <=? 246) || (248 <=? r) && (r <=? 254))%N
       then (r - 32)%N
       else if (r =? 255)%N then 376%N
       else if (r =? 181)%N then 924%N
       else r;
     is_letter r :=
       ((r =? 170) || (r =? 181) || (r =? 186)
        || (192 <=? r) && (r <=? 214) || (216 <=? r) && (r <=? 246)
        || (248 <=? r) && (r <=? 255)
        || (r =? 304) || (r =? 8490) || (r =? 8491))%N;
     is_digit r := false |}.

End Strings.

Module Json.
Import Go Utf8.

Definition dquote : ascii := "034"%char.
Definition backslash : ascii := "092"%char.

Definition hex_digit (n : N) : ascii :=
  if (n <? 10)%N then byte_of (48 + n) else byte_of (87 + n).

(** The value of a hexadecimal digit, as [getu4] reads it. *)
Definition hex_val (c : ascii) : option N :=
  let x := byte_val c in
  if in_range 48 57 c then Some (x - 48)%N
  else if in_range 97 102 c then Some (x - 87)%N
  else if in_range 65 70 c then Some (x - 55)%N
  else None.

Definition hex4 (h1 h2 h3 h4 : ascii) : option N :=
  match hex_val h1, hex_val h2, hex_val h3, hex_val h4 with
  | Some a, Some b, Some c, Some d => Some (((a * 16 + b) * 16 + c) * 16 + d)%N
  | _, _, _, _ => None
  end.

(** ** Strings: [appendString] of encode.go (the HTML-escaping encoder
    [json.Marshal] uses) *)

(** The escape of one ASCII byte: itself when [htmlSafeSet] holds it. *)
Definition escape_ascii (c : ascii) : string :=
  let x := byte_val c in
  if bool_decide (c = dquote) || bool_decide (c = backslash)
  then String backslash (String c EmptyString)
  else if (x =? 8)%N then String backslash "b"
  else if (x =? 12)%N then String backslash "f"
  else if (x =? 10)%N then String backslash "n"
  else if (x =? 13)%N then String backslash "r"
  else if (x =? 9)%N then String backslash "t"
  else if (x <? 32)%N || bool_decide (c = "<"%char)
          || bool_decide (c = ">"%char) || bool_decide (c = "&"%char)
  then String backslash
         (String "u" (String "0" (String "0"
            (String (hex_digit (x / 16))
               (String (hex_digit (x mod 16)) EmptyString)))))
  else String c EmptyString.

(** The loop of [appendString] over [src]. [k] counts the continuation
    bytes of the rune being passed; they are copied when [keep] holds and
    dropped after an escape has stood in for the whole rune. *)
Fixpoint escape_go (k : nat) (keep : bool) (src : string) : string :=
  match src with
  | EmptyString => EmptyString
  | String c rest =>
      match k with
      | S k' =>
          if keep then String c (escape_go k' keep rest)
          else escape_go k' keep rest
      | O =>
          if (byte_val c <? 128)%N
          then escape_ascii c +:+ escape_go 0 true rest
          else
            let '(r, size) := DecodeRune src in
            if (r =? RuneError)%N && (size =? 1)%nat
            then String backslash "ufffd" +:+ escape_go 0 true rest
            else if (r =? 8232)%N || (r =? 8233)%N
            then String backslash "u202"
                 +:+ String (hex_digit (r mod 16)) EmptyString
                 +:+ escape_go (size - 1) false rest
            else String c (escape_go (size - 1) true rest)
      end
  end.

(** The text between the quotes. *)
Definition escape (src : string) : string := escape_go 0 true src.

Definition appendString (src : string) : string :=
  String dquote (escape src +:+ String dquote EmptyString).

(** ** Strings: [unquote] of decode.go, on the text between the quotes *)

Definition simple_escape (e : ascii) : option ascii :=
  if bool_decide (e = dquote) || bool_decide (e = backslash)
     || bool_decide (e = "/"%char) || bool_decide (e = "'"%char)
  then Some e
  else if bool_decide (e = "b"%char) then Some "008"%char
  else if bool_decide (e = "f"%char) then Some "012"%char
  else if bool_decide (e = "n"%char) then Some "010"%char
  else if bool_decide (e = "r"%char) then Some "013"%char
  else if bool_decide (e = "t"%char) then Some "009"%char
  else None.

Definition is_surrogate (r : N) : bool := ((55296 <=? r) && (r <? 57344))%N.

(** [utf16.DecodeRune]: the code point of a surrogate pair, if it is one. *)
Definition utf16_pair (r1 r2 : N) : option N :=
  if ((55296 <=? r1) && (r1 <? 56320) && (56320 <=? r2) && (r2 <? 57344))%N
  then Some ((r1 - 55296) * 1024 + (r2 - 56320) + 65536)%N
  else None.

Definition prepend (t : string) (r : option string) : option string :=
  match r with
  | Some u => Some (t +:+ u)
  | None => None
  end.

Definition replacement : string := EncodeRune RuneError.

(** [k] counts the continuation bytes of a valid rune still to copy.
    Decoding a valid rune and encoding it again gives back its bytes, so
    they are copied; an invalid byte becomes U+FFFD. *)
Fixpoint unquote_go (k : nat) (s : string) : option string :=
  match s with
  | EmptyString => Some EmptyString
  | String c rest =>
      match k with
      | S k' => prepend (String c EmptyString) (unquote_go k' rest)
      | O =>
          if bool_decide (c = backslash) then
            match rest with
            | EmptyString => None
            | String e rest1 =>
                if bool_decide (e = "u"%char) then
                  match rest1 with
                  | String h1 (String h2 (String h3 (String h4 rest2))) =>
                      match hex4 h1 h2 h3 h4 with
                      | None => None
                      | Some rr =>
                          if is_surrogate rr then
                            match rest2 with
                            | String b1 (String u1 (String g1 (String g2
                                (String g3 (String g4 rest3))))) =>
                                match
                                  (if bool_decide (b1 = backslash)
                                      && bool_decide (u1 = "u"%char)
                                   then
                                     match hex4 g1 g2 g3 g4 with
                                     | Some rr1 => utf16_pair rr rr1
                                     | None => None
                                     end
                                   else None)
                                with
                                | Some dec =>
                                    prepend (EncodeRune dec)
                                      (unquote_go 0 rest3)
                                | None =>
                                    prepend replacement (unquote_go 0 rest2)
                                end
                            | _ => prepend replacement (unquote_go 0 rest2)
                            end
                          else prepend (EncodeRune rr) (unquote_go 0 rest2)
                      end
                  | _ => None
                  end
                else
                  match simple_escape e with
                  | Some d => prepend (String d EmptyString)
                                (unquote_go 0 rest1)
                  | None => None
                  end
            end
          else if bool_decide (c = dquote) || (byte_val c <? 32)%N then None
          else if (byte_val c <? 128)%N
          then prepend (String c EmptyString) (unquote_go 0 rest)
          else if invalid_head s
          then prepend replacement (unquote_go 0 rest)
          else prepend (String c EmptyString)
                 (unquote_go (snd (DecodeRune s) - 1) rest)
      end
  end.

Definition unquote (body : string) : option string := unquote_go 0 body.

(** ** Object keys against struct fields: the folding of fold.go *)

(** Whether an object key names the field [name] when no field has the
    key as its exact name: decode.go compares the two after folding,
    which takes every code point to the least member of its class under
    simple case folding. For a name in ASCII, as every json tag of this
    repository is, the key matches exactly when it has the name's
    letters in either case, where k may also be U+212A (the Kelvin sign,
    bytes E2 84 AA) and s may also be U+017F (the long s, bytes C5 BF):
    no other code point folds onto an ASCII one. *)
Fixpoint equalFold_go (skip : nat) (name key : string) : bool :=
  match key with
  | EmptyString => bool_decide (name = EmptyString) && (skip =? 0)%nat
  | String c rest =>
      match skip with
      | S skip' => equalFold_go skip' name rest
      | O =>
          match name with
          | EmptyString => false
          | String n name' =>
              if (byte_val c <? 128)%N then
                bool_decide (lower_byte c = lower_byte n)
                && equalFold_go 0 name' rest
              else
                match byte_val c, rest with
                | 226%N, String c1 (String c2 _) =>
                    bool_decide (byte_val c1 = 132%N)
                    && bool_decide (byte_val c2 = 170%N)
                    && bool_decide (lower_byte n = "k"%char)
                    && equalFold_go 2 name' rest
                | 197%N, String c1 _ =>
                    bool_decide (byte_val c1 = 191%N)
                    && bool_decide (lower_byte n = "s"%char)
                    && equalFold_go 1 name' rest
                | _, _ => false
                end
          end
      end
  end.

Definition equalFold (name key : string) : bool := equalFold_go 0 name key.

(** ** The syntax tree of a JSON text *)

(** A JSON text as the scanner delimits it: number and string leaves keep
    their spelling (for a string, the text between the quotes), object
    members keep their order and their duplicates. The decoders read their
    targets off this tree, as decode.go reads them off the scanned input. *)
Unset Elimination Schemes.
Inductive Tree :=
| TNull
| TBool (b : bool)
| TNumber (lit : string)
| TString (body : string)
| TArray (elems : list Tree)
| TObject (members : list (string * Tree)).
Set Elimination Schemes.

(** The states of the scanner (scanner.go), one per step function. *)
Inductive Scan :=
| BeginValueOrEmpty            (* after [ *)
| BeginValue
| BeginStringOrEmpty           (* after { *)
| BeginString                  (* after a comma in an object *)
| EndKey                       (* after a key: expects the colon *)
| EndValue                     (* after a value inside a container *)
| EndTop                       (* after the top-level value *)
| InString
| InStringEsc
| InStringEscU (seen : nat)    (* hex digits of a \u escape read so far *)
| NumNeg | Num0 | Num1 | NumDot | NumDot0 | NumE | NumESign | NumE0
| InLiteral (rest : string) (value : Tree).

(** An open container: the elements or members read so far, last first;
    for an object, the key whose value is being read. *)
Inductive Frame :=
| FArray (elems : list Tree)
| FObject (members : list (string * Tree)) (key : option string).

Record Parser := {
  scan : Scan;
  lit : string;                (* the current literal, last byte first *)
  stack : list Frame;
  top : option Tree }.

Definition start : Parser :=
  {| scan := BeginValue; lit := EmptyString; stack := []; top := None |}.

Fixpoint rev_onto (s acc : string) : string :=
  match s with
  | EmptyString => acc
  | String c r => rev_onto r (String c acc)
  end.

(** The literal read, first byte first. *)
Definition spelled (p : Parser) : string := rev_onto (lit p) EmptyString.

Definition isSpace (c : ascii) : bool :=
  bool_decide (c = " "%char) || bool_decide (c = "009"%char)
  || bool_decide (c = "013"%char) || bool_decide (c = "010"%char).

Definition maxNestingDepth : N := 10000.

(** A value is complete: it becomes the top-level value, the next element
    of the open array, or the value of the pending key. *)
Definition deliver (stk : list Frame) (v : Tree) : option Parser :=
  match stk with
  | [] => Some {| scan := EndTop; lit := EmptyString; stack := [];
                  top := Some v |}
  | FArray es :: stk' =>
      Some {| scan := EndValue; lit := EmptyString;
              stack := FArray (v :: es) :: stk'; top := None |}
  | FObject ms (Some k) :: stk' =>
      Some {| scan := EndValue; lit := EmptyString;
              stack := FObject ((k, v) :: ms) None :: stk'; top := None |}
  | FObject _ None :: _ => None
  end.

(** The closing quote of a string: a key if the open object waits for
    one, a value otherwise. *)
Definition end_string (p : Parser) : option Parser :=
  match stack p with
  | FObject ms None :: stk' =>
      Some {| scan := EndKey; lit := EmptyString;
              stack := FObject ms (Some (spelled p)) :: stk'; top := None |}
  | stk => deliver stk (TString (spelled p))
  end.

Definition push (p : Parser) (f : Frame) (s : Scan) : option Parser :=
  if (N.of_nat (length (stack p)) <? maxNestingDepth)%N
  then Some {| scan := s; lit := EmptyString; stack := f :: stack p;
               top := None |}
  else None.

Definition goto (p : Parser) (s : Scan) : option Parser :=
  Some {| scan := s; lit := lit p; stack := stack p; top := top p |}.

(** Move to [s] with the byte added to the current literal. *)
Definition take (p : Parser) (c : ascii) (s : Scan) : option Parser :=
  Some {| scan := s; lit := String c (lit p); stack := stack p;
          top := top p |}.

(** [stateBeginValue] *)
Definition begin_value (p : Parser) (c : ascii) : option Parser :=
  if isSpace c then goto p (scan p)
  else if bool_decide (c = "{"%char) then
    push p (FObject [] None) BeginStringOrEmpty
  else if bool_decide (c = "["%char) then push p (FArray []) BeginValueOrEmpty
  else if bool_decide (c = dquote) then
    Some {| scan := InString; lit := EmptyString; stack := stack p;
            top := None |}
  else if bool_decide (c = "-"%char) then
    Some {| scan := NumNeg; lit := String c EmptyString; stack := stack p;
            top := None |}
  else if bool_decide (c = "0"%char) then
    Some {| scan := Num0; lit := String c EmptyString; stack := stack p;
            top := None |}
  else if in_range 49 57 c then
    Some {| scan := Num1; lit := String c EmptyString; stack := stack p;
            top := None |}
  else if bool_decide (c = "t"%char) then goto p (InLiteral "rue" (TBool true))
  else if bool_decide (c = "f"%char) then
    goto p (InLiteral "alse" (TBool false))
  else if bool_decide (c = "n"%char) then goto p (InLiteral "ull" TNull)
  else None.

(** [stateEndValue] and [stateEndTop], by what is open. *)
Definition end_value (p : Parser) (c : ascii) : option Parser :=
  if isSpace c then goto p (scan p)
  else
    match scan p, stack p with
    | EndKey, _ =>
        if bool_decide (c = ":"%char) then goto p BeginValue else None
    | EndValue, FArray es :: stk' =>
        if bool_decide (c = ","%char) then goto p BeginValue
        else if bool_decide (c = "]"%char) then deliver stk' (TArray (rev es))
        else None
    | EndValue, FObject ms None :: stk' =>
        if bool_decide (c = ","%char) then goto p BeginString
        else if bool_decide (c = "}"%char)
        then deliver stk' (TObject (rev ms))
        else None
    | _, _ => None               (* EndTop: only white space may follow *)
    end.

(** A number ends at the first byte that cannot continue it; that byte is
    then read in the state after the value. *)
Definition end_number (p : Parser) (c : ascii) : option Parser :=
  match deliver (stack p) (TNumber (spelled p)) with
  | Some p' => end_value p' c
  | None => None
  end.

Definition is_digit09 (c : ascii) : bool := in_range 48 57 c.
Definition is_exp (c : ascii) : bool :=
  bool_decide (c = "e"%char) || bool_decide (c = "E"%char).

(** One byte of input. [None] is a syntax error. *)
Definition step (p : Parser) (c : ascii) : option Parser :=
  match scan p with
  | BeginValue => begin_value p c
  | BeginValueOrEmpty =>
      if isSpace c then goto p (scan p)
      else if bool_decide (c = "]"%char) then
        match stack p with
        | FArray es :: stk' => deliver stk' (TArray (rev es))
        | _ => None
        end
      else begin_value p c
  | BeginStringOrEmpty =>
      if isSpace c then goto p (scan p)
      else if bool_decide (c = "}"%char) then
        match stack p with
        | FObject ms None :: stk' => deliver stk' (TObject (rev ms))
        | _ => None
        end
      else if bool_decide (c = dquote) then goto p InString
      else None
  | BeginString =>
      if isSpace c then goto p (scan p)
      else if bool_decide (c = dquote) then goto p InString
      else None
  | EndKey | EndValue | EndTop => end_value p c
  | InString =>
      if bool_decide (c = dquote) then end_string p
      else if bool_decide (c = backslash) then take p c InStringEsc
      else if (byte_val c <? 32)%N then None
      else take p c InString
  | InStringEsc =>
      if bool_decide (c = "u"%char) then take p c (InStringEscU 0)
      else if bool_decide (c = "b"%char) || bool_decide (c = "f"%char)
              || bool_decide (c = "n"%char) || bool_decide (c = "r"%char)
              || bool_decide (c = "t"%char) || bool_decide (c = backslash)
              || bool_decide (c = "/"%char) || bool_decide (c = dquote)
      then take p c InString
      else None
  | InStringEscU seen =>
      match hex_val c with
      | Some _ =>
          take p c (if (seen <? 3)%nat then InStringEscU (S seen)
                    else InString)
      | None => None
      end
  | NumNeg =>
      if bool_decide (c = "0"%char) then take p c Num0
      else if in_range 49 57 c then take p c Num1
      else None
  | Num1 =>
      if is_digit09 c then take p c Num1
      else if bool_decide (c = "."%char) then take p c NumDot
      else if is_exp c then take p c NumE
      else end_number p c
  | Num0 =>
      if bool_decide (c = "."%char) then take p c NumDot
      else if is_exp c then take p c NumE
      else end_number p c
  | NumDot => if is_digit09 c then take p c NumDot0 else None
  | NumDot0 =>
      if is_digit09 c then take p c NumDot0
      else if is_exp c then take p c NumE
      else end_number p c
  | NumE =>
      if bool_decide (c = "+"%char) || bool_decide (c = "-"%char)
      then take p c NumESign
      else if is_digit09 c then take p c NumE0
      else None
  | NumESign => if is_digit09 c then take p c NumE0 else None
  | NumE0 => if is_digit09 c then take p c NumE0 else end_number p c
  | InLiteral rest value =>
      match rest with
      | String c' rest' =>
          if bool_decide (c = c') then
            match rest' with
            | EmptyString => deliver (stack p) value
            | _ => goto p (InLiteral rest' value)
            end
          else None
      | EmptyString => None
      end
  end.

Fixpoint run (p : Parser) (input : string) : option Parser :=
  match input with
  | EmptyString => Some p
  | String c rest =>
      match step p c with
      | Some p' => run p' rest
      | None => None
      end
  end.

(** The end of the input: the top-level value must be complete; a
    top-level number ends here. *)
Definition finish (p : Parser) : option Tree :=
  match scan p, stack p with
  | EndTop, _ => top p
  | (Num0 | Num1 | NumDot0 | NumE0), [] => Some (TNumber (spelled p))
  | _, _ => None
  end.

(** [checkValid] and the delimiting of values in one pass. *)
Definition parse (input : string) : option Tree :=
  match run start input with
  | Some p => finish p
  | None => None
  end.

(** ** Writing a tree *)

Fixpoint join (sep : string) (l : list string) : string :=
  match l with
  | [] => EmptyString
  | [x] => x
  | x :: rest => x +:+ sep +:+ join sep rest
  end.

Definition quoted (body : string) : string :=
  String dquote (body +:+ String dquote EmptyString).

(** The compact form [json.Marshal] writes. *)
Fixpoint compact (t : Tree) : string :=
  match t with
  | TNull => "null"
  | TBool true => "true"
  | TBool false => "false"
  | TNumber lit => lit
  | TString body => quoted body
  | TArray elems => "[" +:+ join "," (map compact elems) +:+ "]"
  | TObject members =>
      "{" +:+ join "," (map (fun kv => quoted kv.1 +:+ ":" +:+ compact kv.2)
                         members) +:+ "}"
  end.

Fixpoint spaces (n : nat) : string :=
  match n with
  | O => EmptyString
  | S n' => "  " +:+ spaces n'
  end.

(** The form [json.MarshalIndent(v, "", "  ")] writes: [depth] is the
    nesting depth of [t]. *)
Fixpoint indented (depth : nat) (t : Tree) : string :=
  match t with
  | TArray [] => "[]"
  | TObject [] => "{}"
  | TArray elems =>
      "[" +:+ newline +:+ spaces (S depth)
      +:+ join ("," +:+ newline +:+ spaces (S depth))
            (map (indented (S depth)) elems)
      +:+ newline +:+ spaces depth +:+ "]"
  | TObject members =>
      "{" +:+ newline +:+ spaces (S depth)
      +:+ join ("," +:+ newline +:+ spaces (S depth))
            (map (fun kv => quoted kv.1 +:+ ": " +:+ indented (S depth) kv.2)
               members)
      +:+ newline +:+ spaces depth +:+ "}"
  | _ => compact t
  end.

(** ** Numbers: float64 and strconv *)

(** An IEEE 754 binary64 value, as the specification of floats of the
    standard library has it. *)
Definition float64 := spec_float.
Definition prec : Z := 53.
Definition emax : Z := 1024.

Fixpoint span_digits (s : string) : string * string :=
  match s with
  | String c r =>
      if is_digit09 c
      then let '(ds, rest) := span_digits r in (String c ds, rest)
      else (EmptyString, s)
  | EmptyString => (EmptyString, EmptyString)
  end.

Fixpoint digits_value (acc : Z) (s : string) : Z :=
  match s with
  | EmptyString => acc
  | String c r => digits_value (acc * 10 + Z.of_N (byte_val c - 48)) r
  end.

(** A number literal of the JSON grammar taken apart: sign, the digits
    before and after the point, the exponent. *)
Definition split_number (lit : string) : bool * string * string * Z :=
  let '(neg, s) :=
    match lit with
    | String c r => if bool_decide (c = "-"%char) then (true, r)
                    else (false, lit)
    | EmptyString => (false, lit)
    end in
  let '(ip, s) := span_digits s in
  let '(fp, s) :=
    match s with
    | String c r => if bool_decide (c = "."%char) then span_digits r
                    else (EmptyString, s)
    | EmptyString => (EmptyString, s)
    end in
  let e :=
    match s with
    | String c r =>
        if is_exp c then
          match r with
          | String sg r' =>
              if bool_decide (sg = "-"%char)
              then - digits_value 0 (fst (span_digits r'))
              else if bool_decide (sg = "+"%char)
              then digits_value 0 (fst (span_digits r'))
              else digits_value 0 (fst (span_digits r))
          | EmptyString => 0
          end
        else 0
    | EmptyString => 0
    end%Z in
  (neg, ip, fp, e).

(** [strconv.ParseFloat(lit, 64)] on a literal of the JSON grammar: the
    binary64 nearest to the decimal (ties to even); [None] is the range
    error of a literal too large for a float64. A literal too small is
    read as zero. *)
Definition ParseFloat (lit : string) : option float64 :=
  let '(neg, ip, fp, e) := split_number lit in
  let m := digits_value 0 (ip +:+ fp) in
  let e10 := (e - Z.of_nat (String.length fp))%Z in
  let r :=
    match m with
    | Zpos pm =>
        if (0 <=? e10)%Z
        then binary_normalize prec emax
               (if neg then - (m * 10 ^ e10) else m * 10 ^ e10)%Z 0 false
        else SFdiv prec emax (S754_finite neg pm 0)
               (S754_finite false (Z.to_pos (10 ^ (- e10))) 0)
    | _ => S754_zero neg
    end in
  match r with
  | S754_zero _ | S754_finite _ _ _ => Some r
  | _ => None
  end.

(** Is [10^p <= x/d]? *)
Definition pow10_le (p x d : Z) : bool :=
  if (0 <=? p)%Z then (10 ^ p * d <=? x)%Z else (d <=? x * 10 ^ (- p))%Z.

(** The decimal exponent of [x/d]: the [p] with [10^p <= x/d < 10^(p+1)]. *)
Definition floor_log10 (x d : Z) : Z :=
  let p0 := ((Z.log2 x - Z.log2 d) * 1233 / 4096)%Z in
  let p1 := if pow10_le p0 x d then p0 else (p0 - 1)%Z in
  let p2 := if pow10_le p1 x d then p1 else (p1 - 1)%Z in
  let p3 := if pow10_le (p2 + 1) x d then (p2 + 1)%Z else p2 in
  if pow10_le (p3 + 1) x d then (p3 + 1)%Z else p3.

Fixpoint strip_zeros (fuel : nat) (c q : Z) : Z * Z :=
  match fuel with
  | O => (c, q)
  | S fuel' =>
      if ((c mod 10 =? 0) && negb (c =? 0))%Z
      then strip_zeros fuel' (c / 10)%Z (q + 1)%Z
      else (c, q)
  end.

(** The shortest decimal that reads back as [m * 2^e]: [n] digits are
    tried for n = 1, 2, ...; the decimal [c * 10^q] is returned. [x/d] is
    the value, [lo/d] and [hi/d] the ends of the interval of reals that
    round to it, part of it when [incl]. *)
Fixpoint shortest_go (fuel : nat) (n : Z) (p x lo hi d : Z) (incl : bool)
  : Z * Z :=
  let q := (p - n + 1)%Z in
  let sc := (10 ^ Z.abs q)%Z in
  let '(num, lon, hin, den) :=
    if (0 <=? q)%Z then (x, lo, hi, d * sc)%Z
    else (x * sc, lo * sc, hi * sc, d)%Z in
  let down := (num / den)%Z in
  let rem := (num - down * den)%Z in
  let okdown :=
    (rem =? 0)%Z
    || (if incl then (lon <=? down * den)%Z else (lon <? down * den)%Z) in
  let okup :=
    negb (rem =? 0)%Z
    && (if incl then ((down + 1) * den <=? hin)%Z
        else ((down + 1) * den <? hin)%Z) in
  let nearest :=
    match (2 * rem ?= den)%Z with
    | Lt => down
    | Gt => (down + 1)%Z
    | Eq => if Z.even down then down else (down + 1)%Z
    end in
  match fuel with
  | O => (nearest, q)
  | S fuel' =>
      if okdown && okup then (nearest, q)
      else if okdown then (down, q)
      else if okup then ((down + 1)%Z, q)
      else shortest_go fuel' (n + 1)%Z p x lo hi d incl
  end.

Definition shortest (m : positive) (e : Z) : Z * Z :=
  let mz := Zpos m in
  let lo4 := if ((mz =? 2 ^ 52) && (-1074 <? e))%Z then (4 * mz - 1)%Z
             else (4 * mz - 2)%Z in
  let hi4 := (4 * mz + 2)%Z in
  let sh := (e - 2)%Z in
  let '(x, lo, hi, d) :=
    if (0 <=? sh)%Z
    then (4 * mz * 2 ^ sh, lo4 * 2 ^ sh, hi4 * 2 ^ sh, 1)%Z
    else (4 * mz, lo4, hi4, 2 ^ (- sh))%Z in
  let '(c, q) :=
    shortest_go 17 1 (floor_log10 x d) x lo hi d (Z.even mz) in
  strip_zeros 400 c q.

Fixpoint zeros (n : nat) : string :=
  match n with
  | O => EmptyString
  | S n' => String "0"%char (zeros n')
  end.

Fixpoint take_str (n : nat) (s : string) : string :=
  match n, s with
  | S n', String c r => String c (take_str n' r)
  | _, _ => EmptyString
  end.

Fixpoint drop_str (n : nat) (s : string) : string :=
  match n, s with
  | S n', String _ r => drop_str n' r
  | _, _ => s
  end.

(** The format with the byte f and the shortest precision. *)
Definition format_f (ds : string) (dp : Z) : string :=
  let nd := Z.of_nat (String.length ds) in
  if (dp <=? 0)%Z then "0." +:+ zeros (Z.to_nat (- dp)) +:+ ds
  else if (nd <=? dp)%Z then ds +:+ zeros (Z.to_nat (dp - nd))
  else take_str (Z.to_nat dp) ds +:+ "." +:+ drop_str (Z.to_nat dp) ds.

(** The format with the byte e, after the floatEncoder has taken the
    padding zero out of a one-digit exponent. *)
Definition format_e (ds : string) (dp : Z) : string :=
  let ex := (dp - 1)%Z in
  take_str 1 ds
  +:+ (if (1 <? String.length ds)%nat then "." +:+ drop_str 1 ds
       else EmptyString)
  +:+ "e" +:+ (if (ex <? 0)%Z then "-" else "+") +:+ FormatInt (Z.abs ex).

Definition small_cutoff : float64 :=
  default (S754_zero false) (ParseFloat "1e-6").
Definition large_cutoff : float64 :=
  default (S754_zero false) (ParseFloat "1e21").

(** What the floatEncoder of encode.go writes for a float64; [None] for
    an infinity or a NaN (an UnsupportedValueError). *)
Definition FormatFloat (f : float64) : option string :=
  match f with
  | S754_zero s => Some (if s then "-0" else "0")
  | S754_finite s m e =>
      let a := S754_finite false m e in
      let '(c, q) := shortest m e in
      let ds := FormatInt c in
      let dp := (Z.of_nat (String.length ds) + q)%Z in
      let body :=
        if SFltb a small_cutoff || negb (SFltb a large_cutoff)
        then format_e ds dp else format_f ds dp in
      Some ((if s then "-" else EmptyString) +:+ body)
  | _ => None
  end.

(** ** The values of [interface{}] after Unmarshal *)

(** nil, bool, float64, string, []interface{} and map[string]interface{}.
    A map is kept as the list of its entries, one per key; their order
    carries no meaning (Marshal writes them sorted by key). *)
Unset Elimination Schemes.
Inductive Value :=
| Null
| Bool (b : bool)
| Number (f : float64)
| Str (s : string)
| Array (elems : list Value)
| Object (entries : list (string * Value)).
Set Elimination Schemes.

(** [m[key] = value] *)
Fixpoint map_set (key : string) (value : Value)
    (m : list (string * Value)) : list (string * Value) :=
  match m with
  | [] => [(key, value)]
  | (k, v) :: rest =>
      if bool_decide (k = key) then (k, value) :: rest
      else (k, v) :: map_set key value rest
  end.

(** [valueInterface] of decode.go. A member read later replaces an
    earlier one of the same key. [None] is the error Unmarshal returns for
    a number out of range. *)
Fixpoint to_value (t : Tree) : option Value :=
  match t with
  | TNull => Some Null
  | TBool b => Some (Bool b)
  | TNumber lit => Number <$> ParseFloat lit
  | TString body => Str <$> unquote body
  | TArray elems =>
      Array <$>
        (fix each (l : list Tree) : option (list Value) :=
           match l with
           | [] => Some []
           | t :: rest =>
               match to_value t, each rest with
               | Some v, Some vs => Some (v :: vs)
               | _, _ => None
               end
           end) elems
  | TObject members =>
      Object <$>
        (fix each (l : list (string * Tree)) (m : list (string * Value))
           : option (list (string * Value)) :=
           match l with
           | [] => Some m
           | (body, t) :: rest =>
               match unquote body, to_value t with
               | Some key, Some v => each rest (map_set key v m)
               | _, _ => None
               end
           end) members []
  end.

Definition Unmarshal (data : string) : option Value :=
  match parse data with
  | Some t => to_value t
  | None => None
  end.

Definition sort_entries {A} (m : list (string * A)) : list (string * A) :=
  merge_sort (fun a b => String.le a.1 b.1) m.

(** The encoders of encode.go at these dynamic types: the entries of a
    map are sorted by their keys as the map holds them, and the keys are
    escaped after that, when they are written; strings are escaped. *)
Fixpoint of_value (v : Value) : option Tree :=
  match v with
  | Null => Some TNull
  | Bool b => Some (TBool b)
  | Number f => TNumber <$> FormatFloat f
  | Str s => Some (TString (escape s))
  | Array elems =>
      TArray <$>
        (fix each (l : list Value) : option (list Tree) :=
           match l with
           | [] => Some []
           | v :: rest =>
               match of_value v, each rest with
               | Some t, Some ts => Some (t :: ts)
               | _, _ => None
               end
           end) elems
  | Object entries =>
      (fun ms =>
         TObject (map (fun kt : string * Tree => (escape kt.1, kt.2))
                    (sort_entries ms))) <$>
        (fix each (l : list (string * Value)) : option (list (string * Tree)) :=
           match l with
           | [] => Some []
           | (k, v) :: rest =>
               match of_value v, each rest with
               | Some t, Some ts => Some ((k, t) :: ts)
               | _, _ => None
               end
           end) entries
  end.

Definition Marshal (v : Value) : option string := compact <$> of_value v.

End Json.

(* ===================================================================== *)
(** * internal/config: the credential store                               *)
(* ===================================================================== *)

Module Config.
Import Go Json.

Record Config := {
  APIURL : string;
  AccessToken : string;
  RefreshToken : string;
  UserEmail : string;
  DefaultCloud : string;
  DefaultRegion : string;
  DefaultCompute : Z;
  DefaultMemory : Z }.

(** The zero value [var config Config]. *)
Definition zero : Config :=
  {| APIURL := EmptyString; AccessToken := EmptyString;
     RefreshToken := EmptyString; UserEmail := EmptyString;
     DefaultCloud := EmptyString; DefaultRegion := EmptyString;
     DefaultCompute := 0%Z; DefaultMemory := 0%Z |}.

Definition DefaultConfig : Config :=
  {| APIURL := "http://localhost:8080"; AccessToken := EmptyString;
     RefreshToken := EmptyString; UserEmail := EmptyString;
     DefaultCloud := "eks"; DefaultRegion := "eu";
     DefaultCompute := 2%Z; DefaultMemory := 4%Z |}.

Definition IsAuthenticated (c : Config) : bool :=
  negb (bool_decide (AccessToken c = EmptyString))
  && negb (bool_decide (RefreshToken c = EmptyString)).

Definition ClearAuth (c : Config) : Config :=
  {| APIURL := APIURL c; AccessToken := EmptyString;
     RefreshToken := EmptyString; UserEmail := EmptyString;
     DefaultCloud := DefaultCloud c; DefaultRegion := DefaultRegion c;
     DefaultCompute := DefaultCompute c; DefaultMemory := DefaultMemory c |}.

Definition UpdateTokens (c : Config)
    (accessToken refreshToken userEmail : string) : Config :=
  {| APIURL := APIURL c; AccessToken := accessToken;
     RefreshToken := refreshToken; UserEmail := userEmail;
     DefaultCloud := DefaultCloud c; DefaultRegion := DefaultRegion c;
     DefaultCompute := DefaultCompute c; DefaultMemory := DefaultMemory c |}.

(** ** The struct under encoding/json *)

Definition string_member (name value : string) : list (string * Tree) :=
  [(name, TString (escape value))].
Definition string_member_omitempty (name value : string)
  : list (string * Tree) :=
  if bool_decide (value = EmptyString) then [] else string_member name value.
Definition int_member_omitempty (name : string) (value : Z)
  : list (string * Tree) :=
  if bool_decide (value = 0%Z) then [] else [(name, TNumber (FormatInt value))].

(** The struct encoder: the fields in declaration order under their json
    tags, the four with omitempty left out when zero. *)
Definition to_tree (c : Config) : Tree :=
  TObject
    (string_member "api_url" (APIURL c)
     ++ string_member "access_token" (AccessToken c)
     ++ string_member "refresh_token" (RefreshToken c)
     ++ string_member "user_email" (UserEmail c)
     ++ string_member_omitempty "default_cloud" (DefaultCloud c)
     ++ string_member_omitempty "default_region" (DefaultRegion c)
     ++ int_member_omitempty "default_compute" (DefaultCompute c)
     ++ int_member_omitempty "default_memory" (DefaultMemory c)).

(** [json.MarshalIndent(c, "", "  ")]; it has no error for this struct. *)
Definition MarshalIndent (c : Config) : string := indented 0 (to_tree c).

Fixpoint all_digits (s : string) : bool :=
  match s with
  | EmptyString => true
  | String c r => is_digit09 c && all_digits r
  end.

(** [strconv.ParseInt(lit, 10, 64)] on a number literal of the JSON
    grammar: digits only, within int64. *)
Definition ParseInt (lit : string) : option Z :=
  let '(neg, ds) :=
    match lit with
    | String c r => if bool_decide (c = "-"%char) then (true, r)
                    else (false, lit)
    | EmptyString => (false, lit)
    end in
  if all_digits ds && negb (bool_decide (ds = EmptyString)) then
    let n := digits_value 0%Z ds in
    let n := if neg then (- n)%Z else n in
    if ((- 2 ^ 63 <=? n) && (n <? 2 ^ 63))%Z then Some n else None
  else None.

Inductive FieldName :=
| F_api_url | F_access_token | F_refresh_token | F_user_email
| F_default_cloud | F_default_region | F_default_compute | F_default_memory.

Definition fields : list (string * FieldName) :=
  [("api_url", F_api_url); ("access_token", F_access_token);
   ("refresh_token", F_refresh_token); ("user_email", F_user_email);
   ("default_cloud", F_default_cloud); ("default_region", F_default_region);
   ("default_compute", F_default_compute);
   ("default_memory", F_default_memory)].

Fixpoint assoc {A} (key : string) (l : list (string * A)) : option A :=
  match l with
  | [] => None
  | (k, a) :: rest => if bool_decide (k = key) then Some a else assoc key rest
  end.

(** The first field whose name the key folds to. *)
Fixpoint assoc_folded {A} (key : string) (l : list (string * A)) : option A :=
  match l with
  | [] => None
  | (name, a) :: rest =>
      if equalFold name key then Some a else assoc_folded key rest
  end.

(** The field a key names: by exact name, else by name under folding. *)
Definition field_of (key : string) : option FieldName :=
  match assoc key fields with
  | Some f => Some f
  | None => assoc_folded key fields
  end.

Definition set_string (c : Config) (f : FieldName) (s : string) : Config :=
  match f with
  | F_api_url =>
      {| APIURL := s; AccessToken := AccessToken c;
         RefreshToken := RefreshToken c; UserEmail := UserEmail c;
         DefaultCloud := DefaultCloud c; DefaultRegion := DefaultRegion c;
         DefaultCompute := DefaultCompute c;
         DefaultMemory := DefaultMemory c |}
  | F_access_token =>
      {| APIURL := APIURL c; AccessToken := s;
         RefreshToken := RefreshToken c; UserEmail := UserEmail c;
         DefaultCloud := DefaultCloud c; DefaultRegion := DefaultRegion c;
         DefaultCompute := DefaultCompute c;
         DefaultMemory := DefaultMemory c |}
  | F_refresh_token =>
      {| APIURL := APIURL c; AccessToken := AccessToken c;
         RefreshToken := s; UserEmail := UserEmail c;
         DefaultCloud := DefaultCloud c; DefaultRegion := DefaultRegion c;
         DefaultCompute := DefaultCompute c;
         DefaultMemory := DefaultMemory c |}
  | F_user_email =>
      {| APIURL := APIURL c; AccessToken := AccessToken c;
         RefreshToken := RefreshToken c; UserEmail := s;
         DefaultCloud := DefaultCloud c; DefaultRegion := DefaultRegion c;
         DefaultCompute := DefaultCompute c;
         DefaultMemory := DefaultMemory c |}
  | F_default_cloud =>
      {| APIURL := APIURL c; AccessToken := AccessToken c;
         RefreshToken := RefreshToken c; UserEmail := UserEmail c;
         DefaultCloud := s; DefaultRegion := DefaultRegion c;
         DefaultCompute := DefaultCompute c;
         DefaultMemory := DefaultMemory c |}
  | F_default_region =>
      {| APIURL := APIURL c; AccessToken := AccessToken c;
         RefreshToken := RefreshToken c; UserEmail := UserEmail c;
         DefaultCloud := DefaultCloud c; DefaultRegion := s;
         DefaultCompute := DefaultCompute c;
         DefaultMemory := DefaultMemory c |}
  | _ => c
  end.

Definition set_int (c : Config) (f : FieldName) (n : Z) : Config :=
  match f with
  | F_default_compute =>
      {| APIURL := APIURL c; AccessToken := AccessToken c;
         RefreshToken := RefreshToken c; UserEmail := UserEmail c;
         DefaultCloud := DefaultCloud c; DefaultRegion := DefaultRegion c;
         DefaultCompute := n; DefaultMemory := DefaultMemory c |}
  | F_default_memory =>
      {| APIURL := APIURL c; AccessToken := AccessToken c;
         RefreshToken := RefreshToken c; UserEmail := UserEmail c;
         DefaultCloud := DefaultCloud c; DefaultRegion := DefaultRegion c;
         DefaultCompute := DefaultCompute c; DefaultMemory := n |}
  | _ => c
  end.

Definition is_int_field (f : FieldName) : bool :=
  match f with
  | F_default_compute | F_default_memory => true
  | _ => false
  end.

(** One member of the object into the struct. null leaves the field as
    it is; a value of another JSON type than the field's is an
    UnmarshalTypeError, [None]. *)
Definition decode_member (c : Config) (body : string) (t : Tree)
  : option Config :=
  match unquote body with
  | None => None
  | Some key =>
      match field_of key with
      | None => Some c                       (* no such field: skipped *)
      | Some f =>
          match t with
          | TNull => Some c
          | TString b =>
              if is_int_field f then None
              else set_string c f <$> unquote b
          | TNumber lit =>
              if is_int_field f then set_int c f <$> ParseInt lit
              else None
          | _ => None
          end
      end
  end.

Fixpoint decode_members (c : Config) (members : list (string * Tree))
  : option Config :=
  match members with
  | [] => Some c
  | (body, t) :: rest =>
      match decode_member c body t with
      | Some c' => decode_members c' rest
      | None => None
      end
  end.

(** [json.Unmarshal(data, &config)] with [config] the zero value. *)
Definition Unmarshal (data : string) : option Config :=
  match parse data with
  | Some (TObject members) => decode_members zero members
  | Some TNull => Some zero
  | _ => None
  end.

(** ** The file ~/.spacectl *)

(** How [os.WriteFile] fails. It opens the file for writing, which
    empties it, writes, and closes. When the file cannot be opened it is
    left as it was. When the write or the close fails after that, the
    file holds what was written up to there: the first [written] bytes
    of the data (none, some or all of them). *)
Inductive WriteFailure :=
| OpenFailed (e : error)
| WriteFailed (e : error) (written : nat).

(** The file: its content, if it exists, and the error each system call
    of Load and Save would return. *)
Record FileSystem := {
  file : option string;
  mkdir_error : option error;          (* os.MkdirAll *)
  write_error : option WriteFailure;   (* os.WriteFile *)
  read_error : option error }.         (* os.ReadFile *)

Definition with_file (fs : FileSystem) (data : string) : FileSystem :=
  {| file := Some data; mkdir_error := mkdir_error fs;
     write_error := write_error fs; read_error := read_error fs |}.

Definition json_error : error := New "invalid JSON for the config".

Definition Load (fs : FileSystem) : result Config * FileSystem :=
  match file fs with
  | None => (Ok DefaultConfig, fs)
  | Some data =>
      match read_error fs with
      | Some e => (Fail (Wrap "failed to read config file: " e), fs)
      | None =>
          match Unmarshal data with
          | None => (Fail (Wrap "failed to parse config file: " json_error),
                     fs)
          | Some config => (Ok config, fs)
          end
      end
  end.

(** [None] is the nil error. *)
Definition Save (c : Config) (fs : FileSystem) : option error * FileSystem :=
  match mkdir_error fs with
  | Some e => (Some (Wrap "failed to create config directory: " e), fs)
  | None =>
      match write_error fs with
      | Some (OpenFailed e) =>
          (Some (Wrap "failed to write config file: " e), fs)
      | Some (WriteFailed e written) =>
          (Some (Wrap "failed to write config file: " e),
           with_file fs (take_str written (MarshalIndent c)))
      | None => (None, with_file fs (MarshalIndent c))
      end
  end.

End Config.

(* ===================================================================== *)
(** * internal/api/client.go: the authenticated transport                 *)
(* ===================================================================== *)

Module Api.
Import Go Strings Json Config.

(** A request as [httpClient.Do] is given it. [Body] is the bytes
    [http.NewRequest] was called with, if any: they fix the content
    length the request declares. The request reads them through a
    reader over the buffer, and a reader is read once: [Spent] says that
    an earlier [Do] has already been given this request and has used the
    reader, and that nothing has put it back to its start. *)
Record Request := {
  Method : string;
  URL : string;
  Header : gmap string string;
  Body : option string;
  Spent : bool }.

Record Response := {
  StatusCode : Z;
  ResponseBody : string }.

(** The fields of models.LoginResponse that [refreshToken] reads. *)
Record LoginResponse := {
  LR_AccessToken : string;
  LR_RefreshToken : string;
  LR_UserEmail : string }.       (* loginResp.User.Email *)

(** What the transport borrows from outside the package: the remote end
    behind [httpClient.Do], which answers a request (given the requests
    made before it) with a response or a transport error; the error, if
    any, of [http.NewRequest] for a method and URL; the decoding of a
    response body into a LoginResponse by [json.Decoder]; and the tables
    of package unicode, which [strings.ToLower] reads. *)
Record Env := {
  roundTrip : list Request -> Request -> result Response;
  newRequestError : string -> string -> option error;
  decodeLoginResponse : string -> result LoginResponse;
  unicode : Unicode }.

(** The state a call runs in: the [*config.Config] the client shares with
    its caller, the file system behind it, the requests handed to
    [httpClient.Do] so far and the lines written to os.Stderr. *)
Record State := {
  config : Config;
  fs : FileSystem;
  calls : list Request;
  stderr : list string }.

Record Client := {
  baseURL : string;
  debug : bool }.

Definition set_config (st : State) (c : Config) : State :=
  {| config := c; fs := fs st; calls := calls st; stderr := stderr st |}.
Definition set_fs (st : State) (f : FileSystem) : State :=
  {| config := config st; fs := f; calls := calls st; stderr := stderr st |}.

(** [fmt.Fprintf(os.Stderr, ...)] when the debug flag is set. *)
Definition log (c : Client) (line : string) (st : State) : State :=
  if debug c
  then {| config := config st; fs := fs st; calls := calls st;
          stderr := stderr st ++ [line] |}
  else st.

(** [c.httpClient.Do(req)] *)
Definition Do (env : Env) (req : Request) (st : State)
  : result Response * State :=
  (roundTrip env (calls st) req,
   {| config := config st; fs := fs st; calls := calls st ++ [req];
      stderr := stderr st |}).

(** [c.config.Save()] *)
Definition save_config (st : State) : option error * State :=
  let '(err, fs') := Save (config st) (fs st) in (err, set_fs st fs').

(** ** Redaction of debug output *)

Definition sensitive_keys : list string :=
  ["password"; "pass"; "pwd"; "access_token"; "refresh_token"; "token";
   "authorization"].

Definition isSensitiveKey (u : Unicode) (key : string) : bool :=
  bool_decide (ToLower u key ∈ sensitive_keys).

Definition REDACTED : string := "***REDACTED***".

(** The maps and slices are updated in place, key by key and index by
    index; the updates of different keys do not interfere, so the result
    does not depend on the order in which the map is ranged over. *)
Fixpoint redactRecursive (u : Unicode) (v : Value) : Value :=
  match v with
  | Object entries =>
      Object
        (map (fun kv =>
                (kv.1, if isSensitiveKey u kv.1 then Str REDACTED
                       else redactRecursive u kv.2)) entries)
  | Array elems => Array (map (redactRecursive u) elems)
  | _ => v
  end.

Definition redactSensitiveJSON (u : Unicode) (raw : string) : string :=
  match Json.Unmarshal raw with
  | None => raw
  | Some v =>
      match Marshal (redactRecursive u v) with
      | None => raw
      | Some redacted => redacted
      end
  end.

(** ** refreshToken *)

Definition content_type : gmap string string :=
  {[ "Content-Type" := "application/json" ]}.

(** [json.Marshal(models.RefreshTokenRequest{RefreshToken: token})] *)
Definition refresh_payload (token : string) : string :=
  compact (TObject [("refresh_token", TString (escape token))]).

Definition refresh_url (c : Client) : string :=
  baseURL c +:+ "/api/v1/user/refresh".

Definition refresh_request (c : Client) (token : string) : Request :=
  {| Method := "POST"; URL := refresh_url c; Header := content_type;
     Body := Some (refresh_payload token); Spent := false |}.

Definition session_expired (status : Z) : error :=
  New ("session expired (HTTP " +:+ FormatInt status
       +:+ "). Please run 'spacectl login' to re-authenticate").

Definition refreshToken (env : Env) (c : Client) (st : State)
  : option error * State :=
  let body := refresh_payload (RefreshToken (config st)) in
  let url := refresh_url c in
  let st := log c ("[spacectl] -> POST " +:+ url +:+ newline) st in
  let st := log c ("[spacectl]    body: "
                   +:+ redactSensitiveJSON (unicode env) body
                   +:+ newline) st in
  match newRequestError env "POST" url with
  | Some e => (Some (Wrap "failed to create refresh request: " e), st)
  | None =>
      let req := refresh_request c (RefreshToken (config st)) in
      let '(r, st) := Do env req st in
      match r with
      | Fail e => (Some (Wrap "refresh request failed: " e), st)
      | Ok resp =>
          let st := log c ("[spacectl] <- POST " +:+ url +:+ " : "
                           +:+ FormatInt (StatusCode resp) +:+ newline) st in
          if negb (StatusCode resp =? 200)%Z then
            (* Invalidate local tokens to avoid repeated failures *)
            let st := set_config st (ClearAuth (config st)) in
            let '(_, st) := save_config st in
            (Some (session_expired (StatusCode resp)), st)
          else
            match decodeLoginResponse env (ResponseBody resp) with
            | Fail e =>
                (Some (Wrap "failed to decode refresh response: " e), st)
            | Ok loginResp =>
                let st :=
                  set_config st
                    (UpdateTokens (config st) (LR_AccessToken loginResp)
                       (LR_RefreshToken loginResp)
                       (LR_UserEmail loginResp)) in
                let '(err, st) := save_config st in
                match err with
                | Some e =>
                    (Some (Wrap "failed to save updated config: " e), st)
                | None => (None, st)
                end
            end
      end
  end.

(** ** doRequest *)

Definition bearer (token : string) : string := "Bearer " +:+ token.

(** The request [doRequest] builds: [body] is the marshalled body, if the
    caller passed one. *)
Definition new_request (c : Client) (cfg : Config)
    (method path : string) (body : option string) : Request :=
  {| Method := method; URL := baseURL c +:+ path;
     Header :=
       if bool_decide (AccessToken cfg = EmptyString) then content_type
       else <["Authorization" := bearer (AccessToken cfg)]> content_type;
     Body := body; Spent := false |}.

(** [req.Header.Set("Authorization", ...)] *)
Definition with_authorization (req : Request) (value : string) : Request :=
  {| Method := Method req; URL := URL req;
     Header := <["Authorization" := value]> (Header req);
     Body := Body req; Spent := Spent req |}.

(** The request value once [httpClient.Do] has been called on it: a
    body, if there is one, has been read through its reader. *)
Definition after_Do (req : Request) : Request :=
  {| Method := Method req; URL := URL req; Header := Header req;
     Body := Body req;
     Spent := match Body req with Some _ => true | None => Spent req end |}.

Definition StatusUnauthorized : Z := 401.

(** [body] is [None] for a nil body, else the outcome of
    [json.Marshal(body)]. *)
Definition doRequest (env : Env) (c : Client) (method path : string)
    (body : option (result string)) (st : State)
  : result Response * State :=
  match body with
  | Some (Fail e) => (Fail (Wrap "failed to marshal request body: " e), st)
  | _ =>
      let jsonBody :=
        match body with Some (Ok b) => Some b | _ => None end in
      match newRequestError env method (baseURL c +:+ path) with
      | Some e => (Fail (Wrap "failed to create request: " e), st)
      | None =>
          let req := new_request c (config st) method path jsonBody in
          let st := log c ("[spacectl] -> " +:+ method +:+ " "
                           +:+ baseURL c +:+ path +:+ newline) st in
          let st :=
            match jsonBody with
            | Some b =>
                if bool_decide (b = EmptyString) then st
                else log c ("[spacectl]    body: "
                            +:+ redactSensitiveJSON (unicode env) b
                            +:+ newline) st
            | None => st
            end in
          let '(r, st) := Do env req st in
          match r with
          | Fail e => (Fail (Wrap "request failed: " e), st)
          | Ok resp =>
              let done (resp : Response) (st : State) :=
                (Ok resp,
                 log c ("[spacectl] <- " +:+ method +:+ " " +:+ baseURL c
                        +:+ path +:+ " : " +:+ FormatInt (StatusCode resp)
                        +:+ newline) st) in
              (* Handle 401 - try to refresh token *)
              if (StatusCode resp =? StatusUnauthorized)%Z
                 && negb (bool_decide (RefreshToken (config st) = EmptyString))
              then
                let '(err, st) := refreshToken env c st in
                match err with
                | Some e => (Fail (Wrap "authentication failed: " e), st)
                | None =>
                    (* Retry request with new token: the same request
                       value, its header set anew, its body not *)
                    let req :=
                      with_authorization (after_Do req)
                        (bearer (AccessToken (config st))) in
                    let '(r, st) := Do env req st in
                    match r with
                    | Fail e => (Fail (Wrap "retry request failed: " e), st)
                    | Ok resp => done resp st
                    end
                end
              else done resp st
          end
      end
  end.

(** [Client.IsAuthenticated] *)
Definition IsAuthenticated (st : State) : bool :=
  Config.IsAuthenticated (config st).

(** ** handleResponse *)

(** [fmt.Errorf("API error (%d): %s", status, message)] *)
Definition api_error (status : Z) (message : string) : error :=
  New ("API error (" +:+ FormatInt status +:+ "): " +:+ message).

(** One member of an object into [models.ErrorResponse], whose only field
    is Error under the key error: a key matches by exact name or under
    case folding; null leaves the field as it is; a value that is not a
    string is an UnmarshalTypeError, [None]; other keys are skipped. *)
Definition decode_error_member (message : string) (body : string) (t : Tree)
  : option string :=
  match unquote body with
  | None => None
  | Some key =>
      if bool_decide (key = "error") || equalFold "error" key
      then
        match t with
        | TNull => Some message
        | TString b => unquote b
        | _ => None
        end
      else Some message
  end.

Fixpoint decode_error_members (message : string)
    (members : list (string * Tree)) : option string :=
  match members with
  | [] => Some message
  | (body, t) :: rest =>
      match decode_error_member message body t with
      | Some message' => decode_error_members message' rest
      | None => None
      end
  end.

(** [json.Unmarshal(body, &errorResp)]: the Error field afterwards, or
    [None] when Unmarshal returns an error. *)
Definition ErrorResponse_Unmarshal (data : string) : option string :=
  match parse data with
  | Some (TObject members) => decode_error_members EmptyString members
  | Some TNull => Some EmptyString
  | _ => None
  end.

(** [readAll] is the error of [io.ReadAll(resp.Body)], if any. [result]
    is [None] for a nil result, else [json.Unmarshal] into the variable
    the caller passed. The value is what was decoded, [None] when nothing
    was. *)
Definition handleResponse {A} (readAll : option error) (resp : Response)
    (result : option (string -> Go.result A)) : Go.result (option A) :=
  match readAll with
  | Some e => Fail (Wrap "failed to read response body: " e)
  | None =>
      let body := ResponseBody resp in
      if ((200 <=? StatusCode resp) && (StatusCode resp <? 300))%Z then
        match result with
        | Some unmarshal =>
            match unmarshal body with
            | Fail e => Fail (Wrap "failed to unmarshal response: " e)
            | Ok a => Ok (Some a)
            end
        | None => Ok None
        end
      else
        (* Try to parse error response *)
        match ErrorResponse_Unmarshal body with
        | Some message => Fail (api_error (StatusCode resp) message)
        | None => Fail (api_error (StatusCode resp) body)
        end
  end.

End Api.

(* ===================================================================== *)
(** * internal/output/formatter.go                                        *)
(* ===================================================================== *)

Module Output.
Import Go Strings.

(** A value held in an [interface{}] slot of a record, with what
    [fmt.Sprintf] prints for it under the verb %v. [VOther] is any other
    Go value (time.Time, float64, pointer, nested struct), carried by its
    %v rendering. *)
Inductive Value :=
| VNil
| VString (s : string)
| VBool (b : bool)
| VInt (n : Z)
| VOther (shown : string).

Definition Sprintf_v (v : Value) : string :=
  match v with
  | VNil => "<nil>"
  | VString s => s
  | VBool true => "true"
  | VBool false => "false"
  | VInt n => FormatInt n
  | VOther shown => shown
  end.

(** [record[key]] printed with %v: a missing key reads as the nil
    interface. *)
Definition show_field (record : gmap string Value) (key : string) : string :=
  Sprintf_v (default VNil (record !! key)).

(** ** The model types of internal/models that have a curated shape *)

Record Organization := {
  Organization_ID : string;
  Organization_Name : string;
  Organization_CreatedAt : string;
  Organization_UpdatedAt : string }.

Record OrganizationMembershipResponse := {
  OMR_Organization : Organization;
  OMR_Role : string;
  OMR_IsDefault : bool }.

Record Project := {
  Project_ID : string;
  Project_OrganizationID : string;
  Project_Name : string;
  Project_Description : option string;
  Project_MaxTenants : Z;
  Project_MaxCompute : Z;
  Project_MaxMemoryGB : Z;
  Project_CreatedAt : string;
  Project_UpdatedAt : string }.

Record ProjectMembership := {
  PM_Project : Project;
  PM_Role : string;
  PM_CreatedAt : string }.

Record Location := {
  Location_CloudProvider : string;
  Location_Region : string;
  Location_Zone : string }.

Record KubernetesVersion := {
  KV_Version : string;
  KV_IsDefault : bool }.

Record Tenant := {
  Tenant_ID : string;
  Tenant_ProjectID : string;
  Tenant_OrganizationID : string;
  Tenant_HostClusterID : string;
  Tenant_Name : string;
  Tenant_CloudProvider : string;
  Tenant_Region : string;
  Tenant_LocationShort : string;
  Tenant_KubernetesVersion : string;
  Tenant_ComputeQuota : Z;
  Tenant_MemoryQuotaGB : Z;
  Tenant_Status : string;
  Tenant_Namespace : string;
  Tenant_CreatedAt : string;
  Tenant_UpdatedAt : string }.

(** The dynamic types the type switches of [convertToRecords] name. *)
Inductive Model :=
| MOrganizationMembershipResponse (m : OrganizationMembershipResponse)
| MProjectMembership (m : ProjectMembership)
| MOrganization (m : Organization)
| MProject (m : Project)
| MLocation (m : Location)
| MKubernetesVersion (m : KubernetesVersion)
| MTenant (m : Tenant).

(** Any other struct, as reflection sees it: its fields in declaration
    order. *)
Record Field := {
  Field_Name : string;
  Field_Exported : bool;      (* fieldValue.CanInterface() *)
  Field_JsonTag : string;     (* field.Tag.Get("json") *)
  Field_Value : Value }.

Definition Struct := list Field.

(** An element of a slice, by dynamic type. A nil pointer is [None]. *)
Inductive Item :=
| IModel (m : Model)
| IModelPtr (p : option Model)
| IMap (r : gmap string Value)
| IStruct (s : Struct)
| IStructPtr (p : option Struct)
| IOther (kind : string).     (* not a struct: its reflect.Kind *)

(** The argument of [FormatData], by [reflect] kind after one pointer
    dereference. *)
Inductive Data :=
| DSlice (items : list Item)
| DModel (m : Model)
| DStruct (s : Struct)
| DOther.                     (* map, array, scalar, nil, nil pointer *)

(** The map literal each curated case builds. *)
Definition curated (m : Model) : gmap string Value :=
  match m with
  | MOrganizationMembershipResponse m =>
      list_to_map
        [("organization", VString (Organization_Name (OMR_Organization m)));
         ("role", VString (OMR_Role m));
         ("is_default", VBool (OMR_IsDefault m))]
  | MProjectMembership m =>
      list_to_map
        [("project", VString (Project_Name (PM_Project m)));
         ("role", VString (PM_Role m))]
  | MOrganization m =>
      list_to_map
        [("id", VString (Organization_ID m));
         ("name", VString (Organization_Name m))]
  | MProject m =>
      list_to_map
        [("id", VString (Project_ID m));
         ("name", VString (Project_Name m));
         ("organization_id", VString (Project_OrganizationID m))]
  | MLocation m =>
      list_to_map
        [("cloud_provider", VString (Location_CloudProvider m));
         ("region", VString (Location_Region m));
         ("zone", VString (Location_Zone m))]
  | MKubernetesVersion m =>
      list_to_map
        [("version", VString (KV_Version m));
         ("is_default", VBool (KV_IsDefault m))]
  | MTenant m =>
      list_to_map
        [("name", VString (Tenant_Name m));
         ("cloud_provider", VString (Tenant_CloudProvider m));
         ("region", VString (Tenant_Region m));
         ("kubernetes_version", VString (Tenant_KubernetesVersion m));
         ("compute_quota", VInt (Tenant_ComputeQuota m));
         ("memory_quota_gb", VInt (Tenant_MemoryQuotaGB m));
         ("status", VString (Tenant_Status m))]
  end.

(** [structToMap], on a value that is a struct (or a non-nil pointer to
    one): later fields overwrite earlier ones of the same name. *)
Fixpoint structFields (fs : list Field) (result : gmap string Value)
  : gmap string Value :=
  match fs with
  | [] => result
  | f :: rest =>
      if negb (Field_Exported f) then structFields rest result
      else
        let jsonTag := Field_JsonTag f in
        if bool_decide (jsonTag = EmptyString) || bool_decide (jsonTag = "-")
        then structFields rest result
        else
          let jsonName := before_comma jsonTag in
          let jsonName :=
            if bool_decide (jsonName = EmptyString) then Field_Name f
            else jsonName in
          structFields rest (<[jsonName := Field_Value f]> result)
  end.

Definition structToMap (it : Item) : result (gmap string Value) :=
  match it with
  | IStruct s | IStructPtr (Some s) => Ok (structFields s ∅)
  | IStructPtr None => Fail (New "expected struct, got invalid")
  | IOther kind => Fail (New ("expected struct, got " +:+ kind))
  | IModel _ | IModelPtr _ | IMap _ =>
      (* never passed here: the type switch takes these first *)
      Fail (New "expected struct, got invalid")
  end.

(** The loop over a slice in [convertToRecords]. *)
Fixpoint convertItems (items : list Item) (records : list (gmap string Value))
  : result (list (gmap string Value)) :=
  match items with
  | [] => Ok records
  | it :: rest =>
      match it with
      | IModel m | IModelPtr (Some m) =>
          convertItems rest (records ++ [curated m])
      | IModelPtr None => convertItems rest records
      | IMap r => convertItems rest (records ++ [r])
      | _ =>
          match structToMap it with
          | Fail e => Fail e
          | Ok record => convertItems rest (records ++ [record])
          end
      end
  end.

Definition convertToRecords (data : Data)
  : result (list (gmap string Value)) :=
  match data with
  | DSlice items => convertItems items []
  | DModel m => Ok [curated m]
  | DStruct s =>
      match structToMap (IStruct s) with
      | Fail e => Fail e
      | Ok record => Ok [record]
      end
  | DOther => Fail (New "unsupported data type for table/CSV formatting")
  end.

Definition hasKeys (m : gmap string Value) (keys : list string) : bool :=
  forallb (fun k => bool_decide (is_Some (m !! k))) keys.

Definition organization_order : list string :=
  ["organization"; "role"; "is_default"].
Definition location_order : list string :=
  ["cloud_provider"; "region"; "zone"].
Definition version_order : list string :=
  ["version"; "is_default"].
Definition tenant_order : list string :=
  ["name"; "cloud_provider"; "region"; "kubernetes_version";
   "compute_quota"; "memory_quota_gb"; "status"].

(** The keys of a record in the order the map happens to hand them out;
    [getOrderedHeadersFromRecord] sorts them, which makes its result
    independent of that order (lemma [sort_Strings_perm]). *)
Definition keys_of (record : gmap string Value) : list string :=
  (map_to_list record).*1.

Definition getOrderedHeadersFromRecord (record : gmap string Value)
  : list string :=
  if hasKeys record organization_order then organization_order
  else if hasKeys record location_order then location_order
  else if hasKeys record version_order then version_order
  else if hasKeys record tenant_order then tenant_order
  else sort_Strings (keys_of record).

(** ** encoding/csv *)

Definition dquote : ascii := "034"%char.

Fixpoint contains_special (field : string) : bool :=
  match field with
  | EmptyString => false
  | String c r =>
      bool_decide (c = "010"%char) || bool_decide (c = "013"%char)
      || bool_decide (c = dquote) || bool_decide (c = ","%char)
      || contains_special r
  end.

(** [unicode.IsSpace] of the first rune of a field, read off its UTF-8
    bytes. *)
Definition starts_with_space (field : string) : bool :=
  match field with
  | String c r =>
      if (byte_val c <=? 127)%N
      then ((9 <=? byte_val c) && (byte_val c <=? 13))%N
           || bool_decide (c = " "%char)
      else
        match byte_val c, r with
        | 194%N, String c1 _ =>               (* U+0085, U+00A0 *)
            bool_decide (byte_val c1 = 133%N)
            || bool_decide (byte_val c1 = 160%N)
        | 225%N, String c1 (String c2 _) =>    (* U+1680 *)
            bool_decide (byte_val c1 = 154%N)
            && bool_decide (byte_val c2 = 128%N)
        | 226%N, String c1 (String c2 _) =>    (* U+2000..U+200A, U+2028,
                                                 U+2029, U+202F, U+205F *)
            (bool_decide (byte_val c1 = 128%N)
             && (((128 <=? byte_val c2) && (byte_val c2 <=? 138))%N
                 || bool_decide (byte_val c2 = 168%N)
                 || bool_decide (byte_val c2 = 169%N)
                 || bool_decide (byte_val c2 = 175%N)))
            || (bool_decide (byte_val c1 = 129%N)
                && bool_decide (byte_val c2 = 159%N))
        | 227%N, String c1 (String c2 _) =>    (* U+3000 *)
            bool_decide (byte_val c1 = 128%N)
            && bool_decide (byte_val c2 = 128%N)
        | _, _ => false
        end
  | EmptyString => false
  end.

Definition fieldNeedsQuotes (field : string) : bool :=
  if bool_decide (field = EmptyString) then false
  else if bool_decide (field = "\.") then true
  else contains_special field || starts_with_space field.

(** Inside quotes every quote is doubled; CR and LF are written as they
    are (UseCRLF is off). *)
Fixpoint quote_body (field : string) : string :=
  match field with
  | EmptyString => EmptyString
  | String c r =>
      if bool_decide (c = dquote)
      then String dquote (String dquote (quote_body r))
      else String c (quote_body r)
  end.

Definition csv_field (field : string) : string :=
  if fieldNeedsQuotes field
  then String dquote (quote_body field +:+ String dquote EmptyString)
  else field.

Fixpoint csv_fields (n : nat) (record : list string) : string :=
  match record with
  | [] => EmptyString
  | field :: rest =>
      (if (0 <? n)%nat then "," else EmptyString)
      +:+ csv_field field +:+ csv_fields (S n) rest
  end.

(** [csv.Writer.Write] of one record: what it appends to the buffer. *)
Definition csv_Write (record : list string) : string :=
  csv_fields 0 record +:+ String "010"%char EmptyString.

(** ** The sink and the formatter *)

(** What reaches the [io.Writer], call by call. A table goes through
    tablewriter: the chunk records the header and rows handed to it. JSON
    and YAML go through their encoders: the chunk records what was
    encoded. The writer is an in-memory buffer or stdout; its writes do
    not fail. *)
Inductive Chunk :=
| Text (s : string)
| TableRender (header : list string) (rows : list (list string))
| Encoded (format : string) (data : Data).

Definition FormatTable : string := "table".
Definition FormatJSON : string := "json".
Definition FormatYAML : string := "yaml".
Definition FormatCSV : string := "csv".

Record Formatter := {
  format : string;
  noHeaders : bool }.

(** The order in which [for _, value := range record] visits a map is
    chosen by the Go runtime, anew for every loop. [RangeOrder] is that
    choice: for the [i]-th record of the list, the entries of the map in
    the order visited. *)
Definition RangeOrder := nat -> gmap string Value -> list (string * Value).

Definition valid_range (range : RangeOrder) : Prop :=
  forall i m, range i m ≡ₚ map_to_list m.

(** One data row of [formatCSV]. *)
Definition csv_row (f : Formatter) (range : RangeOrder)
    (headers : list string) (i : nat) (record : gmap string Value)
  : list string :=
  if negb (noHeaders f)
  then map (show_field record) headers
  else map (fun kv => Sprintf_v kv.2) (range i record).

Fixpoint csv_rows (f : Formatter) (range : RangeOrder)
    (headers : list string) (i : nat) (records : list (gmap string Value))
  : list (list string) :=
  match records with
  | [] => []
  | record :: rest =>
      csv_row f range headers i record
      :: csv_rows f range headers (S i) rest
  end.

(** The records [formatCSV] hands to [csv.Writer.Write], in order. *)
Definition csv_written (f : Formatter) (range : RangeOrder)
    (records : list (gmap string Value)) : list (list string) :=
  match records with
  | [] => []
  | first :: _ =>
      let headers :=
        if negb (noHeaders f) then getOrderedHeadersFromRecord first
        else [] in
      (if negb (noHeaders f) then [headers] else [])
      ++ csv_rows f range headers 0 records
  end.

(** The deferred [writer.Flush()]: an empty buffer writes nothing. *)
Definition flush (buffer : string) : list Chunk :=
  if bool_decide (buffer = EmptyString) then [] else [Text buffer].

Definition formatCSV (f : Formatter) (range : RangeOrder) (data : Data)
  : list Chunk * option error :=
  match convertToRecords data with
  | Fail e => ([], Some e)
  | Ok records =>
      (flush (concat_all (map csv_Write (csv_written f range records))),
       None)
  end.

Definition table_headers (u : Unicode) (record : gmap string Value)
  : list string :=
  map (Title u) (getOrderedHeadersFromRecord record).

Definition table_row (u : Unicode) (headers : list string)
    (record : gmap string Value) : list string :=
  map (fun header => show_field record (ToLower u header)) headers.

Definition formatTable (u : Unicode) (f : Formatter) (data : Data)
  : list Chunk * option error :=
  match convertToRecords data with
  | Fail e => ([], Some e)
  | Ok [] => ([Text ("No data found" +:+ String "010"%char EmptyString)],
              None)
  | Ok (first :: rest) =>
      let headers := table_headers u first in
      ([TableRender headers (map (table_row u headers) (first :: rest))],
       None)
  end.

Definition formatJSON (f : Formatter) (data : Data)
  : list Chunk * option error := ([Encoded FormatJSON data], None).

Definition formatYAML (f : Formatter) (data : Data)
  : list Chunk * option error := ([Encoded FormatYAML data], None).

Definition FormatData (u : Unicode) (f : Formatter) (range : RangeOrder)
    (data : Data) : list Chunk * option error :=
  if bool_decide (format f = FormatJSON) then formatJSON f data
  else if bool_decide (format f = FormatYAML) then formatYAML f data
  else if bool_decide (format f = FormatCSV) then formatCSV f range data
  else if bool_decide (format f = FormatTable) then formatTable u f data
  else ([], Some (New ("unsupported format: " +:+ format f))).

(** Two iteration orders used in the examples: the order [map_to_list]
    gives, and its reverse. *)
Definition range_fwd : RangeOrder := fun _ m => map_to_list m.
Definition range_rev : RangeOrder := fun _ m => reverse (map_to_list m).

End Output.

(** * The API methods the commands use (package api) *)

Module Calls.
Import Go Json Config Api Output.

(** What these methods borrow from outside the package: the outcome of
    reading a response body, and [json.Unmarshal] of a body into each of
    the model types. *)
Record Wire := {
  readAll : Response -> option error;
  unmarshalLoginResponse : string -> result LoginResponse;
  unmarshalOrganization : string -> result Organization;
  unmarshalProjects : string -> result (list Project);
  unmarshalProjectMemberships : string -> result (list ProjectMembership);
  unmarshalTenants : string -> result (list Tenant) }.

(** The shape all of them share: [doRequest], then [handleResponse] into
    a variable declared with its zero value, which is returned. *)
Definition request_into {A} (env : Env) (wire : Wire) (c : Client)
    (method path : string) (body : option (result string))
    (unmarshal : string -> result A) (zero : A) (st : State)
  : result A * State :=
  let '(r, st) := doRequest env c method path body st in
  match r with
  | Fail e => (Fail e, st)
  | Ok resp =>
      match handleResponse (readAll wire resp) resp (Some unmarshal) with
      | Fail e => (Fail e, st)
      | Ok decoded => (Ok (default zero decoded), st)
      end
  end.

(** [json.Marshal(models.LoginRequest{Email: email, Password: password})] *)
Definition login_payload (email password : string) : string :=
  compact (TObject [("email", TString (escape email));
                    ("password", TString (escape password))]).

Definition zero_LoginResponse : LoginResponse :=
  {| LR_AccessToken := EmptyString; LR_RefreshToken := EmptyString;
     LR_UserEmail := EmptyString |}.

Definition zero_Organization : Organization :=
  {| Organization_ID := EmptyString; Organization_Name := EmptyString;
     Organization_CreatedAt := EmptyString;
     Organization_UpdatedAt := EmptyString |}.

Definition Login (env : Env) (wire : Wire) (c : Client)
    (email password : string) (st : State) : result LoginResponse * State :=
  request_into env wire c "POST" "/api/v1/user/login"
    (Some (Ok (login_payload email password)))
    (unmarshalLoginResponse wire) zero_LoginResponse st.

Definition GetOrganizationByName (env : Env) (wire : Wire) (c : Client)
    (name : string) (st : State) : result Organization * State :=
  request_into env wire c "GET" ("/api/v1/organizations/by-name/" +:+ name)
    None (unmarshalOrganization wire) zero_Organization st.

Definition ListOrganizationProjects (env : Env) (wire : Wire) (c : Client)
    (orgID : string) (st : State) : result (list Project) * State :=
  request_into env wire c "GET"
    ("/api/v1/organizations/" +:+ orgID +:+ "/projects")
    None (unmarshalProjects wire) [] st.

Definition ListUserProjects (env : Env) (wire : Wire) (c : Client)
    (st : State) : result (list ProjectMembership) * State :=
  request_into env wire c "GET" "/api/v1/projects"
    None (unmarshalProjectMemberships wire) [] st.

Definition ListProjectTenants (env : Env) (wire : Wire) (c : Client)
    (projectID : string) (st : State) : result (list Tenant) * State :=
  request_into env wire c "GET"
    ("/api/v1/projects/" +:+ projectID +:+ "/tenants")
    None (unmarshalTenants wire) [] st.

(** [GetGithubAuthURL] uses a client of its own that does not follow
    redirects: [noFollow] is its answer to a request, the status and the
    Location header. It goes around [doRequest]: no refresh, no debug
    lines, no entry in the request log of the shared client. *)
Definition GetGithubAuthURL (env : Env)
    (noFollow : Request -> result (Z * string)) (c : Client)
    (callbackPort : string) (st : State) : result string :=
  let url :=
    "/api/v1/auth/github?cli=true"
    +:+ (if bool_decide (callbackPort = EmptyString) then EmptyString
         else "&callback_port=" +:+ callbackPort) in
  match newRequestError env "GET" (baseURL c +:+ url) with
  | Some e => Fail (Wrap "failed to create request: " e)
  | None =>
      match noFollow (new_request c (config st) "GET" url None) with
      | Fail e => Fail (Wrap "request failed: " e)
      | Ok (status, location) =>
          if ((status =? 307) || (status =? 302))%Z
             && negb (bool_decide (location = EmptyString))
          then Ok location
          else Fail (New ("failed to get GitHub OAuth URL: status "
                          +:+ FormatInt status))
      end
  end.

End Calls.

(** * The commands (package cmd) *)

Module Cmd.
Import Go Json Config Api Output Calls.

(** ** resolver.go *)

(** The loops [for _, p := range projects { if p.Name == name { return
    p.ID } }]: the ID of the first element with the name. *)
Fixpoint first_named {A} (name_of id_of : A -> string) (name : string)
    (items : list A) : option string :=
  match items with
  | [] => None
  | x :: rest =>
      if bool_decide (name_of x = name) then Some (id_of x)
      else first_named name_of id_of name rest
  end.

Section Resolver.
(** [strconv.Quote], the verb %q of the error messages. *)
Variable quote : string -> string.
Variable env : Env.
Variable wire : Wire.
Variable c : Client.

Definition resolveOrganizationID (name id : string) (st : State)
  : result string * State :=
  if bool_decide (name = EmptyString) && bool_decide (id = EmptyString)
  then (Fail (New "either --name or --id must be provided"), st)
  else if negb (bool_decide (name = EmptyString))
          && negb (bool_decide (id = EmptyString))
  then (Fail (New "only one of --name or --id is allowed"), st)
  else if negb (bool_decide (id = EmptyString)) then (Ok id, st)
  else
    let '(r, st) := GetOrganizationByName env wire c name st in
    match r with
    | Fail e =>
        (Fail (Wrap "failed to resolve organization by name: " e), st)
    | Ok org => (Ok (Organization_ID org), st)
    end.

Definition resolveProjectID (projectName projectID orgID : string)
    (st : State) : result string * State :=
  if bool_decide (projectName = EmptyString)
     && bool_decide (projectID = EmptyString)
  then (Fail (New "either --name or --id must be provided for project"), st)
  else if negb (bool_decide (projectName = EmptyString))
          && negb (bool_decide (projectID = EmptyString))
  then (Fail (New "only one of --name or --id is allowed for project"), st)
  else if negb (bool_decide (projectID = EmptyString))
  then (Ok projectID, st)
  else if negb (bool_decide (orgID = EmptyString)) then
    let '(r, st) := ListOrganizationProjects env wire c orgID st in
    match r with
    | Fail e =>
        (Fail (Wrap "failed to list projects in organization: " e), st)
    | Ok projects =>
        match first_named Project_Name Project_ID projectName projects with
        | Some id => (Ok id, st)
        | None =>
            (Fail (New ("project named " +:+ quote projectName
                        +:+ " not found in organization")), st)
        end
    end
  else
    (* Fallback: search user's projects *)
    let '(r, st) := ListUserProjects env wire c st in
    match r with
    | Fail e => (Fail (Wrap "failed to list user projects: " e), st)
    | Ok memberships =>
        match first_named (fun m => Project_Name (PM_Project m))
                (fun m => Project_ID (PM_Project m)) projectName
                memberships with
        | Some id => (Ok id, st)
        | None =>
            (Fail (New ("project named " +:+ quote projectName
                        +:+ " not found")), st)
        end
    end.

Definition resolveTenantID (tenantName tenantID projectID : string)
    (st : State) : result string * State :=
  if bool_decide (tenantName = EmptyString)
     && bool_decide (tenantID = EmptyString)
  then (Fail (New "either --name or --id must be provided for tenant"), st)
  else if negb (bool_decide (tenantName = EmptyString))
          && negb (bool_decide (tenantID = EmptyString))
  then (Fail (New "only one of --name or --id is allowed for tenant"), st)
  else if negb (bool_decide (tenantID = EmptyString))
  then (Ok tenantID, st)
  else if bool_decide (projectID = EmptyString)
  then (Fail (New "project is required to resolve tenant by name"), st)
  else
    let '(r, st) := ListProjectTenants env wire c projectID st in
    match r with
    | Fail e => (Fail (Wrap "failed to list tenants in project: " e), st)
    | Ok tenants =>
        match first_named Tenant_Name Tenant_ID tenantName tenants with
        | Some id => (Ok id, st)
        | None =>
            (Fail (New ("tenant with name " +:+ quote tenantName
                        +:+ " not found in project")), st)
        end
    end.

End Resolver.

(** ** logout.go *)

(** [cfg] is the configuration the state holds; [out] is what has been
    printed on standard output. *)
Definition runLogout (quiet : bool) (st : State) (out : list string)
  : option error * State * list string :=
  (* Clear authentication tokens *)
  let st := set_config st (ClearAuth (config st)) in
  (* Save updated config *)
  let '(err, st) := save_config st in
  match err with
  | Some e => (Some (Wrap "failed to save config: " e), st, out)
  | None =>
      (None, st,
       if quiet then out else out ++ ["Successfully logged out" +:+ newline])
  end.

(** ** The GitHub login: callback server and flow *)

(** The value sent over the token channel. *)
Record TokenResult := {
  TR_accessToken : string;
  TR_refreshToken : string;
  TR_userEmail : string;
  TR_err : option error }.

Definition failed (e : error) : TokenResult :=
  {| TR_accessToken := EmptyString; TR_refreshToken := EmptyString;
     TR_userEmail := EmptyString; TR_err := Some e |}.

(** What a handler has written to its [http.ResponseWriter]. *)
Record Reply := {
  Reply_Header : gmap string string;
  Reply_Status : Z;
  Reply_Body : string }.

Definition cors : gmap string string :=
  <["Access-Control-Allow-Headers" := "Content-Type"]>
    (<["Access-Control-Allow-Methods" := "POST, OPTIONS"]>
       (<["Access-Control-Allow-Origin" := "*"]> ∅)).

(** What has become of a handler: it has written its reply, or it
    waits in the send on the token channel and has written no status
    yet. *)
Inductive Served :=
| Replied (reply : Reply)
| Waiting.

(** The handler of /callback on one request. [tokenChan] is the one slot
    of the token channel as the handler finds it; the result is what has
    become of the handler and the slot afterwards. A send into the free
    slot goes through and the handler replies. A send that finds the
    slot full waits: the handler goes on only when the flow receives
    from the channel, which it does once. [decode] is
    [json.NewDecoder(r.Body).Decode] into the token response: the access
    token, the refresh token and the user's email. *)
Definition callback (decode : string -> result (string * string * string))
    (method body : string) (tokenChan : option TokenResult)
  : Served * option TokenResult :=
  (* Handle preflight requests *)
  if bool_decide (method = "OPTIONS")
  then (Replied {| Reply_Header := cors; Reply_Status := 200;
                   Reply_Body := EmptyString |}, tokenChan)
  else if negb (bool_decide (method = "POST"))
  then (Replied {| Reply_Header := cors; Reply_Status := 405;
                   Reply_Body := EmptyString |}, tokenChan)
  else
    match decode body with
    | Fail e =>
        match tokenChan with
        | Some _ => (Waiting, tokenChan)
        | None =>
            (Replied {| Reply_Header := cors; Reply_Status := 400;
                        Reply_Body := EmptyString |},
             Some (failed (Wrap "failed to parse token response: " e)))
        end
    | Ok (access, refresh, email) =>
        match tokenChan with
        | Some _ => (Waiting, tokenChan)
        | None =>
            (Replied
               {| Reply_Header :=
                    <["Content-Type" := "application/json"]> cors;
                  Reply_Status := 200;
                  Reply_Body :=
                    compact (TObject [("status", TString "success")])
                    +:+ newline |},
             Some {| TR_accessToken := access; TR_refreshToken := refresh;
                     TR_userEmail := email; TR_err := None |})
        end
    end.

(** What the flow does that can be seen from outside, in order. *)
Inductive Event :=
| Listen (port : string)      (* net.Listen("tcp", ":"+port) *)
| Serve                       (* go server.Serve(listener) *)
| Browser (url : string)      (* openBrowser(url) *)
| Print (text : string)       (* standard output *)
| Shutdown.                   (* server.Shutdown(ctx) *)

(** The machine the flow runs on: the error of binding a port, if any;
    the answer of the backend to the request of [GetGithubAuthURL]; the
    error of starting the browser; and [arrival], the first value the
    goroutines of the callback server send on the token channel within
    the five minutes the flow waits, if there is one. *)
Record Desktop := {
  listen : string -> option error;
  noFollow : Request -> result (Z * string);
  openBrowser : string -> option error;
  arrival : option TokenResult }.

(** [startCallbackServer]: whether a server is returned (nil when the
    port cannot be bound), and what the call itself has put into the
    channel, whose buffer holds one value. *)
Definition startCallbackServer (d : Desktop) (port : string)
  : bool * list TokenResult * list Event :=
  match listen d port with
  | Some e =>
      (false, [failed (Wrap "failed to start callback server: " e)],
       [Listen port])
  | None => (true, [], [Listen port; Serve])
  end.

Definition runGithubLogin (env : Env) (d : Desktop) (debug quiet : bool)
    (githubCallbackPort : string) (st : State)
  : option error * State * list Event :=
  (* Create API client *)
  let client := {| baseURL := APIURL (config st); debug := debug |} in
  (* Start callback server *)
  let '(server, tokenChan, events) :=
    startCallbackServer d githubCallbackPort in
  (* Get GitHub OAuth URL *)
  match GetGithubAuthURL env (noFollow d) client githubCallbackPort st with
  | Fail e => (Some (Wrap "failed to get GitHub auth URL: " e), st, events)
  | Ok authURL =>
      (* Open browser *)
      let events :=
        events
        ++ [Browser authURL;
            Print (match openBrowser d authURL with
                   | Some _ =>
                       "Please open this URL in your browser:" +:+ newline
                       +:+ authURL +:+ newline
                   | None =>
                       "Opening browser for GitHub authentication..."
                       +:+ newline
                   end);
            Print ("Waiting for GitHub authentication..." +:+ newline)] in
      (* Wait for callback *)
      let received :=
        match tokenChan with
        | result :: _ => Some result
        | [] => if server then arrival d else None
        end in
      let events := if server then events ++ [Shutdown] else events in
      match received with
      | None =>
          (Some (New "authentication timeout - please try again"), st,
           events)
      | Some result =>
          match TR_err result with
          | Some e => (Some (Wrap "GitHub login failed: " e), st, events)
          | None =>
              (* Update config with tokens *)
              let st :=
                set_config st
                  (UpdateTokens (config st) (TR_accessToken result)
                     (TR_refreshToken result) (TR_userEmail result)) in
              (* Save config *)
              let '(err, st) := save_config st in
              match err with
              | Some e =>
                  (Some (Wrap "failed to save config: " e), st, events)
              | None =>
                  (None, st,
                   if quiet then events
                   else events
                        ++ [Print ("Successfully logged in as "
                                   +:+ TR_userEmail result
                                   +:+ " via GitHub" +:+ newline)])
              end
          end
      end
  end.

(** ** login.go *)

(** The flags, and what the prompts read when a flag is empty:
    [promptEmail] is [reader.ReadString] on standard input,
    [promptPassword] is [term.ReadPassword]; [trimSpace] is
    [strings.TrimSpace]. *)
Record LoginInput := {
  loginEmail : string;
  loginPassword : string;
  loginGithub : bool;
  loginCallbackPort : string;
  promptEmail : result string;
  promptPassword : result string;
  trimSpace : string -> string }.

Definition runLogin (env : Env) (wire : Wire) (d : Desktop)
    (debug quiet : bool) (input : LoginInput) (st : State)
  : option error * State * list Event :=
  (* If --github flag is set, use GitHub OAuth *)
  if loginGithub input
  then runGithubLogin env d debug quiet (loginCallbackPort input) st
  else
    (* Get email if not provided *)
    let events :=
      if bool_decide (loginEmail input = EmptyString)
      then [Print "Email: "] else [] in
    let email :=
      if bool_decide (loginEmail input = EmptyString) then
        match promptEmail input with
        | Fail e => Fail (Wrap "failed to read email: " e)
        | Ok email => Ok (trimSpace input email)
        end
      else Ok (loginEmail input) in
    match email with
    | Fail e => (Some e, st, events)
    | Ok email =>
        (* Get password if not provided *)
        let password :=
          if bool_decide (loginPassword input = EmptyString)
          then (promptPassword input, events ++ [Print "Password: "])
          else (Ok (loginPassword input), events) in
        match password with
        | (Fail e, events) =>
            (Some (Wrap "failed to read password: " e), st, events)
        | (Ok password, events) =>
            let events :=
              if bool_decide (loginPassword input = EmptyString)
              then events ++ [Print newline] else events in
            (* Create API client *)
            let client :=
              {| baseURL := APIURL (config st); debug := debug |} in
            (* Attempt login *)
            let '(r, st) := Login env wire client email password st in
            match r with
            | Fail e => (Some (Wrap "login failed: " e), st, events)
            | Ok loginResp =>
                (* Update config with tokens *)
                let st :=
                  set_config st
                    (UpdateTokens (config st) (LR_AccessToken loginResp)
                       (LR_RefreshToken loginResp)
                       (LR_UserEmail loginResp)) in
                (* Save config *)
                let '(err, st) := save_config st in
                match err with
                | Some e =>
                    (Some (Wrap "failed to save config: " e), st, events)
                | None =>
                    (None, st,
                     if quiet then events
                     else events
                          ++ [Print ("Successfully logged in as "
                                     +:+ LR_UserEmail loginResp
                                     +:+ newline)])
                end
            end
        end
    end.

End Cmd.

(* ===================================================================== *)
(** * Theorems: output formatter                                          *)
(* ===================================================================== *)

Section FormatterFacts.
Import Go Strings Output.

(** Sorting forgets the order the keys were collected in. *)
Lemma sort_Strings_perm (l1 l2 : list string) :
  l1 ≡ₚ l2 -> sort_Strings l1 = sort_Strings l2.
Proof.
  intros Hp. unfold sort_Strings.
  apply (Sorted_unique String.le).
  - apply Sorted_merge_sort; apply _.
  - apply Sorted_merge_sort; apply _.
  - rewrite !merge_sort_Permutation. exact Hp.
Qed.

Lemma hasKeys_true (m : gmap string Value) (keys : list string) :
  hasKeys m keys = true <-> forall k, k ∈ keys -> k ∈ dom m.
Proof.
  unfold hasKeys. rewrite forallb_forall. split.
  - intros H k Hk. apply elem_of_dom.
    apply list_elem_of_In in Hk. specialize (H k Hk).
    by apply bool_decide_eq_true in H.
  - intros H k Hk. apply bool_decide_eq_true, elem_of_dom, H.
    by apply list_elem_of_In.
Qed.

Lemma organization_shape_headers (record : gmap string Value) :
  hasKeys record organization_order = true ->
  getOrderedHeadersFromRecord record = organization_order.
Proof. intros H. unfold getOrderedHeadersFromRecord. by rewrite H. Qed.

Lemma curated_headers_of_dom (record : gmap string Value) :
  dom record = ({[ "organization"; "role"; "is_default" ]} : gset string) ->
  hasKeys record organization_order = true.
Proof.
  intros Hd. apply hasKeys_true. intros k Hk. rewrite Hd.
  unfold organization_order in Hk.
  rewrite !elem_of_cons, elem_of_nil in Hk.
  rewrite !elem_of_union, !elem_of_singleton. tauto.
Qed.

Lemma csv_rows_with_headers (f : Formatter) (range : RangeOrder)
    (headers : list string) (i : nat) (records : list (gmap string Value)) :
  noHeaders f = false ->
  csv_rows f range headers i records
  = map (fun r => map (show_field r) headers) records.
Proof.
  intros Hn. revert i. induction records as [|r rs IH]; intros i; simpl.
  - reflexivity.
  - rewrite IH. unfold csv_row. by rewrite Hn.
Qed.

Lemma csv_written_with_headers (f : Formatter) (range : RangeOrder)
    (record : gmap string Value) (rest : list (gmap string Value)) :
  noHeaders f = false ->
  csv_written f range (record :: rest)
  = getOrderedHeadersFromRecord record
    :: map (fun r => map (show_field r) (getOrderedHeadersFromRecord record))
         (record :: rest).
Proof.
  intros Hn. unfold csv_written. rewrite Hn. simpl negb. cbv iota.
  by rewrite csv_rows_with_headers.
Qed.

(** With headers enabled the CSV output does not depend on the order in
    which the runtime iterates maps. *)
Lemma formatCSV_with_headers_deterministic (f : Formatter)
    (range1 range2 : RangeOrder) (data : Data) :
  noHeaders f = false ->
  formatCSV f range1 data = formatCSV f range2 data.
Proof.
  intros Hn. unfold formatCSV.
  destruct (convertToRecords data) as [[|r rs]|e]; try reflexivity.
  by rewrite !csv_written_with_headers.
Qed.

Lemma csv_Write_not_empty (row : list string) (rest : string) :
  csv_Write row +:+ rest <> EmptyString.
Proof.
  unfold csv_Write. destruct (csv_fields 0 row); discriminate.
Qed.

Lemma formatCSV_first_line (f : Formatter) (range : RangeOrder) (data : Data)
    (record : gmap string Value) (rest : list (gmap string Value)) :
  convertToRecords data = Ok (record :: rest) ->
  noHeaders f = false ->
  formatCSV f range data
  = ([Text (csv_Write (getOrderedHeadersFromRecord record)
            +:+ concat_all
                  (map csv_Write
                     (map (fun r => map (show_field r)
                                      (getOrderedHeadersFromRecord record))
                        (record :: rest))))], None).
Proof.
  intros Hc Hn. unfold formatCSV. rewrite Hc.
  rewrite csv_written_with_headers by done.
  unfold flush. cbn [map concat_all foldr].
  rewrite bool_decide_eq_false_2; [done|]. apply csv_Write_not_empty.
Qed.

(** No curated order applies: none of the four key tests of
    [getOrderedHeadersFromRecord] succeeds. *)
Definition curated_shape (record : gmap string Value) : bool :=
  hasKeys record organization_order || hasKeys record location_order
  || hasKeys record version_order || hasKeys record tenant_order.

Lemma fallback_headers (record : gmap string Value) :
  curated_shape record = false ->
  getOrderedHeadersFromRecord record = sort_Strings (keys_of record).
Proof.
  unfold curated_shape, getOrderedHeadersFromRecord. intros H.
  repeat (apply orb_false_elim in H as [H ?]).
  by repeat match goal with Hk : hasKeys _ _ = false |- _ =>
              rewrite Hk; clear Hk end.
Qed.

Lemma sorted_keys_spec (record : gmap string Value) :
  let hs := sort_Strings (keys_of record) in
  Sorted String.le hs /\ NoDup hs /\ (forall k, k ∈ hs <-> k ∈ dom record).
Proof.
  cbn zeta. unfold sort_Strings, keys_of. split; [|split].
  - apply Sorted_merge_sort; apply _.
  - rewrite merge_sort_Permutation. apply NoDup_fst_map_to_list.
  - intros k. rewrite merge_sort_Permutation, elem_of_dom.
    rewrite list_elem_of_fmap. split.
    + intros [[k' v] [-> Hkv]]. apply elem_of_map_to_list in Hkv. eauto.
    + intros [v Hv]. exists (k, v). split; [done|].
      by apply elem_of_map_to_list.
Qed.

Definition org_headers : list string := ["organization"; "role"; "is_default"].
Definition org_table_headers : list string :=
  ["Organization"; "Role"; "Is_default"].

(** The three cells of a row under the organization-membership order. *)
Definition org_cells (r : gmap string Value) : list string :=
  [show_field r "organization"; show_field r "role";
   show_field r "is_default"].

Lemma org_table_header (u : Unicode) :
  map (Title u) org_headers = org_table_headers.
Proof. reflexivity. Qed.

Lemma org_table_rows (u : Unicode) (records : list (gmap string Value)) :
  map (table_row u org_table_headers) records = map org_cells records.
Proof. reflexivity. Qed.

(** C7. An empty list rendered as a table writes exactly the line
    No data found (with its newline) and reports no error; rendered as
    CSV it writes nothing, header row included, and reports no error. *)
Theorem empty_list_table_placeholder_csv_nothing
    (u : Unicode) (nh : bool) (range : RangeOrder) :
  FormatData u {| format := FormatTable; noHeaders := nh |} range (DSlice [])
    = ([Text ("No data found" +:+ newline)], None)
  /\ FormatData u {| format := FormatCSV; noHeaders := nh |} range
       (DSlice [])
    = ([], None).
Proof. split; reflexivity. Qed.

(** Same for any input that yields no record (a slice of nil pointers to
    curated model types). *)
Lemma no_record_table_placeholder_csv_nothing
    (u : Unicode) (f : Formatter) (range : RangeOrder) (data : Data) :
  convertToRecords data = Ok [] ->
  formatTable u f data = ([Text ("No data found" +:+ newline)], None)
  /\ formatCSV f range data = ([], None).
Proof.
  intros H. unfold formatTable, formatCSV. rewrite H. split; reflexivity.
Qed.

(** C6. A first record whose key set is exactly organization, role,
    is_default gives the table the header Organization, Role, Is_default
    and the CSV output (headers enabled) the first line
    organization,role,is_default: the literal order, which is not the
    alphabetical one. A first record that passes none of the curated key
    tests gives its keys sorted in ascending byte order, each once. *)
Theorem header_order_curated_then_alphabetical
    (u : Unicode) (f : Formatter) (range : RangeOrder) (data : Data)
    (record : gmap string Value) (rest : list (gmap string Value)) :
  convertToRecords data = Ok (record :: rest) ->
  (dom record = ({[ "organization"; "role"; "is_default" ]} : gset string) ->
     getOrderedHeadersFromRecord record = org_headers
     /\ formatTable u f data
        = ([TableRender org_table_headers
              (map org_cells (record :: rest))], None)
     /\ (noHeaders f = false ->
         exists body,
           formatCSV f range data
           = ([Text ("organization,role,is_default" +:+ newline +:+ body)],
              None))
     /\ ~ Sorted String.le org_headers)
  /\ (curated_shape record = false ->
      let hs := getOrderedHeadersFromRecord record in
      Sorted String.le hs /\ NoDup hs
      /\ (forall k, k ∈ hs <-> k ∈ dom record)
      /\ formatTable u f data
         = ([TableRender (map (Title u) hs)
               (map (table_row u (map (Title u) hs)) (record :: rest))],
            None)
      /\ (noHeaders f = false ->
          exists body,
            formatCSV f range data
            = ([Text (csv_Write hs +:+ body)], None))).
Proof.
  intros Hc. split.
  - intros Hd. pose proof (curated_headers_of_dom _ Hd) as Hk.
    pose proof (organization_shape_headers _ Hk) as Hh.
    split; [exact Hh|]. split; [|split].
    + unfold formatTable. rewrite Hc. unfold table_headers. rewrite Hh.
      reflexivity.
    + intros Hn. eexists.
      rewrite (formatCSV_first_line f range data record rest Hc Hn).
      rewrite Hh. reflexivity.
    + intros Hs. apply Sorted_StronglySorted in Hs; [|apply _].
      apply StronglySorted_inv in Hs as [_ Hall].
      apply Forall_inv_tail, Forall_inv in Hall.
      vm_compute in Hall. exact Hall.
  - intros Hn. cbn zeta. rewrite (fallback_headers _ Hn).
    destruct (sorted_keys_spec record) as (Hs & Hnd & Hel).
    split; [exact Hs|]. split; [exact Hnd|]. split; [exact Hel|]. split.
    + unfold formatTable. rewrite Hc. unfold table_headers.
      rewrite (fallback_headers _ Hn). reflexivity.
    + intros Hh. eexists.
      rewrite (formatCSV_first_line f range data record rest Hc Hh).
      rewrite (fallback_headers _ Hn). reflexivity.
Qed.

Definition org_record : gmap string Value :=
  list_to_map [("role", VString "admin");
               ("organization", VString "kubespaces");
               ("is_default", VBool true)].

Definition ab_record : gmap string Value :=
  list_to_map [("b", VInt 2); ("a", VInt 1)].

Definition csv_on : Formatter := {| format := FormatCSV; noHeaders := false |}.
Definition csv_off : Formatter := {| format := FormatCSV; noHeaders := true |}.

Lemma header_order_curated_then_alphabetical_witness :
  (getOrderedHeadersFromRecord org_record = org_headers
   /\ formatTable latin1 csv_on (DSlice [IMap org_record])
      = ([TableRender org_table_headers [["kubespaces"; "admin"; "true"]]],
         None))
  /\ getOrderedHeadersFromRecord ab_record = ["a"; "b"].
Proof.
  split.
  - destruct (header_order_curated_then_alphabetical latin1 csv_on range_fwd
                (DSlice [IMap org_record]) org_record [] eq_refl)
      as [Hcur _].
    destruct Hcur as (H1 & H2 & _); [by vm_compute|].
    split; [exact H1 | exact H2].
  - destruct (header_order_curated_then_alphabetical latin1 csv_on range_fwd
                (DSlice [IMap ab_record]) ab_record [] eq_refl)
      as [_ Hfb].
    destruct Hfb as (_ & _ & _ & _ & _); [by vm_compute|].
    by vm_compute.
Defined.

(** X28. A first record that holds the keys organization, role and
    is_default, whatever else it holds, gives the table and the CSV
    output with headers enabled exactly those three columns: the header
    and, for every record of the list, the three cells of those keys. No
    other key of any record is rendered there. *)
Theorem curated_dispatch_by_key_presence
    (u : Unicode) (f : Formatter) (range : RangeOrder) (data : Data)
    (record : gmap string Value) (rest : list (gmap string Value)) :
  convertToRecords data = Ok (record :: rest) ->
  ({[ "organization"; "role"; "is_default" ]} : gset string) ⊆ dom record ->
  formatTable u f data
  = ([TableRender org_table_headers (map org_cells (record :: rest))], None)
  /\ (noHeaders f = false ->
      csv_written f range (record :: rest)
      = org_headers :: map org_cells (record :: rest)).
Proof.
  intros Hc Hsub.
  assert (hasKeys record organization_order = true) as Hk.
  { apply hasKeys_true. intros k Hk. apply Hsub.
    unfold organization_order in Hk.
    rewrite !elem_of_cons, elem_of_nil in Hk.
    rewrite !elem_of_union, !elem_of_singleton. tauto. }
  pose proof (organization_shape_headers _ Hk) as Hh. split.
  - unfold formatTable. rewrite Hc. unfold table_headers. rewrite Hh.
    reflexivity.
  - intros Hn. rewrite csv_written_with_headers by done. rewrite Hh.
    reflexivity.
Qed.

Definition org_record_with_id : gmap string Value :=
  <["id" := VString "7"]> org_record.

Lemma curated_dispatch_by_key_presence_witness :
  formatTable latin1 csv_on (DSlice [IMap org_record_with_id])
  = ([TableRender org_table_headers [["kubespaces"; "admin"; "true"]]], None)
  /\ csv_written csv_on range_fwd [org_record_with_id]
     = [org_headers; ["kubespaces"; "admin"; "true"]].
Proof.
  destruct (curated_dispatch_by_key_presence latin1 csv_on range_fwd
              (DSlice [IMap org_record_with_id]) org_record_with_id []
              eq_refl) as [H1 H2].
  - apply (bool_decide_unpack _). by vm_compute.
  - split; [exact H1 | exact (H2 eq_refl)].
Defined.

(** C10, at the failing input. The one-record list whose record holds
    organization, role, is_default and the additional key id: the table
    and the CSV output with headers enabled show the three curated
    columns and drop id, but CSV rendering with headers suppressed, whose
    rows come from ranging over the record and not from the curated
    headers, writes one cell per key, the value of id included. *)
Theorem csv_without_headers_keeps_additional_keys :
  ({[ "organization"; "role"; "is_default" ]} : gset string)
    ⊆ dom org_record_with_id
  /\ valid_range range_fwd
  /\ FormatData latin1 {| format := FormatTable; noHeaders := true |}
       range_fwd (DSlice [IMap org_record_with_id])
     = ([TableRender org_table_headers [["kubespaces"; "admin"; "true"]]],
        None)
  /\ FormatData latin1 csv_on range_fwd (DSlice [IMap org_record_with_id])
     = ([Text ("organization,role,is_default" +:+ newline
               +:+ "kubespaces,admin,true" +:+ newline)], None)
  /\ csv_written csv_off range_fwd [org_record_with_id]
     = [["kubespaces"; "true"; "7"; "admin"]]
  /\ FormatData latin1 csv_off range_fwd (DSlice [IMap org_record_with_id])
     = ([Text ("kubespaces,true,7,admin" +:+ newline)], None).
Proof.
  split; [apply (bool_decide_unpack _); by vm_compute|].
  split; [by intros i m|]. repeat split; by vm_compute.
Qed.

(** Under any iteration order the row without headers has as many cells
    as the record has keys. *)
Lemma csv_row_without_headers_length (f : Formatter) (range : RangeOrder)
    (headers : list string) (i : nat) (record : gmap string Value) :
  valid_range range -> noHeaders f = true ->
  length (csv_row f range headers i record) = size record.
Proof.
  intros Hv Hn. unfold csv_row. rewrite Hn. simpl.
  rewrite length_map, (Hv i record). apply length_map_to_list.
Qed.

(** C4, at the failing input. CSV rendering with headers suppressed of the
    one-record list with keys a and b: under one iteration order of the Go
    map the output is the line 1,2 and under another it is 2,1, so two
    renderings of the same input can differ; and within one pass two equal
    records can come out in different column orders. *)
Theorem csv_without_headers_follows_map_iteration_order :
  valid_range range_fwd /\ valid_range range_rev
  /\ formatCSV csv_off range_fwd (DSlice [IMap ab_record])
     = ([Text ("1,2" +:+ newline)], None)
  /\ formatCSV csv_off range_rev (DSlice [IMap ab_record])
     = ([Text ("2,1" +:+ newline)], None)
  /\ (let alternate : RangeOrder :=
        fun i m => if Nat.even i then map_to_list m
                   else reverse (map_to_list m) in
      valid_range alternate
      /\ csv_written csv_off alternate [ab_record; ab_record]
         = [["1"; "2"]; ["2"; "1"]]).
Proof.
  split; [by intros i m|].
  split; [intros i m; apply reverse_Permutation|].
  split; [by vm_compute|]. split; [by vm_compute|].
  cbn zeta. split; [|by vm_compute].
  intros i m. destruct (Nat.even i); [done | apply reverse_Permutation].
Qed.

End FormatterFacts.

(* ===================================================================== *)
(** * Theorems: authenticated transport                                   *)
(* ===================================================================== *)

Section TransportFacts.
Import Go Json Config Api.

Lemma log_config (c : Client) (line : string) (st : State) :
  config (log c line st) = config st.
Proof. unfold log. by destruct (debug c). Qed.

Lemma log_fs (c : Client) (line : string) (st : State) :
  fs (log c line st) = fs st.
Proof. unfold log. by destruct (debug c). Qed.

Lemma log_calls (c : Client) (line : string) (st : State) :
  calls (log c line st) = calls st.
Proof. unfold log. by destruct (debug c). Qed.

(** The state in which [doRequest] hands its request to the HTTP client:
    the debug lines written, nothing else changed. *)
Definition before_send (u : Strings.Unicode) (c : Client)
    (method path : string) (jsonBody : option string) (st : State) : State :=
  let st := log c ("[spacectl] -> " +:+ method +:+ " "
                   +:+ baseURL c +:+ path +:+ newline) st in
  match jsonBody with
  | Some b =>
      if bool_decide (b = EmptyString) then st
      else log c ("[spacectl]    body: " +:+ redactSensitiveJSON u b
                  +:+ newline) st
  | None => st
  end.

(** The state in which the first response has arrived. *)
Definition after_send (env : Env) (c : Client) (method path : string)
    (jsonBody : option string) (st : State) : State :=
  (Do env (new_request c (config st) method path jsonBody)
     (before_send (unicode env) c method path jsonBody st)).2.

Lemma before_send_same (env : Env) (c : Client) (method path : string)
    (jsonBody : option string) (st : State) :
  config (before_send (unicode env) c method path jsonBody st) = config st
  /\ fs (before_send (unicode env) c method path jsonBody st) = fs st
  /\ calls (before_send (unicode env) c method path jsonBody st) = calls st.
Proof.
  unfold before_send. destruct jsonBody as [b|].
  - destruct (bool_decide (b = EmptyString));
      rewrite ?log_config, ?log_fs, ?log_calls; done.
  - rewrite ?log_config, ?log_fs, ?log_calls; done.
Qed.

Lemma after_send_same (env : Env) (c : Client) (method path : string)
    (jsonBody : option string) (st : State) :
  config (after_send env c method path jsonBody st) = config st
  /\ fs (after_send env c method path jsonBody st) = fs st
  /\ calls (after_send env c method path jsonBody st)
     = calls st ++ [new_request c (config st) method path jsonBody].
Proof.
  destruct (before_send_same env c method path jsonBody st) as (Hc & Hf & Hl).
  unfold after_send, Do. simpl. by rewrite Hc, Hf, Hl.
Qed.

(** [doRequest] up to the first response. *)
Lemma doRequest_first_response (env : Env) (c : Client)
    (method path : string) (jsonBody : option string) (st : State)
    (resp : Response) :
  newRequestError env method (baseURL c +:+ path) = None ->
  roundTrip env (calls st) (new_request c (config st) method path jsonBody)
  = Ok resp ->
  doRequest env c method path (Ok <$> jsonBody) st
  = let st1 := after_send env c method path jsonBody st in
    let done (resp : Response) (st : State) :=
      (Ok resp,
       log c ("[spacectl] <- " +:+ method +:+ " " +:+ baseURL c
              +:+ path +:+ " : " +:+ FormatInt (StatusCode resp)
              +:+ newline) st) in
    if (StatusCode resp =? StatusUnauthorized)%Z
       && negb (bool_decide (RefreshToken (config st1) = EmptyString))
    then
      let '(err, st2) := refreshToken env c st1 in
      match err with
      | Some e => (Fail (Wrap "authentication failed: " e), st2)
      | None =>
          let req :=
            with_authorization
              (after_Do (new_request c (config st) method path jsonBody))
              (bearer (AccessToken (config st2))) in
          let '(r, st3) := Do env req st2 in
          match r with
          | Fail e => (Fail (Wrap "retry request failed: " e), st3)
          | Ok resp => done resp st3
          end
      end
    else done resp st1.
Proof.
  intros Hnew Hrt.
  destruct (before_send_same env c method path jsonBody st) as (Hc & Hf & Hl).
  unfold doRequest, after_send.
  assert (match Ok <$> jsonBody with
          | Some (Ok b) => Some b
          | _ => None
          end = jsonBody) as Hb by (by destruct jsonBody).
  destruct jsonBody as [b|]; simpl in *; rewrite Hnew;
    unfold Do; rewrite Hl, Hrt; reflexivity.
Qed.

(** C9. A 401 response while no refresh token is stored: [doRequest]
    returns that response with a nil error, has made one request and no
    refresh request, and leaves the credentials and the file as they
    were. *)
Theorem unauthorized_without_refresh_token_is_returned
    (env : Env) (c : Client) (method path : string)
    (jsonBody : option string) (st : State) (resp : Response) :
  newRequestError env method (baseURL c +:+ path) = None ->
  roundTrip env (calls st) (new_request c (config st) method path jsonBody)
  = Ok resp ->
  StatusCode resp = StatusUnauthorized ->
  RefreshToken (config st) = EmptyString ->
  exists st',
    doRequest env c method path (Ok <$> jsonBody) st = (Ok resp, st')
    /\ config st' = config st
    /\ fs st' = fs st
    /\ calls st'
       = calls st ++ [new_request c (config st) method path jsonBody].
Proof.
  intros Hnew Hrt H401 Hempty.
  rewrite (doRequest_first_response env c method path jsonBody st resp)
    by done.
  destruct (after_send_same env c method path jsonBody st) as (Hc & Hf & Hl).
  cbn zeta. rewrite Hc, Hempty.
  rewrite bool_decide_eq_true_2 by done. rewrite andb_false_r.
  eexists. split; [reflexivity|].
  by rewrite log_config, log_fs, log_calls.
Qed.

(** What a refresh cycle that returns nil has done: one POST of the
    stored refresh token to the refresh endpoint, answered with 200 and a
    body that decodes; the tokens of the answer stored and saved. *)
Lemma refreshToken_success (env : Env) (c : Client) (st st2 : State) :
  refreshToken env c st = (None, st2) ->
  exists resp loginResp,
    roundTrip env (calls st) (refresh_request c (RefreshToken (config st)))
    = Ok resp
    /\ StatusCode resp = 200%Z
    /\ decodeLoginResponse env (ResponseBody resp) = Ok loginResp
    /\ config st2
       = UpdateTokens (config st) (LR_AccessToken loginResp)
           (LR_RefreshToken loginResp) (LR_UserEmail loginResp)
    /\ calls st2
       = calls st ++ [refresh_request c (RefreshToken (config st))]
    /\ file (fs st2) = Some (MarshalIndent (config st2)).
Proof.
  unfold refreshToken, log, Do, save_config, Save, set_config, set_fs.
  destruct (debug c); cbn [config fs calls stderr].
  all: destruct (newRequestError env "POST" (refresh_url c));
    [discriminate|].
  all: destruct (roundTrip env (calls st) _) as [resp|e] eqn:Hrt;
    [|discriminate].
  all: cbn [config fs calls stderr].
  all: destruct (negb (StatusCode resp =? 200)%Z) eqn:Hs;
    [destruct (mkdir_error (fs st)); [discriminate|];
     destruct (write_error (fs st)) as [[? | ? ?]|]; discriminate|].
  all: apply negb_false_iff, Z.eqb_eq in Hs.
  all: destruct (decodeLoginResponse env (ResponseBody resp))
    as [lr|e] eqn:Hd; [|discriminate].
  all: cbn [config fs calls stderr].
  all: destruct (mkdir_error (fs st)); [discriminate|].
  all: destruct (write_error (fs st)) as [[? | ? ?]|]; try discriminate.
  all: intros [= <-]; exists resp, lr;
    cbn [config fs calls stderr with_file file]; repeat split; done.
Qed.

(** C1. The first response is a 401, a refresh token is stored and the
    refresh cycle returns nil. Then [doRequest] hands exactly three
    requests to the HTTP client: the original one, the refresh request, and
    the original request value again with the Authorization header set
    to Bearer and the access token the refresh answer carried. That third
    request has the method, the URL and the declared body of the first,
    but a body reader the first call has spent: only a request without a
    body is sent again as it was. Whatever the HTTP client makes of the
    third request is what [doRequest] returns, a response (a second 401
    included) with a nil error, or its error as retry request failed: no
    further request is made. *)
Theorem unauthorized_then_refresh_resends_the_spent_request
    (env : Env) (c : Client) (method path : string)
    (jsonBody : option string) (st st2 : State) (resp : Response) :
  let req := new_request c (config st) method path jsonBody in
  newRequestError env method (baseURL c +:+ path) = None ->
  roundTrip env (calls st) req = Ok resp ->
  StatusCode resp = StatusUnauthorized ->
  RefreshToken (config st) <> EmptyString ->
  refreshToken env c (after_send env c method path jsonBody st)
  = (None, st2) ->
  let retry :=
    with_authorization (after_Do req) (bearer (AccessToken (config st2))) in
  (exists answer loginResp,
     roundTrip env (calls st ++ [req])
       (refresh_request c (RefreshToken (config st))) = Ok answer
     /\ decodeLoginResponse env (ResponseBody answer) = Ok loginResp
     /\ AccessToken (config st2) = LR_AccessToken loginResp)
  /\ Header retry !! "Authorization"
     = Some (bearer (AccessToken (config st2)))
  /\ (Method retry, URL retry, Body retry) = (Method req, URL req, Body req)
  /\ Spent req = false
  /\ Spent retry = match jsonBody with Some _ => true | None => false end
  /\ exists st3,
       doRequest env c method path (Ok <$> jsonBody) st
       = (match
            roundTrip env
              (calls st
               ++ [req; refresh_request c (RefreshToken (config st))])
              retry
          with
          | Ok resp2 => Ok resp2
          | Fail e => Fail (Wrap "retry request failed: " e)
          end, st3)
       /\ calls st3
          = calls st
            ++ [req; refresh_request c (RefreshToken (config st)); retry]
       /\ config st3 = config st2.
Proof.
  intros req Hnew Hrt H401 Htok Href retry.
  destruct (after_send_same env c method path jsonBody st) as (Hc & Hf & Hl).
  destruct (refreshToken_success env c _ st2 Href)
    as (answer & lr & Ha & _ & Hd & Hcfg & Hcalls & _).
  rewrite Hc, Hl in Ha. rewrite Hc in Hcfg. rewrite Hc, Hl in Hcalls.
  fold req in Ha, Hcalls.
  split; [|split; [|split; [|split; [|split]]]].
  - exists answer, lr. split; [exact Ha|]. split; [exact Hd|].
    by rewrite Hcfg.
  - unfold retry, with_authorization. simpl. apply lookup_insert_eq.
  - reflexivity.
  - reflexivity.
  - unfold retry, with_authorization, after_Do, req. cbn [Spent Body
      new_request]. by destruct jsonBody.
  - rewrite (doRequest_first_response env c method path jsonBody st resp)
      by done.
    cbn zeta. rewrite Hc, H401, Z.eqb_refl.
    rewrite bool_decide_eq_false_2 by done. simpl andb. cbv iota.
    rewrite Href. fold req. fold retry. unfold Do.
    rewrite Hcalls, <- app_assoc. simpl app.
    destruct (roundTrip env _ retry) as [resp2|e].
    + eexists. split; [reflexivity|]. rewrite log_calls, log_config. simpl.
      split; [|done]. by rewrite <- app_assoc.
    + eexists. split; [reflexivity|]. simpl.
      split; [|done]. by rewrite <- app_assoc.
Qed.

(** C2, as amended. The refresh endpoint answers with a status other than
    200. Then the refresh cycle returns the error that tells the user to
    log in again; the access token, refresh token and user email in
    memory are empty, so IsAuthenticated is false; the save of the cleared
    credentials is attempted and its error dropped: the file system is
    what that save left, whether it failed or not, and when the save
    succeeds the file holds the cleared credentials. *)
Theorem refresh_rejected_clears_credentials
    (env : Env) (c : Client) (st : State) (resp : Response) :
  newRequestError env "POST" (refresh_url c) = None ->
  roundTrip env (calls st) (refresh_request c (RefreshToken (config st)))
  = Ok resp ->
  StatusCode resp <> 200%Z ->
  exists st2,
    refreshToken env c st = (Some (session_expired (StatusCode resp)), st2)
    /\ config st2 = ClearAuth (config st)
    /\ (AccessToken (config st2), RefreshToken (config st2),
        UserEmail (config st2)) = (EmptyString, EmptyString, EmptyString)
    /\ IsAuthenticated st2 = false
    /\ fs st2 = (Save (ClearAuth (config st)) (fs st)).2
    /\ ((Save (ClearAuth (config st)) (fs st)).1 = None ->
        file (fs st2) = Some (MarshalIndent (ClearAuth (config st)))).
Proof.
  intros Hnew Hrt Hs.
  unfold refreshToken, log, Do, save_config, set_config, set_fs.
  destruct (debug c); cbn [config fs calls stderr].
  all: rewrite Hnew, Hrt; cbn [config fs calls stderr].
  all: rewrite (proj2 (Z.eqb_neq _ _) Hs); simpl negb; cbv iota.
  all: destruct (Save (ClearAuth (config st)) (fs st)) as [err fs'] eqn:Hsave.
  all: eexists; split; [reflexivity|]; cbn [config fs calls stderr fst snd].
  all: repeat split; try done.
  all: intros ->; revert Hsave; unfold Save.
  all: destruct (mkdir_error (fs st)); [discriminate|].
  all: destruct (write_error (fs st)) as [[e|e n]|]; try discriminate.
  all: by intros [= <-].
Qed.

(** ** A concrete environment for the examples *)

(** A remote end that answers the n-th request with the n-th entry of a
    script and refuses the connection after that. *)
Definition scripted (script : list (result Response))
  : list Request -> Request -> result Response :=
  fun history _ =>
    default (Fail (New "connection refused")) (script !! length history).

Definition string_at (key : string) (v : Value) : string :=
  match v with
  | Object m =>
      match assoc key m with
      | Some (Str s) => s
      | _ => EmptyString
      end
  | _ => EmptyString
  end.

(** A decoder of login answers that reads the three fields the transport
    uses off the decoded body. *)
Definition decode_login (body : string) : result LoginResponse :=
  match Json.Unmarshal body with
  | Some (Object m) =>
      Ok {| LR_AccessToken := string_at "access_token" (Object m);
            LR_RefreshToken := string_at "refresh_token" (Object m);
            LR_UserEmail :=
              string_at "email" (default Null (assoc "user" m)) |}
  | _ => Fail (New "invalid login response")
  end.

Definition env_of (script : list (result Response)) : Env :=
  {| roundTrip := scripted script;
     newRequestError := fun _ _ => None;
     decodeLoginResponse := decode_login;
     unicode := Strings.latin1 |}.

Definition login_answer : string :=
  compact
    (TObject [("access_token", TString "new-access");
              ("refresh_token", TString "new-refresh");
              ("user", TObject [("email", TString "user@example.com")])]).

Definition response (status : Z) (body : string) : result Response :=
  Ok {| StatusCode := status; ResponseBody := body |}.

Definition logged_in : Config :=
  {| APIURL := "https://api.example.com"; AccessToken := "old-access";
     RefreshToken := "old-refresh"; UserEmail := "user@example.com";
     DefaultCloud := "eks"; DefaultRegion := "eu";
     DefaultCompute := 2; DefaultMemory := 4 |}.

Definition disk (content : option string)
    (write_error : option WriteFailure) : FileSystem :=
  {| file := content; mkdir_error := None; write_error := write_error;
     read_error := None |}.

Definition state_of (cfg : Config) (fs : FileSystem) : State :=
  {| config := cfg; fs := fs; calls := []; stderr := [] |}.

Definition client : Client :=
  {| baseURL := "https://api.example.com"; debug := true |}.

Definition orgs_path : string := "/api/v1/organizations".

(** [json.Marshal(models.CreateOrganizationRequest{Name: "acme"})] *)
Definition create_body : string :=
  compact (TObject [("name", TString "acme")]).

(** An HTTP client that does with a spent body reader what net/http does
    on a connection it has not used before: it finds no bytes where the
    request declares some and fails the call. Other requests are
    answered from the script. *)
Definition content_length_error (req : Request) : error :=
  New ("http: ContentLength="
       +:+ FormatInt (Z.of_nat (String.length (default EmptyString
                                                 (Body req))))
       +:+ " with Body length 0").

Definition strict_env (script : list (result Response)) : Env :=
  {| roundTrip :=
       fun history req =>
         if Spent req then Fail (content_length_error req)
         else scripted script history req;
     newRequestError := fun _ _ => None;
     decodeLoginResponse := decode_login;
     unicode := Strings.latin1 |}.

Lemma unauthorized_then_refresh_resends_the_spent_request_witness :
  let st := state_of logged_in (disk None None) in
  let env :=
    strict_env [response 401 EmptyString; response 200 login_answer;
                response 201 "{}"] in
  let out := doRequest env client "POST" orgs_path (Some (Ok create_body)) st
  in
  out.1
  = Fail (Wrap "retry request failed: "
            (New "http: ContentLength=15 with Body length 0"))
  /\ (fun r => (Method r, Body r, Spent r)) <$> calls out.2
     = [("POST", Some create_body, false);
        ("POST", Some (refresh_payload "old-refresh"), false);
        ("POST", Some create_body, true)]
  /\ AccessToken (config out.2) = "new-access".
Proof.
  cbn zeta.
  destruct (unauthorized_then_refresh_resends_the_spent_request
              (strict_env [response 401 EmptyString;
                           response 200 login_answer; response 201 "{}"])
              client "POST" orgs_path (Some create_body)
              (state_of logged_in (disk None None))
              (refreshToken
                 (strict_env [response 401 EmptyString;
                              response 200 login_answer; response 201 "{}"])
                 client
                 (after_send
                    (strict_env [response 401 EmptyString;
                                 response 200 login_answer;
                                 response 201 "{}"])
                    client "POST" orgs_path
                    (Some create_body)
                    (state_of logged_in (disk None None)))).2
              {| StatusCode := 401; ResponseBody := EmptyString |}
              eq_refl eq_refl eq_refl)
    as (_ & _ & _ & _ & _ & st3 & Hrun & Hcalls & Hcfg).
  - discriminate.
  - by vm_compute.
  - change (Ok <$> Some create_body) with (Some (Ok create_body)) in Hrun.
    rewrite Hrun. cbn [fst snd]. rewrite Hcalls, Hcfg.
    repeat split; by vm_compute.
Defined.

(** Without a body nothing is spent: the retry is the first request
    with the new Authorization header, and a client that answers it is
    believed, a second 401 included. *)
Lemma retry_without_a_body_is_the_first_request_again :
  let st := state_of logged_in (disk None None) in
  let run script := doRequest (strict_env script) client "GET" orgs_path None st
  in
  let script200 :=
    [response 401 EmptyString; response 200 login_answer;
     response 200 "[]"] in
  let script401 :=
    [response 401 EmptyString; response 200 login_answer;
     response 401 EmptyString] in
  ((run script200).1 = response 200 "[]"
   /\ (fun r => (Header r !! "Authorization", Spent r))
        <$> calls (run script200).2
      = [(Some "Bearer old-access", false); (None, false);
         (Some "Bearer new-access", false)])
  /\ ((run script401).1 = response 401 EmptyString
      /\ length (calls (run script401).2) = 3%nat).
Proof. cbn zeta. repeat split; by vm_compute. Qed.

Lemma refresh_rejected_clears_credentials_witness :
  let st := state_of logged_in (disk None None) in
  let out := refreshToken (env_of [response 403 EmptyString]) client st in
  option_map Error out.1
  = Some ("session expired (HTTP 403). "
          +:+ "Please run 'spacectl login' to re-authenticate")
  /\ IsAuthenticated out.2 = false
  /\ (Load (fs out.2)).1 = Ok (ClearAuth logged_in).
Proof.
  cbn zeta.
  destruct (refresh_rejected_clears_credentials
              (env_of [response 403 EmptyString]) client
              (state_of logged_in (disk None None))
              {| StatusCode := 403; ResponseBody := EmptyString |}
              eq_refl eq_refl)
    as (st2 & Hrun & _ & _ & Hauth & _ & Hfile).
  - discriminate.
  - rewrite Hrun. simpl. split; [by vm_compute|]. split; [exact Hauth|].
    specialize (Hfile eq_refl). unfold Load. rewrite Hfile.
    destruct (fs st2) as [f m w r] eqn:Hfs.
    assert (read_error (fs st2) = None) as Hr.
    { by injection Hrun as <-. }
    rewrite Hfs in Hr. simpl in Hr. rewrite Hr. by vm_compute.
Defined.

(** C2 as stated fails where the file cannot be written: the refresh is
    answered with 403, the credentials in memory are cleared and the
    error is returned, but the file still holds the old tokens, and a
    later Load reads them back as an authenticated configuration. *)
Lemma refresh_rejected_save_failure_keeps_tokens_on_disk :
  let st :=
    state_of logged_in
      (disk (Some (MarshalIndent logged_in))
         (Some (OpenFailed (New "permission denied")))) in
  let out := refreshToken (env_of [response 403 EmptyString]) client st in
  out.1 = Some (session_expired 403)
  /\ IsAuthenticated out.2 = false
  /\ file (fs out.2) = Some (MarshalIndent logged_in)
  /\ file (fs out.2) <> Some (MarshalIndent (ClearAuth logged_in))
  /\ (Load (fs out.2)).1 = Ok logged_in
  /\ Config.IsAuthenticated logged_in = true.
Proof. cbn zeta. repeat split; by vm_compute. Qed.

Lemma unauthorized_without_refresh_token_is_returned_witness :
  let st := state_of (ClearAuth logged_in) (disk None None) in
  let out :=
    doRequest (env_of [response 401 EmptyString]) client "GET" orgs_path
      None st in
  out.1 = response 401 EmptyString
  /\ config out.2 = ClearAuth logged_in
  /\ length (calls out.2) = 1%nat.
Proof.
  cbn zeta.
  destruct (unauthorized_without_refresh_token_is_returned
              (env_of [response 401 EmptyString]) client "GET" orgs_path
              None (state_of (ClearAuth logged_in) (disk None None))
              {| StatusCode := 401; ResponseBody := EmptyString |}
              eq_refl eq_refl eq_refl eq_refl)
    as (st' & Hrun & Hc & _ & Hl).
  change (Ok <$> None) with (@None (result string)) in Hrun.
  rewrite Hrun. simpl. rewrite Hc, Hl. repeat split.
Defined.

End TransportFacts.

(* ===================================================================== *)
(** * Theorems: redaction of debug output                                 *)
(* ===================================================================== *)

Section RedactionFacts.
Import Go Utf8 Strings Json Api.

#[local] Arguments FormatFloat : simpl never.
#[local] Arguments ParseFloat : simpl never.
#[local] Arguments unquote : simpl never.
#[local] Arguments escape : simpl never.

(** Induction over a JSON value and over the values inside it. *)
Definition Value_nested_ind (P : Value -> Prop)
    (Hnull : P Null) (Hbool : forall b, P (Bool b))
    (Hnumber : forall f, P (Number f)) (Hstr : forall s, P (Str s))
    (Harray : forall elems, Forall P elems -> P (Array elems))
    (Hobject : forall entries,
        Forall (fun kv => P kv.2) entries -> P (Object entries))
  : forall v, P v :=
  fix go (v : Value) : P v :=
    match v with
    | Null => Hnull
    | Bool b => Hbool b
    | Number f => Hnumber f
    | Str s => Hstr s
    | Array elems =>
        Harray elems
          ((fix all (l : list Value) : Forall P l :=
              match l with
              | [] => @List.Forall_nil _ P
              | x :: rest => @List.Forall_cons _ P x rest (go x) (all rest)
              end) elems)
    | Object entries =>
        Hobject entries
          ((fix all (l : list (string * Value))
              : Forall (fun kv => P kv.2) l :=
              match l with
              | [] => @List.Forall_nil _ _
              | x :: rest =>
                  @List.Forall_cons _ (fun kv => P kv.2) x rest (go x.2) (all rest)
              end) entries)
    end.

Definition Tree_nested_ind (P : Tree -> Prop)
    (Hnull : P TNull) (Hbool : forall b, P (TBool b))
    (Hnumber : forall l, P (TNumber l)) (Hstr : forall s, P (TString s))
    (Harray : forall elems, Forall P elems -> P (TArray elems))
    (Hobject : forall members,
        Forall (fun kv => P kv.2) members -> P (TObject members))
  : forall t, P t :=
  fix go (t : Tree) : P t :=
    match t with
    | TNull => Hnull
    | TBool b => Hbool b
    | TNumber l => Hnumber l
    | TString s => Hstr s
    | TArray elems =>
        Harray elems
          ((fix all (l : list Tree) : Forall P l :=
              match l with
              | [] => @List.Forall_nil _ P
              | x :: rest => @List.Forall_cons _ P x rest (go x) (all rest)
              end) elems)
    | TObject members =>
        Hobject members
          ((fix all (l : list (string * Tree))
              : Forall (fun kv => P kv.2) l :=
              match l with
              | [] => @List.Forall_nil _ _
              | x :: rest =>
                  @List.Forall_cons _ (fun kv => P kv.2) x rest (go x.2) (all rest)
              end) members)
    end.

(** What the specification asks of the redacted document [v'] for the
    decoded document [v]: scalars are the same; an array has the same
    length and its elements correspond in order; an object has the same
    keys, a sensitive key holds the marker and any other key holds the
    redaction of its value. A key is sensitive when its lower-case form,
    as [strings.ToLower] gives it, is one of the seven words. *)
Inductive redacted_of (u : Unicode) : Value -> Value -> Prop :=
| redacted_null : redacted_of u Null Null
| redacted_bool b : redacted_of u (Bool b) (Bool b)
| redacted_number f : redacted_of u (Number f) (Number f)
| redacted_str s : redacted_of u (Str s) (Str s)
| redacted_array elems elems' :
    Forall2 (redacted_of u) elems elems' ->
    redacted_of u (Array elems) (Array elems')
| redacted_object entries entries' :
    Forall2 (fun kv kv' =>
               kv.1 = kv'.1
               /\ (ToLower u kv.1 ∈ sensitive_keys -> kv'.2 = Str REDACTED)
               /\ (ToLower u kv.1 ∉ sensitive_keys ->
                   redacted_of u kv.2 kv'.2))
      entries entries' ->
    redacted_of u (Object entries) (Object entries').

Lemma redactRecursive_meets_spec (u : Unicode) (v : Value) :
  redacted_of u v (redactRecursive u v).
Proof.
  induction v as [| | | |elems IH|entries IH] using Value_nested_ind;
    try constructor.
  - simpl. induction IH; constructor; auto.
  - simpl. induction IH as [|[k x] rest Hx _ IHrest]; constructor; auto.
    simpl in *. split; [done|]. unfold isSensitiveKey.
    case_bool_decide; split; intros; done.
Qed.

(** On an ASCII key the tables are not consulted: the key is sensitive
    exactly when it is one of the seven words in some letter case. *)
Lemma isSensitiveKey_ascii (u : Unicode) (key : string) :
  isASCII key = true ->
  isSensitiveKey u key = bool_decide (lower_bytes key ∈ sensitive_keys).
Proof. intros H. unfold isSensitiveKey, ToLower. by rewrite H. Qed.

(** A value all of whose numbers are finite: what Unmarshal produces and
    what Marshal can encode. *)
Definition finite (f : float64) : Prop :=
  match f with
  | S754_zero _ | S754_finite _ _ _ => True
  | _ => False
  end.

Inductive encodable : Value -> Prop :=
| encodable_null : encodable Null
| encodable_bool b : encodable (Bool b)
| encodable_number f : finite f -> encodable (Number f)
| encodable_str s : encodable (Str s)
| encodable_array elems : Forall encodable elems -> encodable (Array elems)
| encodable_object entries :
    Forall (fun kv => encodable kv.2) entries -> encodable (Object entries).

Lemma ParseFloat_finite (lit : string) (f : float64) :
  ParseFloat lit = Some f -> finite f.
Proof.
  unfold ParseFloat. destruct (split_number lit) as [[[neg ip] fp] e].
  cbv zeta.
  match goal with
  | |- match ?r with _ => _ end = _ -> _ => generalize r
  end.
  intros r. destruct r; intros [= <-]; exact I.
Qed.

Lemma map_set_encodable (key : string) (v : Value)
    (m : list (string * Value)) :
  encodable v -> Forall (fun kv => encodable kv.2) m ->
  Forall (fun kv => encodable kv.2) (map_set key v m).
Proof.
  intros Hv Hm. induction Hm as [|[k x] rest Hx Hrest IH]; simpl.
  - by constructor.
  - case_bool_decide; constructor; simpl; auto.
Qed.

Lemma to_value_encodable (t : Tree) (v : Value) :
  to_value t = Some v -> encodable v.
Proof.
  revert v.
  induction t as [| |lit|body|elems IH|members IH] using Tree_nested_ind;
    intros v; simpl.
  - intros [= <-]. constructor.
  - intros [= <-]. constructor.
  - destruct (ParseFloat lit) eqn:Hf; intros [= <-].
    constructor. by eapply ParseFloat_finite.
  - destruct (unquote body); intros [= <-]. constructor.
  - intros H. apply fmap_Some in H as (vs & Hvs & ->). constructor.
    revert vs Hvs. induction IH as [|t rest Ht _ IHrest]; intros vs.
    + intros [= <-]. constructor.
    + destruct (to_value t) as [x|] eqn:Hx; [|discriminate].
      match goal with |- context [?f rest] => destruct (f rest) eqn:Hr end;
        [|discriminate].
      intros [= <-]. constructor; eauto.
  - intros H. apply fmap_Some in H as (m & Hm & ->). constructor.
    assert (Forall (fun kv : string * Value => encodable kv.2) []) as Hacc
      by constructor.
    revert m Hm Hacc. generalize (@nil (string * Value)).
    induction IH as [|[body t] rest Ht _ IHrest]; intros acc m.
    + by intros [= <-].
    + destruct (unquote body) as [key|]; [|discriminate].
      simpl in Ht. destruct (to_value t) as [x|] eqn:Hx; [|discriminate].
      intros Hm Hacc. eapply IHrest; [exact Hm|].
      apply map_set_encodable; eauto.
Qed.

Lemma redactRecursive_encodable (u : Unicode) (v : Value) :
  encodable v -> encodable (redactRecursive u v).
Proof.
  induction v as [| | | |elems IH|entries IH] using Value_nested_ind;
    intros Hv; simpl; try done.
  - inversion_clear Hv as [| | | |? Hall|]. constructor.
    induction IH; inversion_clear Hall; constructor; auto.
  - inversion_clear Hv as [| | | | |? Hall]. constructor.
    induction IH as [|[k x] rest Hx _ IHrest]; inversion_clear Hall;
      constructor; auto.
    simpl in *. destruct (isSensitiveKey u k); [constructor | auto].
Qed.

Lemma FormatFloat_finite (f : float64) :
  finite f -> is_Some (FormatFloat f).
Proof.
  destruct f as [s|s| |s m e]; try done; intros _.
  unfold FormatFloat. destruct (shortest m e) as [c q].
  eexists. reflexivity.
Qed.

Lemma encodable_of_value (v : Value) :
  encodable v -> is_Some (of_value v).
Proof.
  induction v as [| |f|s|elems IH|entries IH] using Value_nested_ind;
    intros Hv; simpl.
  - by eexists.
  - by eexists.
  - inversion_clear Hv as [| |? Hf| | |].
    apply fmap_is_Some. by apply FormatFloat_finite.
  - by eexists.
  - inversion_clear Hv as [| | | |? Hall|].
    apply fmap_is_Some.
    induction IH as [|x rest Hx _ IHrest]; inversion_clear Hall.
    + by eexists.
    + destruct (Hx ltac:(done)) as [t ->].
      destruct (IHrest ltac:(done)) as [ts ->]. by eexists.
  - inversion_clear Hv as [| | | | |? Hall].
    apply fmap_is_Some.
    induction IH as [|[k x] rest Hx _ IHrest]; inversion_clear Hall.
    + by eexists.
    + simpl in *. destruct (Hx ltac:(done)) as [t ->].
      destruct (IHrest ltac:(done)) as [ts ->]. by eexists.
Qed.

(** The input parses: the output is the encoding of the redacted
    document. *)
Lemma redactSensitiveJSON_decoded (u : Unicode) (raw : string) (v : Value) :
  Json.Unmarshal raw = Some v ->
  Marshal (redactRecursive u v) = Some (redactSensitiveJSON u raw).
Proof.
  intros Hv. unfold redactSensitiveJSON. rewrite Hv.
  assert (encodable v) as Henc.
  { unfold Json.Unmarshal in Hv. destruct (parse raw); [|discriminate].
    by eapply to_value_encodable. }
  destruct (encodable_of_value _ (redactRecursive_encodable u _ Henc))
    as [t Ht].
  unfold Marshal. rewrite Ht. reflexivity.
Qed.

(** C3, as amended. If the input is not JSON, it is returned unchanged.
    If [json.Unmarshal] accepts the input, the output is the compact
    encoding by [json.Marshal] of the redacted document, and the redacted
    document relates to the decoded one as [redacted_of] says: at every
    depth, through arrays and objects, a key that is sensitive (in any
    letter case) holds the marker, every other leaf is the same decoded
    value, arrays keep their length and order and objects their keys. *)
Theorem redaction_of_the_decoded_document (u : Unicode) (raw : string) :
  (parse raw = None -> redactSensitiveJSON u raw = raw)
  /\ (forall v, Json.Unmarshal raw = Some v ->
        redacted_of u v (redactRecursive u v)
        /\ Marshal (redactRecursive u v)
           = Some (redactSensitiveJSON u raw)).
Proof.
  split.
  - intros H. unfold redactSensitiveJSON, Json.Unmarshal. by rewrite H.
  - intros v Hv. split.
    + apply redactRecursive_meets_spec.
    + by apply redactSensitiveJSON_decoded.
Qed.

(** The Kelvin sign U+212A, which [strings.ToLower] turns into k. *)
Definition kelvin : string := EncodeRune 8490.

(** The sensitive keys are matched in any letter case, and only they. *)
Lemma isSensitiveKey_examples (u : Unicode) :
  forallb (isSensitiveKey u)
    ["password"; "PASS"; "Pwd"; "access_token"; "Refresh_Token"; "token";
     "authorization"; "Authorization"] = true
  /\ existsb (isSensitiveKey u) ["username"; "email"; "role"; "tokens"]
     = false
  /\ isSensitiveKey latin1 ("to" +:+ kelvin +:+ "en") = true.
Proof. repeat split; by vm_compute. Qed.

Definition nested_document : string :=
  compact
    (TObject
       [("password", TString "secret");
        ("nested", TObject [("Authorization", TString "Bearer x");
                            ("safe", TString "value")]);
        ("list", TArray [TObject [("token", TString "abc123")];
                         TObject [("other", TString "value")]]);
        ("safe", TString "keep")]).

Lemma redaction_of_the_decoded_document_witness :
  redactSensitiveJSON latin1 "not-json" = "not-json"
  /\ redactSensitiveJSON latin1 nested_document
     = compact
         (TObject
            [("list", TArray [TObject [("token", TString REDACTED)];
                              TObject [("other", TString "value")]]);
             ("nested", TObject [("Authorization", TString REDACTED);
                                 ("safe", TString "value")]);
             ("password", TString REDACTED);
             ("safe", TString "keep")]).
Proof.
  split.
  - apply (proj1 (redaction_of_the_decoded_document latin1 "not-json")).
    by vm_compute.
  - destruct (Json.Unmarshal nested_document) as [v|] eqn:Hv;
      [|by vm_compute in Hv].
    destruct (proj2 (redaction_of_the_decoded_document latin1
                       nested_document) v Hv) as [_ Hm].
    apply (inj Some). rewrite <- Hm.
    vm_compute in Hv. injection Hv as <-. by vm_compute.
Defined.

(** The spellings of the scalar leaves of a text, in document order. *)
Fixpoint leaf_spellings (t : Tree) : list string :=
  match t with
  | TArray elems => flat_map leaf_spellings elems
  | TObject members => flat_map (fun kv => leaf_spellings kv.2) members
  | _ => [compact t]
  end.

Definition note_document : string :=
  compact (TObject [("note", TString "a<b")]).
Definition number_document : string := "[1.0]".
Definition out_of_range_document : string :=
  compact (TObject [("password", TString "hunter2");
                    ("n", TNumber "1e999")]).

(** C3 as stated fails. The leaf under the key note, which is not
    sensitive, is spelled a<b in the input and a\u003cb in the output,
    and the number 1.0 comes out as 1: both texts are JSON, neither
    holds a sensitive key, and neither comes out byte for byte. *)
Lemma redaction_respells_leaves :
  (isSensitiveKey latin1 "note" = false
   /\ leaf_spellings <$> parse note_document = Some [quoted "a<b"]
   /\ leaf_spellings <$> parse (redactSensitiveJSON latin1 note_document)
      = Some [quoted "a\u003cb"]
   /\ redactSensitiveJSON latin1 note_document <> note_document)
  /\ (leaf_spellings <$> parse number_document = Some ["1.0"]
      /\ leaf_spellings <$> parse (redactSensitiveJSON latin1
                                     number_document) = Some ["1"]
      /\ redactSensitiveJSON latin1 number_document = "[1]").
Proof. repeat split; by vm_compute. Qed.

(** The two texts are ASCII, so they come out the same whatever the
    tables of package unicode hold. *)
Lemma respelling_needs_no_table (u : Unicode) :
  redactSensitiveJSON u note_document
  = redactSensitiveJSON latin1 note_document
  /\ redactSensitiveJSON u number_document = "[1]".
Proof. split; by vm_compute. Qed.

(** A text that is JSON but holds a number no float64 can hold:
    [json.Unmarshal] reports an error, and the text is returned as it
    is, its password included, although the comment on
    [redactSensitiveJSON] speaks of input that is not JSON. *)
Lemma out_of_range_number_leaves_the_text_unredacted (u : Unicode) :
  parse out_of_range_document
  = Some (TObject [("password", TString "hunter2");
                   ("n", TNumber "1e999")])
  /\ isSensitiveKey u "password" = true
  /\ Json.Unmarshal out_of_range_document = None
  /\ redactSensitiveJSON u out_of_range_document = out_of_range_document.
Proof. repeat split; by vm_compute. Qed.

End RedactionFacts.

(* ===================================================================== *)
(** * Theorems: the credential store                                      *)
(* ===================================================================== *)

Section StoreFacts.
Import Go Utf8 Json Config.

#[local] Arguments String.append : simpl nomatch.

Lemma append_assoc (a b c : string) : (a +:+ b) +:+ c = a +:+ (b +:+ c).
Proof. induction a as [|x a IH]; simpl; [done|]. by rewrite IH. Qed.

Lemma append_empty_r (a : string) : a +:+ EmptyString = a.
Proof. induction a as [|x a IH]; simpl; [done|]. by rewrite IH. Qed.

Lemma append_cons (x : ascii) (a b : string) :
  String x a +:+ b = String x (a +:+ b).
Proof. reflexivity. Qed.

Lemma run_app (p : Parser) (a b : string) :
  run p (a +:+ b)
  = match run p a with
    | Some p' => run p' b
    | None => None
    end.
Proof.
  revert p. induction a as [|x a IH]; intros p; simpl; [done|].
  destruct (step p x); [apply IH | done].
Qed.

Lemma run_cons (p : Parser) (c : ascii) (s : string) :
  run p (String c s)
  = match step p c with
    | Some p' => run p' s
    | None => None
    end.
Proof. reflexivity. Qed.

Lemma rev_onto_app (a b acc : string) :
  rev_onto (a +:+ b) acc = rev_onto b (rev_onto a acc).
Proof.
  revert acc. induction a as [|x a IH]; intros acc; simpl; [done|].
  apply IH.
Qed.

Lemma rev_onto_rev_onto (a b c : string) :
  rev_onto (rev_onto a b) c = rev_onto b (a +:+ c).
Proof.
  revert b c. induction a as [|x a IH]; intros b c; simpl; [done|].
  by rewrite IH.
Qed.

Lemma rev_onto_involutive (a : string) :
  rev_onto (rev_onto a EmptyString) EmptyString = a.
Proof. rewrite rev_onto_rev_onto. simpl. apply append_empty_r. Qed.

(** The bytes 0..255, for proofs by cases on a byte. *)
Lemma byte_cases (P : ascii -> Prop) :
  (forall n, (n < 256)%nat -> P (ascii_of_nat n)) -> forall c, P c.
Proof.
  intros H c. rewrite <- (ascii_nat_embedding c). apply H.
  apply nat_ascii_bounded.
Qed.

Definition in_string (l : string) (stk : list Frame) (tp : option Tree)
  : Parser :=
  {| scan := InString; lit := l; stack := stk; top := tp |}.

(** A byte the scanner takes as part of a string as it is. *)
Definition plain (c : ascii) : Prop :=
  c <> dquote /\ c <> backslash /\ (32 <=? byte_val c)%N = true.

Lemma step_plain (c : ascii) (l : string) (stk : list Frame)
    (tp : option Tree) :
  plain c ->
  step (in_string l stk tp) c = Some (in_string (String c l) stk tp).
Proof.
  intros (Hq & Hb & Hc). unfold step, in_string. simpl.
  rewrite !bool_decide_eq_false_2 by done.
  apply N.leb_le in Hc.
  destruct (byte_val c <? 32)%N eqn:Hlt; [apply N.ltb_lt in Hlt; lia|].
  reflexivity.
Qed.

Lemma high_byte_plain (c : ascii) : (128 <= byte_val c)%N -> plain c.
Proof.
  intros H. split; [|split].
  - intros ->. vm_compute in H. by apply H.
  - intros ->. vm_compute in H. by apply H.
  - apply N.leb_le. lia.
Qed.

Lemma is_cont_high (c : ascii) : is_cont c = true -> (128 <= byte_val c)%N.
Proof.
  unfold is_cont, in_range. intros H.
  apply andb_true_iff in H as [H _]. by apply N.leb_le.
Qed.

(** The scanner reads the escape of an ASCII byte and stays inside the
    string. *)
Lemma run_escape_ascii (c : ascii) (l : string) (stk : list Frame)
    (tp : option Tree) :
  (byte_val c < 128)%N ->
  run (in_string l stk tp) (escape_ascii c)
  = Some (in_string (rev_onto (escape_ascii c) l) stk tp).
Proof.
  revert c. apply (byte_cases (fun c => (byte_val c < 128)%N -> _)).
  intros n Hn.
  do 256 (destruct n as [|n]; [intros _; try reflexivity;
                               intros; exfalso; by vm_compute in H|]).
  lia.
Qed.

Lemma byte_val_inj (c : ascii) (n : N) : byte_val c = n -> c = ascii_of_N n.
Proof. intros <-. unfold byte_val. by rewrite ascii_N_embedding. Qed.

Lemma in_range_spec (lo hi : N) (c : ascii) :
  in_range lo hi c = true <-> (lo <= byte_val c <= hi)%N.
Proof.
  unfold in_range. rewrite andb_true_iff, !N.leb_le. tauto.
Qed.

Lemma in_range_false (lo hi : N) (c : ascii) :
  in_range lo hi c = false <-> ~ (lo <= byte_val c <= hi)%N.
Proof.
  rewrite <- in_range_spec. by destruct (in_range lo hi c).
Qed.

(** What [DecodeRune] finds at a byte from 0x80 up: an invalid start, or a
    rune of two, three or four bytes whose continuation bytes are in
    0x80..0xBF; the result depends on those bytes only. *)
Inductive rune_view (c : ascii) (rest : string) : Prop :=
| view_invalid :
    DecodeRune (String c rest) = (RuneError, 1%nat) -> rune_view c rest
| view_two c1 r1 r :
    rest = String c1 r1 -> is_cont c1 = true -> (r < 2048)%N ->
    (forall r1', DecodeRune (String c (String c1 r1')) = (r, 2%nat)) ->
    rune_view c rest
| view_three c1 c2 r2 r :
    rest = String c1 (String c2 r2) ->
    is_cont c1 = true -> is_cont c2 = true -> (r < 65536)%N ->
    (forall r2',
        DecodeRune (String c (String c1 (String c2 r2'))) = (r, 3%nat)) ->
    (r = 8232%N \/ r = 8233%N ->
     byte_val c = 226%N /\ byte_val c1 = 128%N
     /\ byte_val c2 = (r - 8064)%N) ->
    rune_view c rest
| view_four c1 c2 c3 r3 r :
    rest = String c1 (String c2 (String c3 r3)) ->
    is_cont c1 = true -> is_cont c2 = true -> is_cont c3 = true ->
    (65536 <= r)%N ->
    (forall r3',
        DecodeRune (String c (String c1 (String c2 (String c3 r3'))))
        = (r, 4%nat)) ->
    rune_view c rest.

Lemma decode_view (c : ascii) (rest : string) :
  (128 <= byte_val c)%N -> rune_view c rest.
Proof.
  intros Hc.
  assert ((byte_val c <? 128)%N = false) as Hlt by (apply N.ltb_ge; lia).
  destruct (in_range 194 223 c) eqn:H2.
  { apply in_range_spec in H2.
    destruct rest as [|c1 r1];
      [apply view_invalid; unfold DecodeRune; cbv zeta;
       rewrite Hlt; apply in_range_spec in H2; by rewrite H2|].
    destruct (is_cont c1) eqn:H1.
    - eapply (view_two c (String c1 r1) c1 r1); [done|done| |].
      2:{ intros r1'. unfold DecodeRune. cbv zeta. rewrite Hlt.
          apply in_range_spec in H2. rewrite H2, H1. reflexivity. }
      apply is_cont_high in H1 as H1'.
      unfold is_cont in H1. apply in_range_spec in H1. lia.
    - apply view_invalid. unfold DecodeRune. cbv zeta. rewrite Hlt.
      apply in_range_spec in H2. by rewrite H2, H1. }
  destruct (in_range 224 239 c) eqn:H3.
  { apply in_range_spec in H3 as H3'.
    destruct rest as [|c1 [|c2 r2]];
      try (apply view_invalid; unfold DecodeRune; cbv zeta;
           rewrite Hlt, H2, H3; reflexivity).
    set (lo := if (byte_val c =? 224)%N then 160%N else 128%N).
    set (hi := if (byte_val c =? 237)%N then 159%N else 191%N).
    destruct (in_range lo hi c1 && is_cont c2) eqn:H1.
    - apply andb_true_iff in H1 as [H1 Hc2].
      assert (in_range lo hi c1 && is_cont c2 = true) as Hboth
        by (by rewrite H1, Hc2).
      apply in_range_spec in H1.
      assert (128 <= byte_val c1 <= 191)%N as Hb1.
      { subst lo hi. destruct (byte_val c =? 224)%N;
          destruct (byte_val c =? 237)%N; lia. }
      eapply (view_three c _ c1 c2 r2); [done| |done| | |].
      + by apply in_range_spec.
      + unfold is_cont in Hc2. apply in_range_spec in Hc2.
        instantiate (1 := (((byte_val c - 224) * 64 + (byte_val c1 - 128))
                            * 64 + (byte_val c2 - 128))%N). lia.
      + intros r2'. unfold DecodeRune. cbv zeta.
        rewrite Hlt, H2, H3. fold lo hi. rewrite Hboth. reflexivity.
      + unfold is_cont in Hc2. apply in_range_spec in Hc2. lia.
    - apply view_invalid. unfold DecodeRune. cbv zeta.
      rewrite Hlt, H2, H3. fold lo hi. by rewrite H1. }
  destruct (in_range 240 244 c) eqn:H4.
  { apply in_range_spec in H4 as H4'.
    destruct rest as [|c1 [|c2 [|c3 r3]]];
      try (apply view_invalid; unfold DecodeRune; cbv zeta;
           rewrite Hlt, H2, H3, H4; reflexivity).
    set (lo := if (byte_val c =? 240)%N then 144%N else 128%N).
    set (hi := if (byte_val c =? 244)%N then 143%N else 191%N).
    destruct (in_range lo hi c1 && is_cont c2 && is_cont c3) eqn:H1.
    - apply andb_true_iff in H1 as [H1 Hc3].
      apply andb_true_iff in H1 as [H1 Hc2].
      assert (in_range lo hi c1 && is_cont c2 && is_cont c3 = true)
        as Hall by (by rewrite H1, Hc2, Hc3).
      apply in_range_spec in H1.
      assert (128 <= byte_val c1 <= 191
              /\ (byte_val c = 240 -> 144 <= byte_val c1))%N as [Hb1 Hb1'].
      { subst lo hi.
        destruct (N.eqb_spec (byte_val c) 240);
          destruct (N.eqb_spec (byte_val c) 244); lia. }
      eapply (view_four c _ c1 c2 c3 r3); [done| |done|done| |].
      + by apply in_range_spec.
      + unfold is_cont in Hc2, Hc3.
        apply in_range_spec in Hc2. apply in_range_spec in Hc3.
        instantiate (1 := ((((byte_val c - 240) * 64 + (byte_val c1 - 128))
                             * 64 + (byte_val c2 - 128)) * 64
                           + (byte_val c3 - 128))%N). lia.
      + intros r3'. unfold DecodeRune. cbv zeta.
        rewrite Hlt, H2, H3, H4. fold lo hi. rewrite Hall. reflexivity.
    - apply view_invalid. unfold DecodeRune. cbv zeta.
      rewrite Hlt, H2, H3, H4. fold lo hi. by rewrite H1. }
  apply view_invalid. unfold DecodeRune. cbv zeta.
  destruct rest; by rewrite Hlt, H2, H3, H4.
Qed.

#[local] Arguments DecodeRune : simpl never.
#[local] Arguments invalid_head : simpl never.
#[local] Arguments escape_ascii : simpl never.
#[local] Arguments EncodeRune : simpl never.

(** The next [k] bytes, as far as there are any, are continuation
    bytes. *)
Fixpoint conts (k : nat) (s : string) : Prop :=
  match k, s with
  | S k', String c r => is_cont c = true /\ conts k' r
  | _, _ => True
  end.

Lemma escape_go_low (keep : bool) (c : ascii) (rest : string) :
  (byte_val c < 128)%N ->
  escape_go 0 keep (String c rest)
  = escape_ascii c +:+ escape_go 0 true rest.
Proof. intros H. simpl. apply N.ltb_lt in H. by rewrite H. Qed.

Lemma escape_go_invalid (keep : bool) (c : ascii) (rest : string) :
  (128 <= byte_val c)%N ->
  DecodeRune (String c rest) = (RuneError, 1%nat) ->
  escape_go 0 keep (String c rest)
  = String backslash "ufffd" +:+ escape_go 0 true rest.
Proof.
  intros H Hd. simpl. apply N.ltb_ge in H. by rewrite H, Hd.
Qed.

Lemma escape_go_copy (keep : bool) (c : ascii) (rest : string)
    (r : N) (size : nat) :
  (128 <= byte_val c)%N ->
  DecodeRune (String c rest) = (r, size) ->
  (1 < size)%nat -> r <> 8232%N -> r <> 8233%N ->
  escape_go 0 keep (String c rest)
  = String c (escape_go (size - 1) true rest).
Proof.
  intros H Hd Hs H1 H2. simpl. apply N.ltb_ge in H. rewrite H, Hd.
  apply N.eqb_neq in H1, H2. rewrite H1, H2.
  destruct (Nat.eqb_spec size 1); [lia|]. by rewrite andb_false_r.
Qed.

Lemma escape_go_separator (keep : bool) (c : ascii) (rest : string)
    (r : N) (size : nat) :
  (128 <= byte_val c)%N ->
  DecodeRune (String c rest) = (r, size) ->
  (1 < size)%nat -> r = 8232%N \/ r = 8233%N ->
  escape_go 0 keep (String c rest)
  = String backslash "u202" +:+ String (hex_digit (r mod 16)) EmptyString
    +:+ escape_go (size - 1) false rest.
Proof.
  intros H Hd Hs Hr. simpl. apply N.ltb_ge in H. rewrite H, Hd.
  destruct (Nat.eqb_spec size 1); [lia|]. rewrite andb_false_r.
  by destruct Hr as [-> | ->].
Qed.

(** The scanner reads the escaped form of any string and stays inside
    the string literal. *)
Lemma run_escape_go (s : string) :
  forall (k : nat) (keep : bool) (l : string) (stk : list Frame)
         (tp : option Tree),
    (keep = true -> conts k s) ->
    run (in_string l stk tp) (escape_go k keep s)
    = Some (in_string (rev_onto (escape_go k keep s) l) stk tp).
Proof.
  induction s as [|c rest IH]; intros k keep l stk tp Hk; [done|].
  destruct k as [|k].
  - destruct (N.lt_ge_cases (byte_val c) 128) as [Hlt|Hge].
    + rewrite escape_go_low by done.
      rewrite run_app, run_escape_ascii by done.
      rewrite IH by done. by rewrite rev_onto_app.
    + destruct (decode_view c rest Hge)
        as [Hd|c1 r1 r -> Hc1 Hr Hd|c1 c2 r2 r -> Hc1 Hc2 Hr Hd Hsep
            |c1 c2 c3 r3 r -> Hc1 Hc2 Hc3 Hr Hd].
      * rewrite escape_go_invalid by done.
        rewrite run_app.
        change (run (in_string l stk tp) (String backslash "ufffd"))
          with (Some (in_string
                        (rev_onto (String backslash "ufffd") l) stk tp)).
        cbv beta iota. rewrite IH by done. by rewrite rev_onto_app.
      * rewrite (escape_go_copy keep c _ r 2) by (done || lia).
        rewrite run_cons, step_plain by by apply high_byte_plain.
        rewrite IH; [done|]. intros _. by split.
      * destruct (decide (r = 8232%N \/ r = 8233%N)) as [Hs|Hs].
        -- rewrite (escape_go_separator keep c _ r 3) by (done || lia).
           rewrite <- append_assoc, run_app.
           destruct Hs as [-> | ->].
           ++ change (run (in_string l stk tp) _)
                with (Some (in_string
                              (rev_onto (String backslash "u2028") l)
                              stk tp)).
              cbv beta iota. rewrite IH by done. by rewrite !rev_onto_app.
           ++ change (run (in_string l stk tp) _)
                with (Some (in_string
                              (rev_onto (String backslash "u2029") l)
                              stk tp)).
              cbv beta iota. rewrite IH by done. by rewrite !rev_onto_app.
        -- rewrite (escape_go_copy keep c _ r 3) by (done || lia).
           rewrite run_cons, step_plain by by apply high_byte_plain.
           rewrite IH; [done|]. intros _. by repeat split.
      * rewrite (escape_go_copy keep c _ r 4) by (done || lia).
        rewrite run_cons, step_plain by by apply high_byte_plain.
        rewrite IH; [done|]. intros _. by repeat split.
  - destruct keep.
    + destruct (Hk eq_refl) as [Hc Hrest].
      change (escape_go (S k) true (String c rest))
        with (String c (escape_go k true rest)).
      rewrite run_cons, step_plain
        by (by apply high_byte_plain, is_cont_high).
      by rewrite IH.
    + change (escape_go (S k) false (String c rest))
        with (escape_go k false rest).
      by rewrite IH.
Qed.

Lemma unquote_go_escape_ascii (c : ascii) (e : string) :
  (byte_val c < 128)%N ->
  unquote_go 0 (escape_ascii c +:+ e)
  = prepend (String c EmptyString) (unquote_go 0 e).
Proof.
  revert c. apply (byte_cases (fun c => (byte_val c < 128)%N -> _)).
  intros n Hn.
  do 128 (destruct n as [|n]; [intros _; reflexivity|]).
  do 128 (destruct n as [|n]; [intros H; by vm_compute in H|]).
  lia.
Qed.

Lemma unquote_go_high (c : ascii) (e : string) :
  (128 <= byte_val c)%N ->
  unquote_go 0 (String c e)
  = if invalid_head (String c e)
    then prepend replacement (unquote_go 0 e)
    else prepend (String c EmptyString)
           (unquote_go (snd (DecodeRune (String c e)) - 1) e).
Proof.
  intros H. destruct (high_byte_plain c H) as (Hq & Hb & _).
  simpl. rewrite !bool_decide_eq_false_2 by done.
  destruct (N.ltb_spec (byte_val c) 32); [lia|].
  destruct (N.ltb_spec (byte_val c) 128); [lia|]. reflexivity.
Qed.

Lemma escape_go_zero_keep (keep : bool) (s : string) :
  escape_go 0 keep s = escape_go 0 true s.
Proof. by destruct s. Qed.

Lemma invalid_head_of (s : string) (r : N) (size : nat) :
  DecodeRune s = (r, size) ->
  invalid_head s = (r =? RuneError)%N && (size =? 1)%nat.
Proof. unfold invalid_head. by intros ->. Qed.

Lemma Valid_go_cons (c : ascii) (rest : string) (r : N) (size : nat) :
  DecodeRune (String c rest) = (r, size) ->
  Valid_go 0 (String c rest) = true ->
  ((r =? RuneError)%N && (size =? 1)%nat) = false
  /\ Valid_go (size - 1) rest = true.
Proof.
  intros Hd. simpl. rewrite (invalid_head_of _ r size Hd), Hd. simpl.
  destruct ((r =? RuneError)%N && (size =? 1)%nat); [done|]. by split.
Qed.

Lemma Valid_go_low (c : ascii) (rest : string) :
  (byte_val c < 128)%N ->
  Valid_go 0 (String c rest) = true -> Valid_go 0 rest = true.
Proof.
  intros H Hv.
  assert (DecodeRune (String c rest) = (byte_val c, 1%nat)) as Hd.
  { unfold DecodeRune. apply N.ltb_lt in H. by rewrite H. }
  by destruct (Valid_go_cons c rest _ _ Hd Hv).
Qed.

(** Unquoting the escaped form of valid UTF-8 gives the string back. The
    second part covers the bytes an escape has already stood in for. *)
Lemma unquote_escape_go (s : string) :
  forall k, Valid_go k s = true ->
    unquote_go k (escape_go k true s) = Some s
    /\ unquote_go 0 (escape_go k false s) = Some (drop_str k s).
Proof.
  induction s as [|c rest IH]; intros k Hv.
  { by destruct k. }
  destruct k as [|k].
  - assert (unquote_go 0 (escape_go 0 true (String c rest))
            = Some (String c rest)) as Hmain.
    { destruct (N.lt_ge_cases (byte_val c) 128) as [Hlt|Hge].
      - rewrite escape_go_low, unquote_go_escape_ascii by done.
        destruct (IH 0%nat (Valid_go_low c rest Hlt Hv)) as [-> _].
        reflexivity.
      - destruct (decode_view c rest Hge)
          as [Hd|c1 r1 r -> Hc1 Hr Hd|c1 c2 r2 r -> Hc1 Hc2 Hr Hd Hsep
              |c1 c2 c3 r3 r -> Hc1 Hc2 Hc3 Hr Hd].
        + by destruct (Valid_go_cons c rest _ _ Hd Hv).
        + destruct (Valid_go_cons c _ _ _ (Hd r1) Hv) as [Hi Hv'].
          rewrite (escape_go_copy true c _ r 2) by (done || lia).
          change (escape_go (2 - 1) true (String c1 r1))
            with (String c1 (escape_go 0 true r1)).
          rewrite unquote_go_high by done.
          rewrite (invalid_head_of _ r 2 (Hd _)), Hi, (Hd _).
          destruct (IH 1%nat Hv') as [H1 _].
          change (prepend (String c EmptyString)
                    (unquote_go 1 (escape_go 1 true (String c1 r1)))
                  = Some (String c (String c1 r1))).
          by rewrite H1.
        + destruct (Valid_go_cons c _ _ _ (Hd r2) Hv) as [Hi Hv'].
          destruct (decide (r = 8232%N \/ r = 8233%N)) as [Hs|Hs].
          * rewrite (escape_go_separator true c _ r 3) by (done || lia).
            destruct (IH 2%nat Hv') as [_ Hdrop].
            destruct (Hsep Hs) as (E0 & E1 & E2).
            apply byte_val_inj in E0, E1, E2. subst c c1 c2.
            destruct Hs as [-> | ->].
            -- change (unquote_go 0 (?a +:+ ?b +:+ ?e))
                 with (prepend (EncodeRune 8232) (unquote_go 0 e)).
               change (3 - 1)%nat with 2%nat. by rewrite Hdrop.
            -- change (unquote_go 0 (?a +:+ ?b +:+ ?e))
                 with (prepend (EncodeRune 8233) (unquote_go 0 e)).
               change (3 - 1)%nat with 2%nat. by rewrite Hdrop.
          * rewrite (escape_go_copy true c _ r 3) by (done || lia).
            change (escape_go (3 - 1) true (String c1 (String c2 r2)))
              with (String c1 (String c2 (escape_go 0 true r2))).
            rewrite unquote_go_high by done.
            rewrite (invalid_head_of _ r 3 (Hd _)), Hi, (Hd _).
            destruct (IH 2%nat Hv') as [H1 _].
            change (prepend (String c EmptyString)
                      (unquote_go 2
                         (escape_go 2 true (String c1 (String c2 r2))))
                    = Some (String c (String c1 (String c2 r2)))).
            by rewrite H1.
        + destruct (Valid_go_cons c _ _ _ (Hd r3) Hv) as [Hi Hv'].
          rewrite (escape_go_copy true c _ r 4) by (done || lia).
          change (escape_go (4 - 1) true
                    (String c1 (String c2 (String c3 r3))))
            with (String c1 (String c2 (String c3 (escape_go 0 true r3)))).
          rewrite unquote_go_high by done.
          rewrite (invalid_head_of _ r 4 (Hd _)), Hi, (Hd _).
          destruct (IH 3%nat Hv') as [H1 _].
          change (prepend (String c EmptyString)
                    (unquote_go 3
                       (escape_go 3 true
                          (String c1 (String c2 (String c3 r3)))))
                  = Some (String c (String c1 (String c2 (String c3 r3))))).
          by rewrite H1. }
    split; [exact Hmain|]. by rewrite escape_go_zero_keep.
  - destruct (IH k Hv) as [H1 H2]. split.
    + change (unquote_go (S k) (escape_go (S k) true (String c rest)))
        with (prepend (String c EmptyString)
                (unquote_go k (escape_go k true rest))).
      by rewrite H1.
    + exact H2.
Qed.

Lemma unquote_escape (s : string) :
  ValidString s = true -> unquote (escape s) = Some s.
Proof. intros H. by destruct (unquote_escape_go s 0%nat H). Qed.

(** ** Integers in decimal *)

Lemma all_digits_app (a b : string) :
  all_digits (a +:+ b) = all_digits a && all_digits b.
Proof.
  induction a as [|c a IH]; simpl; [done|]. rewrite IH.
  by rewrite andb_assoc.
Qed.

Lemma digits_value_app (acc : Z) (a b : string) :
  digits_value acc (a +:+ b) = digits_value (digits_value acc a) b.
Proof. revert acc. induction a as [|c a IH]; intros acc; simpl; auto. Qed.

Lemma length_app (a b : string) :
  String.length (a +:+ b) = (String.length a + String.length b)%nat.
Proof. induction a as [|c a IH]; simpl; auto. Qed.

Lemma pretty_N_char_digit (x : N) :
  (x < 10)%N ->
  is_digit09 (pretty_N_char x) = true
  /\ Z.of_N (byte_val (pretty_N_char x) - 48) = Z.of_N x
  /\ ((0 < x)%N -> in_range 49 57 (pretty_N_char x) = true).
Proof.
  intros H.
  assert (x = 0 \/ x = 1 \/ x = 2 \/ x = 3 \/ x = 4 \/ x = 5 \/ x = 6
          \/ x = 7 \/ x = 8 \/ x = 9)%N as Hx by lia.
  repeat destruct Hx as [-> | Hx]; try subst x;
    (split; [reflexivity | split; [reflexivity|]]); intros H0;
    try reflexivity; lia.
Qed.

(** The digits [pretty_N_go] puts in front of [s]. *)
Lemma pretty_N_go_digits (x : N) :
  forall s, exists d,
    pretty_N_go x s = d +:+ s
    /\ all_digits d = true
    /\ (forall acc,
           digits_value acc d
           = (acc * 10 ^ Z.of_nat (String.length d) + Z.of_N x)%Z)
    /\ ((0 < x)%N ->
        exists c d', d = String c d' /\ in_range 49 57 c = true)
    /\ (x = 0%N -> d = EmptyString).
Proof.
  induction (N.lt_wf_0 x) as [x _ IH]. intros s.
  destruct (N.eq_dec x 0%N) as [->|Hx].
  { exists EmptyString. rewrite pretty_N_go_0.
    split; [done|]. split; [done|].
    split; [intros acc; simpl; lia|]. split; [lia | done]. }
  assert (0 < x)%N as Hpos by lia.
  rewrite pretty_N_go_step by done.
  destruct (pretty_N_char_digit (x `mod` 10)%N) as (Hd & Hv & Hnz).
  { by apply N.mod_lt. }
  destruct (IH (x `div` 10)%N
              ltac:(by apply N.div_lt)
              (String (pretty_N_char (x `mod` 10)%N) s))
    as (d' & Heq & Hall & Hval & Hfirst & Hzero).
  exists (d' +:+ String (pretty_N_char (x `mod` 10)%N) EmptyString).
  split; [|split; [|split; [|split]]].
  - rewrite Heq, append_assoc. reflexivity.
  - rewrite all_digits_app, Hall. simpl. by rewrite Hd.
  - intros acc. rewrite digits_value_app, Hval. simpl.
    rewrite Hv, length_app. simpl String.length.
    rewrite Nat2Z.inj_add, Z.pow_add_r by lia.
    change (10 ^ Z.of_nat 1)%Z with 10%Z.
    pose proof (N.div_mod x 10%N ltac:(done)) as Hdm.
    apply (f_equal Z.of_N) in Hdm.
    rewrite N2Z.inj_add, N2Z.inj_mul in Hdm.
    change (Z.of_N 10) with 10%Z in Hdm. lia.
  - intros _. destruct (N.eq_dec (x `div` 10)%N 0%N) as [E|E].
    + rewrite (Hzero E). simpl.
      eexists _, _. split; [reflexivity|]. apply Hnz.
      rewrite N.div_small_iff in E by done.
      rewrite N.mod_small by done. done.
    + apply N.neq_0_lt_0 in E.
      destruct (Hfirst E) as (c & d'' & -> & Hc).
      eexists _, _. split; [reflexivity | exact Hc].
  - done.
Qed.

(** The decimal form of an integer: an optional minus sign, then digits,
    the first of which is not zero unless the integer is. *)
Lemma FormatInt_shape (n : Z) :
  exists (neg : bool) (d : string),
    FormatInt n = (if neg then "-" else EmptyString) +:+ d
    /\ neg = (n <? 0)%Z
    /\ all_digits d = true
    /\ digits_value 0 d = Z.abs n
    /\ ((n = 0%Z /\ d = "0")
        \/ exists c d', d = String c d' /\ in_range 49 57 c = true).
Proof.
  destruct n as [|p|p].
  - exists false, "0". repeat split; auto.
  - destruct (pretty_N_go_digits (Npos p) EmptyString)
      as (d & Heq & Hall & Hval & Hfirst & _).
    exists false, d. rewrite append_empty_r in Heq.
    split; [exact Heq|]. split; [done|]. split; [done|].
    split; [rewrite Hval; simpl; lia|]. right. by apply Hfirst.
  - destruct (pretty_N_go_digits (Npos p) EmptyString)
      as (d & Heq & Hall & Hval & Hfirst & _).
    exists true, d. rewrite append_empty_r in Heq.
    split.
    { unfold FormatInt, pretty, pretty_Z.
      change (pretty p) with (pretty_N_go (N.pos p) EmptyString).
      by rewrite Heq. }
    split; [done|]. split; [done|].
    split; [rewrite Hval; simpl; lia|]. right. by apply Hfirst.
Qed.

Lemma ParseInt_FormatInt (n : Z) :
  (- 2 ^ 63 <= n < 2 ^ 63)%Z -> ParseInt (FormatInt n) = Some n.
Proof.
  intros Hn.
  destruct (FormatInt_shape n) as (neg & d & -> & Hneg & Hall & Hval & Hd).
  assert (d <> EmptyString) as Hne.
  { destruct Hd as [[_ ->]|(c & d' & -> & _)]; done. }
  assert (exists c d', d = String c d' /\ c <> "-"%char) as (c & d' & -> & Hc).
  { destruct Hd as [[_ ->]|(c & d' & -> & Hr)].
    - by eexists _, _.
    - eexists _, _. split; [done|]. intros ->. by vm_compute in Hr. }
  remember (String c d') as ds eqn:Hds.
  destruct neg.
  - unfold ParseInt. simpl. rewrite Hall.
    rewrite (bool_decide_eq_false_2 (ds = EmptyString)) by done. simpl.
    rewrite Hval. symmetry in Hneg. apply Z.ltb_lt in Hneg.
    destruct (Z.leb_spec (- 2 ^ 63) (- Z.abs n)); [|lia].
    destruct (Z.ltb_spec (- Z.abs n) (2 ^ 63)); [|lia].
    simpl. f_equal. lia.
  - change (EmptyString +:+ ds) with ds. unfold ParseInt.
    rewrite Hds at 1. rewrite bool_decide_eq_false_2 by done.
    cbv beta iota zeta. rewrite Hall.
    rewrite (bool_decide_eq_false_2 (ds = EmptyString)) by done. simpl.
    rewrite Hval. symmetry in Hneg. apply Z.ltb_ge in Hneg.
    destruct (Z.leb_spec (- 2 ^ 63) (Z.abs n)); [|lia].
    destruct (Z.ltb_spec (Z.abs n) (2 ^ 63)); [|lia].
    simpl. f_equal. lia.
Qed.

(** ** The scanner on the text Save writes *)

Definition at_state (sc : Scan) (l : string) (stk : list Frame)
    (tp : option Tree) : Parser :=
  {| scan := sc; lit := l; stack := stk; top := tp |}.

Lemma run_digits (d : string) :
  all_digits d = true ->
  forall l stk tp,
    run (at_state Num1 l stk tp) d
    = Some (at_state Num1 (rev_onto d l) stk tp).
Proof.
  induction d as [|c d IH]; intros Hall l stk tp; [done|].
  simpl in Hall. apply andb_true_iff in Hall as [Hc Hd].
  rewrite run_cons.
  assert (step (at_state Num1 l stk tp) c
          = Some (at_state Num1 (String c l) stk tp)) as ->.
  { unfold step. simpl. by rewrite Hc. }
  by rewrite IH.
Qed.

Lemma nonzero_digit_cases (c : ascii) :
  in_range 49 57 c = true ->
  c = "1"%char \/ c = "2"%char \/ c = "3"%char \/ c = "4"%char
  \/ c = "5"%char \/ c = "6"%char \/ c = "7"%char \/ c = "8"%char
  \/ c = "9"%char.
Proof.
  intros H. apply in_range_spec in H.
  assert (byte_val c = 49 \/ byte_val c = 50 \/ byte_val c = 51
          \/ byte_val c = 52 \/ byte_val c = 53 \/ byte_val c = 54
          \/ byte_val c = 55 \/ byte_val c = 56 \/ byte_val c = 57)%N
    as Hx by lia.
  repeat destruct Hx as [Hx|Hx]; apply byte_val_inj in Hx; subst c; tauto.
Qed.

(** The scanner reads the decimal form of an integer as a number literal
    that is still open. *)
Lemma run_FormatInt (n : Z) (stk : list Frame) :
  exists sc,
    (sc = Num0 \/ sc = Num1)
    /\ run (at_state BeginValue EmptyString stk None) (FormatInt n)
       = Some (at_state sc (rev_onto (FormatInt n) EmptyString) stk None).
Proof.
  destruct (FormatInt_shape n) as (neg & d & -> & _ & Hall & _ & Hd).
  destruct Hd as [[_ ->]|(c & d' & -> & Hc)].
  { destruct neg; [exists Num0 | exists Num0]; split; auto. }
  simpl in Hall. apply andb_true_iff in Hall as [_ Hall].
  exists Num1. split; [by right|].
  pose proof (run_digits d' Hall) as Hrun.
  destruct neg.
  - change ("-" +:+ String c d') with (String "-"%char (String c d')).
    rewrite !run_cons.
    change (step (at_state BeginValue EmptyString stk None) "-"%char)
      with (Some (at_state NumNeg "-" stk None)).
    cbv beta iota. rewrite run_cons.
    assert (step (at_state NumNeg "-" stk None) c
            = Some (at_state Num1 (String c "-") stk None)) as ->.
    { destruct (nonzero_digit_cases c Hc) as
        [->|[->|[->|[->|[->|[->|[->|[->| ->]]]]]]]]; reflexivity. }
    by rewrite Hrun.
  - change (EmptyString +:+ String c d') with (String c d').
    rewrite run_cons.
    assert (step (at_state BeginValue EmptyString stk None) c
            = Some (at_state Num1 (String c EmptyString) stk None)) as ->.
    { destruct (nonzero_digit_cases c Hc) as
        [->|[->|[->|[->|[->|[->|[->|[->| ->]]]]]]]]; reflexivity. }
    by rewrite Hrun.
Qed.

Definition separator : string := "," +:+ newline +:+ spaces 1.
Definition closing : string := newline +:+ spaces 0 +:+ "}".

(** A member as [indented] writes it inside the top-level object. *)
Definition render (kv : string * Tree) : string :=
  quoted kv.1 +:+ ": " +:+ indented 1 kv.2.

(** The members Save writes: an escaped key with an escaped string or a
    decimal integer. *)
Definition flat_member (kv : string * Tree) : Prop :=
  (exists k, kv.1 = escape k)
  /\ ((exists v, kv.2 = TString (escape v))
      \/ (exists n, kv.2 = TNumber (FormatInt n))).

Definition member_start (sc : Scan) : Prop :=
  sc = BeginString \/ sc = BeginStringOrEmpty.

Lemma run_quoted (body : string) (sc : Scan) (stk : list Frame)
    (tail : string) :
  (sc = BeginString \/ sc = BeginStringOrEmpty \/ sc = BeginValue) ->
  (exists s, body = escape s) ->
  run (at_state sc EmptyString stk None) (quoted body +:+ tail)
  = match end_string (in_string (rev_onto body EmptyString) stk None) with
    | Some p => run p tail
    | None => None
    end.
Proof.
  intros Hsc [s ->]. unfold quoted.
  rewrite append_cons, run_cons.
  assert (step (at_state sc EmptyString stk None) dquote
          = Some (in_string EmptyString stk None)) as ->.
  { destruct Hsc as [->|[->| ->]]; reflexivity. }
  rewrite append_assoc, run_app.
  unfold escape. rewrite run_escape_go by done.
  rewrite append_cons, run_cons. reflexivity.
Qed.

(** A key and the colon after it. *)
Lemma run_key (kv : string * Tree) (sc : Scan) (ms : list (string * Tree))
    (stk : list Frame) (tail : string) :
  member_start sc -> (exists k, kv.1 = escape k) ->
  run (at_state sc EmptyString (FObject ms None :: stk) None)
    (quoted kv.1 +:+ ": " +:+ tail)
  = run (at_state BeginValue EmptyString
           (FObject ms (Some kv.1) :: stk) None) tail.
Proof.
  intros Hsc Hk. rewrite run_quoted; [|destruct Hsc; auto|done].
  unfold end_string, in_string, spelled. simpl stack. cbv iota.
  simpl lit. rewrite rev_onto_involutive. reflexivity.
Qed.

(** A value of a member and what follows it: the separator before the
    next member, or the end of the object. *)
Lemma run_value_separator (k : string) (t : Tree)
    (ms : list (string * Tree)) (stk : list Frame) (tail : string) :
  ((exists v, t = TString (escape v))
   \/ (exists n, t = TNumber (FormatInt n))) ->
  run (at_state BeginValue EmptyString (FObject ms (Some k) :: stk) None)
    (indented 1 t +:+ separator +:+ tail)
  = run (at_state BeginString EmptyString
           (FObject ((k, t) :: ms) None :: stk) None) tail.
Proof.
  intros [[v ->]|[n ->]].
  - change (indented 1 (TString (escape v))) with (quoted (escape v)).
    rewrite run_quoted; [|auto|by eexists].
    unfold end_string, in_string, spelled. simpl stack. cbv iota.
    simpl lit. rewrite rev_onto_involutive. reflexivity.
  - change (indented 1 (TNumber (FormatInt n))) with (FormatInt n).
    rewrite run_app.
    destruct (run_FormatInt n (FObject ms (Some k) :: stk))
      as (sc & Hsc & ->).
    cbv beta iota. unfold separator.
    change ("," +:+ newline +:+ spaces 1)
      with (String ","%char (newline +:+ spaces 1)).
    rewrite append_cons, run_cons.
    assert (step (at_state sc (rev_onto (FormatInt n) EmptyString)
                    (FObject ms (Some k) :: stk) None) ","%char
            = Some (at_state BeginString EmptyString
                      (FObject ((k, TNumber (FormatInt n)) :: ms) None
                       :: stk) None)) as ->.
    { destruct Hsc as [-> | ->]; unfold step, end_number, spelled; simpl;
        by rewrite rev_onto_involutive. }
    reflexivity.
Qed.

Lemma run_value_closing (k : string) (t : Tree)
    (ms : list (string * Tree)) :
  ((exists v, t = TString (escape v))
   \/ (exists n, t = TNumber (FormatInt n))) ->
  run (at_state BeginValue EmptyString [FObject ms (Some k)] None)
    (indented 1 t +:+ closing)
  = Some (at_state EndTop EmptyString []
            (Some (TObject (rev ((k, t) :: ms))))).
Proof.
  intros [[v ->]|[n ->]].
  - change (indented 1 (TString (escape v))) with (quoted (escape v)).
    rewrite run_quoted; [|auto|by eexists].
    unfold end_string, in_string, spelled. simpl stack. cbv iota.
    simpl lit. rewrite rev_onto_involutive. reflexivity.
  - change (indented 1 (TNumber (FormatInt n))) with (FormatInt n).
    rewrite run_app.
    destruct (run_FormatInt n [FObject ms (Some k)]) as (sc & Hsc & ->).
    cbv beta iota. unfold closing.
    change (newline +:+ spaces 0 +:+ "}")
      with (String "010"%char (String "}"%char EmptyString)).
    rewrite run_cons.
    assert (step (at_state sc (rev_onto (FormatInt n) EmptyString)
                    [FObject ms (Some k)] None) "010"%char
            = Some (at_state EndValue EmptyString
                      [FObject ((k, TNumber (FormatInt n)) :: ms) None]
                      None)) as ->.
    { destruct Hsc as [-> | ->]; unfold step, end_number, spelled; simpl;
        by rewrite rev_onto_involutive. }
    reflexivity.
Qed.

Lemma run_members (members : list (string * Tree)) :
  Forall flat_member members -> members <> [] ->
  forall sc ms,
    member_start sc ->
    run (at_state sc EmptyString [FObject ms None] None)
      (join separator (map render members) +:+ closing)
    = Some (at_state EndTop EmptyString []
              (Some (TObject (rev ms ++ members)))).
Proof.
  induction 1 as [|kv rest [Hk Hv] Hrest IH]; intros Hne sc ms Hsc;
    [done|].
  destruct rest as [|kv' rest].
  - change (join separator (map render [kv])) with (render kv).
    unfold render. rewrite !append_assoc.
    rewrite run_key by done.
    rewrite run_value_closing by done.
    destruct kv. simpl. reflexivity.
  - change (join separator (map render (kv :: kv' :: rest)))
      with (render kv +:+ separator
            +:+ join separator (map render (kv' :: rest))).
    unfold render at 1. rewrite !append_assoc.
    rewrite run_key by done.
    rewrite run_value_separator by done.
    rewrite IH; [|done|by left].
    destruct kv. simpl. by rewrite <- app_assoc.
Qed.

(** Parsing the indented form of an object of such members gives the
    members back. *)
Lemma parse_indented_object (members : list (string * Tree)) :
  Forall flat_member members -> members <> [] ->
  parse (indented 0 (TObject members)) = Some (TObject members).
Proof.
  intros Hflat Hne. destruct members as [|kv rest]; [done|].
  change (indented 0 (TObject (kv :: rest)))
    with ("{" +:+ newline +:+ spaces 1
          +:+ join separator (map render (kv :: rest)) +:+ closing).
  unfold parse.
  change ("{" +:+ newline +:+ spaces 1 +:+ ?x)
    with (String "{"%char (String "010"%char (String " "%char
            (String " "%char x)))).
  assert (forall c, isSpace c = true ->
            step (at_state BeginStringOrEmpty EmptyString
                    [FObject [] None] None) c
            = Some (at_state BeginStringOrEmpty EmptyString
                      [FObject [] None] None)) as Hspace.
  { intros c Hc. unfold step. simpl. by rewrite Hc. }
  rewrite run_cons.
  change (step start "{"%char)
    with (Some (at_state BeginStringOrEmpty EmptyString
                  [FObject [] None] None)).
  cbv beta iota.
  rewrite run_cons, Hspace by reflexivity.
  rewrite run_cons, Hspace by reflexivity.
  rewrite run_cons, Hspace by reflexivity.
  rewrite (run_members (kv :: rest) Hflat Hne); [|by right].
  reflexivity.
Qed.

(** ** Decoding what Save wrote *)

Definition int64 (n : Z) : Prop := (- 2 ^ 63 <= n < 2 ^ 63)%Z.

(** A configuration Go can hold and JSON can carry unchanged: every
    string is valid UTF-8 and the two ints are in the range of int. *)
Definition well_formed (c : Config) : Prop :=
  ValidString (APIURL c) = true
  /\ ValidString (AccessToken c) = true
  /\ ValidString (RefreshToken c) = true
  /\ ValidString (UserEmail c) = true
  /\ ValidString (DefaultCloud c) = true
  /\ ValidString (DefaultRegion c) = true
  /\ int64 (DefaultCompute c)
  /\ int64 (DefaultMemory c).

Lemma decode_members_string (c : Config) (name : string) (f : FieldName)
    (v : string) (rest : list (string * Tree)) :
  unquote name = Some name -> field_of name = Some f ->
  is_int_field f = false -> ValidString v = true ->
  decode_members c ((name, TString (escape v)) :: rest)
  = decode_members (set_string c f v) rest.
Proof.
  intros Hname Hf Hint Hv. cbn [decode_members]. unfold decode_member.
  rewrite Hname, Hf, Hint, (unquote_escape v Hv). reflexivity.
Qed.

Lemma decode_members_int (c : Config) (name : string) (f : FieldName)
    (n : Z) (rest : list (string * Tree)) :
  unquote name = Some name -> field_of name = Some f ->
  is_int_field f = true -> int64 n ->
  decode_members c ((name, TNumber (FormatInt n)) :: rest)
  = decode_members (set_int c f n) rest.
Proof.
  intros Hname Hf Hint Hn. cbn [decode_members]. unfold decode_member.
  rewrite Hname, Hf, Hint, (ParseInt_FormatInt n Hn). reflexivity.
Qed.

Lemma members_of_to_tree (c : Config) :
  exists members,
    to_tree c = TObject members /\ members <> []
    /\ Forall flat_member members.
Proof.
  eexists. split; [reflexivity|]. split; [done|].
  assert (forall name v, (exists k, name = escape k) ->
            Forall flat_member (string_member name v)) as Hs.
  { intros name v Hk. constructor; [|constructor].
    split; [done|]. left. by eexists. }
  assert (forall name v, (exists k, name = escape k) ->
            Forall flat_member (string_member_omitempty name v)) as Hso.
  { intros name v Hk. unfold string_member_omitempty.
    case_bool_decide; [constructor|by apply Hs]. }
  assert (forall name n, (exists k, name = escape k) ->
            Forall flat_member (int_member_omitempty name n)) as Hio.
  { intros name n Hk. unfold int_member_omitempty.
    case_bool_decide; constructor; [|constructor].
    split; [done|]. right. by eexists. }
  repeat apply Forall_app_2;
    first [apply Hs | apply Hso | apply Hio];
    match goal with |- exists k, ?name = _ => exists name end;
    by vm_compute.
Qed.

Lemma decode_to_tree (c : Config) (members : list (string * Tree)) :
  well_formed c -> to_tree c = TObject members ->
  decode_members zero members = Some c.
Proof.
  destruct c as [a t r u cl rg cp mm].
  intros (Ha & Ht & Hr & Hu & Hcl & Hrg & Hcp & Hmm) [= <-].
  cbn [APIURL AccessToken RefreshToken UserEmail DefaultCloud DefaultRegion
       DefaultCompute DefaultMemory] in *.
  unfold string_member, string_member_omitempty, int_member_omitempty.
  cbn [app].
  rewrite (decode_members_string _ "api_url" F_api_url)
    by first [done | by vm_compute].
  rewrite (decode_members_string _ "access_token" F_access_token)
    by first [done | by vm_compute].
  rewrite (decode_members_string _ "refresh_token" F_refresh_token)
    by first [done | by vm_compute].
  rewrite (decode_members_string _ "user_email" F_user_email)
    by first [done | by vm_compute].
  repeat case_bool_decide; subst; unfold string_member; cbn [app];
    rewrite ?(decode_members_string _ "default_cloud" F_default_cloud)
      by first [done | by vm_compute];
    rewrite ?(decode_members_string _ "default_region" F_default_region)
      by first [done | by vm_compute];
    rewrite ?(decode_members_int _ "default_compute" F_default_compute)
      by first [done | by vm_compute];
    rewrite ?(decode_members_int _ "default_memory" F_default_memory)
      by first [done | by vm_compute];
    reflexivity.
Qed.

Lemma Unmarshal_MarshalIndent (c : Config) :
  well_formed c -> Config.Unmarshal (MarshalIndent c) = Some c.
Proof.
  intros Hc. destruct (members_of_to_tree c) as (members & Ht & Hne & Hflat).
  unfold Config.Unmarshal, MarshalIndent. rewrite Ht.
  rewrite (parse_indented_object members Hflat Hne).
  by apply decode_to_tree.
Qed.

Definition readable (fs : FileSystem) : Prop := read_error fs = None.

(** X1. A configuration with valid UTF-8 strings that Save stored without
    an error is what the next Load returns, field by field, whatever the
    file held before; Load leaves the file as Save wrote it. *)
Theorem save_then_load_returns_the_saved_config (c : Config)
    (fs : FileSystem) :
  well_formed c -> readable fs ->
  (Save c fs).1 = None ->
  file (Save c fs).2 = Some (MarshalIndent c)
  /\ Load (Save c fs).2 = (Ok c, (Save c fs).2).
Proof.
  intros Hc Hread Hsave. unfold Save in *.
  destruct (mkdir_error fs); [done|].
  destruct (write_error fs) as [[? | ? ?]|] eqn:Hw; try done.
  cbn [snd]. split; [reflexivity|].
  unfold Load, with_file. cbn [file read_error].
  unfold readable in Hread. rewrite Hread.
  by rewrite (Unmarshal_MarshalIndent c Hc).
Qed.

Definition sample_config : Config :=
  {| APIURL := "https://api.kubespaces.io"; AccessToken := "a<b&c";
     RefreshToken := "r/1"; UserEmail := "dev@example.com";
     DefaultCloud := "eks"; DefaultRegion := EmptyString;
     DefaultCompute := (-3)%Z; DefaultMemory := 0%Z |}.

Definition empty_disk : FileSystem :=
  {| file := Some "not json"; mkdir_error := None; write_error := None;
     read_error := None |}.

Lemma save_then_load_returns_the_saved_config_witness :
  well_formed sample_config /\ readable empty_disk
  /\ (Save sample_config empty_disk).1 = None
  /\ Load (Save sample_config empty_disk).2
     = (Ok sample_config, (Save sample_config empty_disk).2).
Proof.
  assert (well_formed sample_config) as Hc.
  { unfold well_formed, int64. repeat split; vm_compute; congruence. }
  split; [exact Hc|]. split; [reflexivity|]. split; [reflexivity|].
  apply (save_then_load_returns_the_saved_config sample_config empty_disk);
    [exact Hc | reflexivity | reflexivity].
Defined.

End StoreFacts.

(* ===================================================================== *)
(** * Theorems: what a request can and cannot change                      *)
(* ===================================================================== *)

Section TransportInvariants.
Import Go Json Config Api.

(** The part of the configuration that is not a credential. *)
Definition settings (c : Config) : string * string * string * Z * Z :=
  (APIURL c, DefaultCloud c, DefaultRegion c, DefaultCompute c,
   DefaultMemory c).

(** [st'] comes from [st] by at most [n] requests, all to one of [urls],
    by debug lines when the debug flag is set, and by changes to the
    credentials and the file: the settings are the same. *)
Definition extends (c : Client) (n : nat) (urls : list string)
    (st st' : State) : Prop :=
  settings (config st') = settings (config st)
  /\ (exists sent,
        calls st' = calls st ++ sent /\ (length sent <= n)%nat
        /\ Forall (fun r => URL r ∈ urls) sent)
  /\ (exists lines,
        stderr st' = stderr st ++ lines /\ (debug c = false -> lines = [])).

Lemma extends_refl (c : Client) (n : nat) (urls : list string) (st : State) :
  extends c n urls st st.
Proof.
  split; [done|]. split.
  - exists []. rewrite app_nil_r. repeat split; [simpl; lia|constructor].
  - exists []. by rewrite app_nil_r.
Qed.

Lemma extends_trans (c : Client) (n1 n2 : nat) (urls : list string)
    (st0 st1 st2 : State) :
  extends c n1 urls st0 st1 -> extends c n2 urls st1 st2 ->
  extends c (n1 + n2) urls st0 st2.
Proof.
  intros (Hs1 & (s1 & Hc1 & Hl1 & Hu1) & (l1 & He1 & Hd1))
         (Hs2 & (s2 & Hc2 & Hl2 & Hu2) & (l2 & He2 & Hd2)).
  split; [congruence|]. split.
  - exists (s1 ++ s2). rewrite Hc2, Hc1, <- app_assoc.
    repeat split; [rewrite List.length_app; lia|by apply Forall_app_2].
  - exists (l1 ++ l2). rewrite He2, He1, <- app_assoc.
    split; [done|]. intros Hd. by rewrite Hd1, Hd2.
Qed.

Lemma extends_weaken (c : Client) (n m : nat) (urls : list string)
    (st st' : State) :
  (n <= m)%nat -> extends c n urls st st' -> extends c m urls st st'.
Proof.
  intros Hnm (Hs & (s & Hc & Hl & Hu) & He).
  split; [done|]. split; [|done]. exists s. repeat split; [done|lia|done].
Qed.

Lemma extends_log (c : Client) (urls : list string) (line : string)
    (st : State) :
  extends c 0 urls st (log c line st).
Proof.
  split; [by rewrite log_config|]. split.
  - exists []. rewrite log_calls, app_nil_r.
    repeat split; [simpl; lia|constructor].
  - unfold log. destruct (debug c); cbn [stderr].
    + exists [line]. by split.
    + exists []. by rewrite app_nil_r.
Qed.

Lemma extends_Do (env : Env) (c : Client) (urls : list string)
    (req : Request) (st : State) :
  URL req ∈ urls -> extends c 1 urls st (Do env req st).2.
Proof.
  intros Hurl. unfold Do. cbn [snd]. split; [done|]. split.
  - exists [req]. cbn [calls]. repeat split; [simpl; lia|].
    by constructor.
  - exists []. cbn [stderr]. by rewrite app_nil_r.
Qed.

(** Storing credentials, and saving. *)
Lemma extends_credentials (c : Client) (urls : list string) (st : State)
    (cfg : Config) :
  settings cfg = settings (config st) ->
  extends c 0 urls st (save_config (set_config st cfg)).2.
Proof.
  intros Hs. unfold save_config, set_config, set_fs. cbn [config fs].
  destruct (Save cfg (Api.fs st)) as [err fs']. cbn [snd].
  split; [done|]. split.
  - exists []. cbn [calls]. rewrite app_nil_r.
    repeat split; [simpl; lia|constructor].
  - exists []. cbn [stderr]. by rewrite app_nil_r.
Qed.

Lemma extends_set_config (c : Client) (urls : list string) (st : State)
    (cfg : Config) :
  settings cfg = settings (config st) ->
  extends c 0 urls st (set_config st cfg).
Proof.
  intros Hs. split; [done|]. split.
  - exists []. cbn [calls set_config]. rewrite app_nil_r.
    repeat split; [simpl; lia|constructor].
  - exists []. cbn [stderr set_config]. by rewrite app_nil_r.
Qed.

Lemma refreshToken_extends (env : Env) (c : Client) (urls : list string)
    (st : State) :
  refresh_url c ∈ urls ->
  extends c 1 urls st (refreshToken env c st).2.
Proof.
  intros Hurl. unfold refreshToken. cbv zeta.
  set (st1 := log c _ (log c _ st)).
  assert (extends c 0 urls st st1) as H1.
  { unfold st1. eapply (extends_trans c 0 0 urls); apply extends_log. }
  destruct (newRequestError env "POST" (refresh_url c)).
  { cbn [snd]. apply (extends_weaken c 0 1); [lia|done]. }
  pose proof (extends_Do env c urls
                (refresh_request c (RefreshToken (config st1))) st1 Hurl)
    as H2.
  destruct (Do env (refresh_request c (RefreshToken (config st1))) st1)
    as [r st2]. cbn [snd] in H2.
  pose proof (extends_trans c 0 1 urls st st1 st2 H1 H2) as H02.
  destruct r as [resp|e]; [|done].
  set (st3 := log c _ st2).
  assert (extends c 1 urls st st3) as H03.
  { apply (extends_trans c 1 0 urls st st2 st3 H02), extends_log. }
  destruct (negb (StatusCode resp =? 200)%Z).
  - pose proof (extends_credentials c urls st3 (ClearAuth (config st3))
                  eq_refl) as H4.
    destruct (save_config (set_config st3 (ClearAuth (config st3))))
      as [err st4]. cbn [snd] in *.
    apply (extends_trans c 1 0 urls st st3 st4 H03 H4).
  - destruct (decodeLoginResponse env (ResponseBody resp)) as [lr|e];
      [|done].
    pose proof (extends_credentials c urls st3
                  (UpdateTokens (config st3) (LR_AccessToken lr)
                     (LR_RefreshToken lr) (LR_UserEmail lr)) eq_refl) as H4.
    destruct (save_config _) as [err st4]. cbn [snd] in H4.
    pose proof (extends_trans c 1 0 urls st st3 st4 H03 H4) as H04.
    by destruct err.
Qed.

Lemma doRequest_extends (env : Env) (c : Client) (method path : string)
    (body : option (result string)) (st : State) :
  extends c 3 [baseURL c +:+ path; refresh_url c] st
    (doRequest env c method path body st).2.
Proof.
  set (urls := [baseURL c +:+ path; refresh_url c]).
  assert (baseURL c +:+ path ∈ urls) as Hpath
    by (apply elem_of_cons; by left).
  assert (refresh_url c ∈ urls) as Hrefresh
    by (apply elem_of_cons; right; apply elem_of_cons; by left).
  unfold doRequest.
  destruct body as [[b|e]|]; [| apply extends_refl |].
  all: destruct (newRequestError env method (baseURL c +:+ path));
    [apply extends_refl|].
  all: cbv zeta.
  all: match goal with
       | |- context [Do _ ?req ?s] =>
           set (req0 := req); set (st1 := s)
       end.
  all: assert (extends c 0 urls st st1) as H1.
  1: { unfold st1. destruct (bool_decide (b = EmptyString)).
       - apply extends_log.
       - eapply (extends_trans c 0 0 urls); apply extends_log. }
  2: { apply extends_log. }
  all: pose proof (extends_Do env c urls req0 st1 Hpath) as H2.
  all: destruct (Do env req0 st1) as [r st2]; cbn [snd] in H2.
  all: pose proof (extends_trans c 0 1 urls st st1 st2 H1 H2) as H02.
  all: destruct r as [resp|e];
    [|apply (extends_weaken c 1 3); [lia|done]].
  all: destruct ((StatusCode resp =? StatusUnauthorized)%Z
                 && negb (bool_decide (RefreshToken (config st2)
                                       = EmptyString)));
    [|cbn [snd];
      apply (extends_weaken c 1 3); [lia|];
      apply (extends_trans c 1 0 urls st st2 _ H02), extends_log].
  all: pose proof (refreshToken_extends env c urls st2 Hrefresh) as H3.
  all: destruct (refreshToken env c st2) as [err st3]; cbn [snd] in H3.
  all: pose proof (extends_trans c 1 1 urls st st2 st3 H02 H3) as H03.
  all: destruct err; [apply (extends_weaken c 2 3); [lia|done]|].
  all: match goal with
       | |- context [Do _ ?req ?s] =>
           pose proof (extends_Do env c urls req s Hpath) as H4;
           destruct (Do env req s) as [r' st4]
       end.
  all: cbn [snd] in H4.
  all: pose proof (extends_trans c 2 1 urls st st3 st4 H03 H4) as H04.
  all: destruct r' as [resp'|e']; [|done].
  all: cbn [snd].
  all: apply (extends_trans c 3 0 urls st st4 _ H04), extends_log.
Qed.

(** X2. Whatever the remote end does, one call of [doRequest] hands at
    most three requests to the HTTP client, each to the URL asked for or
    to the refresh endpoint, after the requests made before. *)
Theorem doRequest_sends_at_most_three_requests (env : Env) (c : Client)
    (method path : string) (body : option (result string)) (st : State) :
  exists sent,
    calls (doRequest env c method path body st).2 = calls st ++ sent
    /\ (length sent <= 3)%nat
    /\ Forall (fun r => URL r = baseURL c +:+ path \/ URL r = refresh_url c)
         sent.
Proof.
  destruct (doRequest_extends env c method path body st)
    as (_ & (sent & Hc & Hl & Hu) & _).
  exists sent. repeat split; [done|done|].
  eapply Forall_impl; [exact Hu|]. intros r Hr. cbv beta in Hr.
  apply elem_of_cons in Hr as [Hr|Hr]; [by left|].
  apply elem_of_cons in Hr as [Hr|Hr]; [by right|].
  by apply elem_of_nil in Hr.
Qed.

(** X3. [doRequest] can replace the credentials, never the settings: the
    API URL and the four defaults of the configuration are after the call
    what they were before it, on every path. *)
Theorem doRequest_keeps_the_settings (env : Env) (c : Client)
    (method path : string) (body : option (result string)) (st : State) :
  let cfg := config (doRequest env c method path body st).2 in
  APIURL cfg = APIURL (config st)
  /\ DefaultCloud cfg = DefaultCloud (config st)
  /\ DefaultRegion cfg = DefaultRegion (config st)
  /\ DefaultCompute cfg = DefaultCompute (config st)
  /\ DefaultMemory cfg = DefaultMemory (config st).
Proof.
  destruct (doRequest_extends env c method path body st) as (Hs & _).
  unfold settings in Hs. cbv zeta. by injection Hs as -> -> -> -> ->.
Qed.

(** X4. Standard error only grows, and without the debug flag
    [doRequest] writes nothing to it, on every path. *)
Theorem doRequest_logs_only_under_debug (env : Env) (c : Client)
    (method path : string) (body : option (result string)) (st : State) :
  exists lines,
    stderr (doRequest env c method path body st).2 = stderr st ++ lines
    /\ (debug c = false -> lines = []).
Proof.
  by destruct (doRequest_extends env c method path body st) as (_ & _ & H).
Qed.

(** What [refreshToken] does once its request is built, case by case. *)
Lemma refreshToken_outcome (env : Env) (c : Client) (st : State) :
  let req := refresh_request c (RefreshToken (config st)) in
  newRequestError env "POST" (refresh_url c) = None ->
  exists st',
    calls st' = calls st ++ [req]
    /\ match roundTrip env (calls st) req with
       | Fail e =>
           refreshToken env c st
           = (Some (Wrap "refresh request failed: " e), st')
           /\ config st' = config st /\ Api.fs st' = Api.fs st
       | Ok resp =>
           if (StatusCode resp =? 200)%Z then
             match decodeLoginResponse env (ResponseBody resp) with
             | Fail e =>
                 refreshToken env c st
                 = (Some (Wrap "failed to decode refresh response: " e), st')
                 /\ config st' = config st /\ Api.fs st' = Api.fs st
             | Ok lr =>
                 let cfg :=
                   UpdateTokens (config st) (LR_AccessToken lr)
                     (LR_RefreshToken lr) (LR_UserEmail lr) in
                 refreshToken env c st
                 = (match (Save cfg (Api.fs st)).1 with
                    | Some e =>
                        Some (Wrap "failed to save updated config: " e)
                    | None => None
                    end, st')
                 /\ config st' = cfg
                 /\ Api.fs st' = (Save cfg (Api.fs st)).2
             end
           else
             refreshToken env c st
             = (Some (session_expired (StatusCode resp)), st')
             /\ config st' = ClearAuth (config st)
             /\ Api.fs st' = (Save (ClearAuth (config st)) (Api.fs st)).2
       end.
Proof.
  intros req Hnew. unfold refreshToken, req. rewrite Hnew.
  unfold log, Do, save_config, set_config, set_fs.
  destruct (debug c); cbn [config fs calls stderr].
  all: destruct (roundTrip env (calls st) _) as [resp|e];
    [|eexists; refine (conj _ (conj eq_refl _));
      cbn [config fs calls]; done].
  all: cbn [config fs calls stderr].
  all: destruct (StatusCode resp =? 200)%Z; cbn [negb].
  all: try (destruct (Save (ClearAuth (config st)) (Api.fs st))
              as [err fs'];
            eexists; refine (conj _ (conj eq_refl _));
            cbn [config fs calls snd]; done).
  all: destruct (decodeLoginResponse env (ResponseBody resp)) as [lr|e];
    [|eexists; refine (conj _ (conj eq_refl _));
      cbn [config fs calls]; done].
  all: cbn [config fs calls stderr]; cbv zeta.
  all: destruct (Save _ (Api.fs st)) as [err fs'].
  all: destruct err; eexists; refine (conj _ (conj eq_refl _));
    cbn [config fs calls fst snd]; done.
Qed.

(** [doRequest] when the first request fails in transport. *)
Lemma doRequest_transport_failure (env : Env) (c : Client)
    (method path : string) (jsonBody : option string) (st : State)
    (e : error) :
  newRequestError env method (baseURL c +:+ path) = None ->
  roundTrip env (calls st) (new_request c (config st) method path jsonBody)
  = Fail e ->
  doRequest env c method path (Ok <$> jsonBody) st
  = (Fail (Wrap "request failed: " e),
     after_send env c method path jsonBody st).
Proof.
  intros Hnew Hrt.
  destruct (before_send_same env c method path jsonBody st) as (Hc & Hf & Hl).
  unfold doRequest, after_send.
  destruct jsonBody as [b|]; simpl in *; rewrite Hnew;
    unfold Do; rewrite Hl, Hrt; reflexivity.
Qed.

(** X5. The credentials and the file change only through a 401 that
    meets a refresh token: when the first request fails in transport or
    is answered otherwise, [doRequest] has made that one request and the
    configuration and the file are what they were. *)
Theorem credentials_change_only_after_unauthorized (env : Env)
    (c : Client) (method path : string) (jsonBody : option string)
    (st : State) :
  let req := new_request c (config st) method path jsonBody in
  let st' := (doRequest env c method path (Ok <$> jsonBody) st).2 in
  newRequestError env method (baseURL c +:+ path) = None ->
  (forall resp,
     roundTrip env (calls st) req = Ok resp ->
     StatusCode resp <> StatusUnauthorized
     \/ RefreshToken (config st) = EmptyString) ->
  config st' = config st /\ Api.fs st' = Api.fs st
  /\ calls st' = calls st ++ [req].
Proof.
  intros req st' Hnew Hresp. subst st' req.
  destruct (after_send_same env c method path jsonBody st) as (Hc & Hf & Hl).
  destruct (roundTrip env (calls st) _) as [resp|e] eqn:Hrt.
  - rewrite (doRequest_first_response env c method path jsonBody st resp)
      by done.
    cbv zeta. rewrite Hc.
    assert ((StatusCode resp =? StatusUnauthorized)%Z
            && negb (bool_decide (RefreshToken (config st) = EmptyString))
            = false) as ->.
    { destruct (Hresp resp eq_refl) as [Hs|He].
      - apply Z.eqb_neq in Hs. by rewrite Hs.
      - rewrite bool_decide_eq_true_2 by done. apply andb_false_r. }
    cbn [snd]. by rewrite log_config, log_fs, log_calls.
  - by rewrite (doRequest_transport_failure env c method path jsonBody st e).
Qed.

Lemma credentials_change_only_after_unauthorized_witness :
  let env := env_of [response 404 "not found"] in
  let st := state_of logged_in (disk None None) in
  config (doRequest env client "GET" orgs_path None st).2 = logged_in
  /\ Api.fs (doRequest env client "GET" orgs_path None st).2 = disk None None
  /\ calls (doRequest env client "GET" orgs_path None st).2
     = [new_request client logged_in "GET" orgs_path None].
Proof.
  apply (credentials_change_only_after_unauthorized
           (env_of [response 404 "not found"]) client "GET" orgs_path None
           (state_of logged_in (disk None None))).
  - reflexivity.
  - intros resp [= <-]. left. by vm_compute.
Defined.

(** X6. A refresh that the server accepts but whose tokens cannot be
    saved fails the whole request: [doRequest] returns the save error
    under the prefix authentication failed, makes no retry, and keeps
    the new tokens in memory. *)
Theorem refresh_that_cannot_be_saved_fails_the_request (env : Env)
    (c : Client) (method path : string) (jsonBody : option string)
    (st : State) (resp answer : Response) (lr : LoginResponse)
    (e : error) :
  let req := new_request c (config st) method path jsonBody in
  let refresh := refresh_request c (RefreshToken (config st)) in
  let cfg :=
    UpdateTokens (config st) (LR_AccessToken lr) (LR_RefreshToken lr)
      (LR_UserEmail lr) in
  newRequestError env method (baseURL c +:+ path) = None ->
  newRequestError env "POST" (refresh_url c) = None ->
  roundTrip env (calls st) req = Ok resp ->
  StatusCode resp = StatusUnauthorized ->
  RefreshToken (config st) <> EmptyString ->
  roundTrip env (calls st ++ [req]) refresh = Ok answer ->
  StatusCode answer = 200%Z ->
  decodeLoginResponse env (ResponseBody answer) = Ok lr ->
  (Save cfg (Api.fs st)).1 = Some e ->
  exists st',
    doRequest env c method path (Ok <$> jsonBody) st
    = (Fail (Wrap "authentication failed: "
               (Wrap "failed to save updated config: " e)), st')
    /\ config st' = cfg
    /\ calls st' = calls st ++ [req; refresh].
Proof.
  intros req refresh cfg Hnew Hnew2 Hrt H401 Htoken Hrt2 H200 Hlr Hsave.
  rewrite (doRequest_first_response env c method path jsonBody st resp)
    by done.
  destruct (after_send_same env c method path jsonBody st) as (Hc & Hf & Hl).
  cbv zeta. rewrite Hc, H401, Z.eqb_refl.
  rewrite bool_decide_eq_false_2 by done. cbn [andb negb].
  destruct (refreshToken_outcome env c
              (after_send env c method path jsonBody st) Hnew2)
    as (st2 & Hcalls & Hout).
  rewrite Hc, Hl in Hout. fold req refresh in Hout.
  rewrite Hrt2, H200, Hlr in Hout. cbn [Z.eqb Pos.eqb] in Hout.
  rewrite ?Hc, ?Hf in Hout. fold cfg in Hout. rewrite Hsave in Hout.
  destruct Hout as (-> & Hcfg & _).
  exists st2. split; [reflexivity|]. split; [done|].
  rewrite Hcalls, Hl, Hc, <- app_assoc. reflexivity.
Qed.

Lemma refresh_that_cannot_be_saved_fails_the_request_witness :
  let env := env_of [response 401 "expired"; response 200 login_answer] in
  let st := state_of logged_in (disk None (Some (WriteFailed (New "disk full") 0))) in
  exists st',
    doRequest env client "GET" orgs_path None st
    = (Fail (Wrap "authentication failed: "
               (Wrap "failed to save updated config: "
                  (Wrap "failed to write config file: "
                     (New "disk full")))), st')
    /\ config st'
       = UpdateTokens logged_in "new-access" "new-refresh"
           "user@example.com"
    /\ calls st'
       = [new_request client logged_in "GET" orgs_path None;
          refresh_request client "old-refresh"].
Proof.
  apply (refresh_that_cannot_be_saved_fails_the_request
           (env_of [response 401 "expired"; response 200 login_answer])
           client "GET" orgs_path None
           (state_of logged_in (disk None (Some (WriteFailed (New "disk full") 0))))
           {| StatusCode := 401; ResponseBody := "expired" |}
           {| StatusCode := 200; ResponseBody := login_answer |}
           {| LR_AccessToken := "new-access";
              LR_RefreshToken := "new-refresh";
              LR_UserEmail := "user@example.com" |}
           (Wrap "failed to write config file: " (New "disk full")));
    first [reflexivity | by vm_compute].
Defined.

(** X7. A refresh that fails before the server has judged the token (the
    refresh request fails in transport, or its 200 answer cannot be
    decoded) keeps the stored credentials and the file: [doRequest]
    fails under the prefix authentication failed after two requests. *)
Theorem refresh_that_gets_no_verdict_keeps_the_credentials (env : Env)
    (c : Client) (method path : string) (jsonBody : option string)
    (st : State) (resp : Response) :
  let req := new_request c (config st) method path jsonBody in
  let refresh := refresh_request c (RefreshToken (config st)) in
  newRequestError env method (baseURL c +:+ path) = None ->
  newRequestError env "POST" (refresh_url c) = None ->
  roundTrip env (calls st) req = Ok resp ->
  StatusCode resp = StatusUnauthorized ->
  RefreshToken (config st) <> EmptyString ->
  (match roundTrip env (calls st ++ [req]) refresh with
   | Fail _ => True
   | Ok answer =>
       StatusCode answer = 200%Z
       /\ is_ok (decodeLoginResponse env (ResponseBody answer)) = false
   end) ->
  exists e st',
    doRequest env c method path (Ok <$> jsonBody) st
    = (Fail (Wrap "authentication failed: " e), st')
    /\ config st' = config st
    /\ Api.fs st' = Api.fs st
    /\ calls st' = calls st ++ [req; refresh].
Proof.
  intros req refresh Hnew Hnew2 Hrt H401 Htoken Hverdict.
  rewrite (doRequest_first_response env c method path jsonBody st resp)
    by done.
  destruct (after_send_same env c method path jsonBody st) as (Hc & Hf & Hl).
  cbv zeta. rewrite Hc, H401, Z.eqb_refl.
  rewrite bool_decide_eq_false_2 by done. cbn [andb negb].
  destruct (refreshToken_outcome env c
              (after_send env c method path jsonBody st) Hnew2)
    as (st2 & Hcalls & Hout).
  rewrite Hc, Hl in Hout. fold req refresh in Hout.
  assert (calls st2 = calls st ++ [req; refresh]) as Hcalls2.
  { rewrite Hcalls, Hl, Hc, <- app_assoc. reflexivity. }
  destruct (roundTrip env (calls st ++ [req]) refresh) as [answer|e].
  - destruct Hverdict as [H200 Hdec]. rewrite H200 in Hout.
    cbn [Z.eqb Pos.eqb] in Hout.
    destruct (decodeLoginResponse env (ResponseBody answer)) as [lr|e];
      [done|].
    destruct Hout as (-> & Hcfg & Hfs).
    eexists _, st2. split; [reflexivity|]. by rewrite Hcfg, Hfs, ?Hc, ?Hf.
  - destruct Hout as (-> & Hcfg & Hfs).
    eexists _, st2. split; [reflexivity|]. by rewrite Hcfg, Hfs, ?Hc, ?Hf.
Qed.

Lemma refresh_that_gets_no_verdict_keeps_the_credentials_witness :
  let env := env_of [response 401 "expired"; response 200 "<html>"] in
  let st := state_of logged_in (disk None None) in
  exists e st',
    doRequest env client "GET" orgs_path None st
    = (Fail (Wrap "authentication failed: " e), st')
    /\ config st' = logged_in
    /\ Api.fs st' = disk None None
    /\ calls st'
       = [new_request client logged_in "GET" orgs_path None;
          refresh_request client "old-refresh"].
Proof.
  apply (refresh_that_gets_no_verdict_keeps_the_credentials
           (env_of [response 401 "expired"; response 200 "<html>"])
           client "GET" orgs_path None
           (state_of logged_in (disk None None))
           {| StatusCode := 401; ResponseBody := "expired" |});
    first [reflexivity | by vm_compute].
Defined.

End TransportInvariants.

(* ===================================================================== *)
(** * Theorems: request bodies, debug lines and error responses           *)
(* ===================================================================== *)

Section WireFacts.
Import Go Utf8 Json Config Api Calls.
#[local] Arguments String.append : simpl nomatch.
#[local] Arguments unquote : simpl never.
#[local] Arguments escape : simpl never.

(** The objects the request bodies are: string members only. *)
Definition string_member_of (kv : string * string) : string * Tree :=
  (escape kv.1, TString (escape kv.2)).

Definition string_object (kvs : list (string * string)) : Tree :=
  TObject (map string_member_of kvs).

Definition render_compact (kv : string * Tree) : string :=
  quoted kv.1 +:+ ":" +:+ compact kv.2.

Lemma run_compact_member (kv : string * string) (sc : Scan)
    (ms : list (string * Tree)) (stk : list Frame) (tail : string) :
  member_start sc ->
  run (at_state sc EmptyString (FObject ms None :: stk) None)
    (render_compact (string_member_of kv) +:+ tail)
  = run (at_state EndValue EmptyString
           (FObject (string_member_of kv :: ms) None :: stk) None) tail.
Proof.
  intros Hsc. destruct kv as [k v].
  unfold render_compact, string_member_of. cbn [fst snd compact].
  rewrite !append_assoc.
  rewrite run_quoted; [|destruct Hsc; auto|by eexists].
  unfold end_string, in_string, spelled. simpl stack. cbv iota.
  simpl lit. rewrite rev_onto_involutive.
  change (":" +:+ quoted (escape v) +:+ tail)
    with (String ":"%char (quoted (escape v) +:+ tail)).
  rewrite run_cons.
  change (step {| scan := EndKey; lit := EmptyString;
                  stack := FObject ms (Some (escape k)) :: stk;
                  top := None |} ":"%char)
    with (Some (at_state BeginValue EmptyString
                  (FObject ms (Some (escape k)) :: stk) None)).
  cbv beta iota.
  rewrite run_quoted; [|auto|by eexists].
  unfold end_string, in_string, spelled. simpl stack. cbv iota.
  simpl lit. rewrite rev_onto_involutive. reflexivity.
Qed.

Lemma run_compact_members (kvs : list (string * string)) :
  kvs <> [] ->
  forall sc ms,
    member_start sc ->
    run (at_state sc EmptyString [FObject ms None] None)
      (join "," (map render_compact (map string_member_of kvs)) +:+ "}")
    = Some (at_state EndTop EmptyString []
              (Some (TObject (rev ms ++ map string_member_of kvs)))).
Proof.
  induction kvs as [|kv rest IH]; intros Hne sc ms Hsc; [done|].
  destruct rest as [|kv' rest].
  - change (join "," (map render_compact (map string_member_of [kv])))
      with (render_compact (string_member_of kv)).
    rewrite run_compact_member by done.
    simpl. reflexivity.
  - change (join "," (map render_compact
                        (map string_member_of (kv :: kv' :: rest))))
      with (render_compact (string_member_of kv) +:+ ","
            +:+ join "," (map render_compact
                            (map string_member_of (kv' :: rest)))).
    rewrite !append_assoc.
    rewrite run_compact_member by done.
    change ("," +:+ ?x) with (String ","%char x).
    rewrite run_cons.
    change (step (at_state EndValue EmptyString
                    [FObject (string_member_of kv :: ms) None] None)
              ","%char)
      with (Some (at_state BeginString EmptyString
                    [FObject (string_member_of kv :: ms) None] None)).
    cbv beta iota.
    rewrite IH; [|done|by left].
    simpl. by rewrite <- app_assoc.
Qed.

(** The compact form of such an object parses back to it. *)
Lemma parse_compact_string_object (kvs : list (string * string)) :
  kvs <> [] ->
  parse (compact (string_object kvs)) = Some (string_object kvs).
Proof.
  intros Hne. unfold string_object.
  change (compact (TObject (map string_member_of kvs)))
    with ("{" +:+ join "," (map render_compact (map string_member_of kvs))
          +:+ "}").
  unfold parse.
  change ("{" +:+ ?x) with (String "{"%char x).
  rewrite run_cons.
  change (step start "{"%char)
    with (Some (at_state BeginStringOrEmpty EmptyString
                  [FObject [] None] None)).
  cbv beta iota.
  rewrite (run_compact_members kvs Hne); [|by right].
  reflexivity.
Qed.

(** Decoding such an object of two members with different keys. *)
Lemma to_value_string_object_2 (k1 v1 k2 v2 : string) :
  ValidString k1 = true -> ValidString v1 = true ->
  ValidString k2 = true -> ValidString v2 = true -> k1 <> k2 ->
  to_value (string_object [(k1, v1); (k2, v2)])
  = Some (Object [(k1, Str v1); (k2, Str v2)]).
Proof.
  intros Hk1 Hv1 Hk2 Hv2 Hne.
  unfold string_object, string_member_of. cbn [map fst snd to_value].
  rewrite !unquote_escape by done. cbn [fmap option_fmap option_map].
  rewrite ?unquote_escape by done. cbn [map_set].
  by rewrite bool_decide_eq_false_2 by done.
Qed.

Lemma to_value_string_object_1 (k v : string) :
  ValidString k = true -> ValidString v = true ->
  to_value (string_object [(k, v)]) = Some (Object [(k, Str v)]).
Proof.
  intros Hk Hv.
  unfold string_object, string_member_of. cbn [map fst snd to_value].
  rewrite !unquote_escape by done. cbn [fmap option_fmap option_map].
  by rewrite ?unquote_escape by done.
Qed.

Definition login_body_logged (email : string) : string :=
  compact (TObject [("email", TString (escape email));
                    ("password", TString REDACTED)]).

Definition refresh_body_logged : string :=
  compact (TObject [("refresh_token", TString REDACTED)]).

Lemma redact_login_payload (u : Strings.Unicode) (email password : string) :
  ValidString email = true -> ValidString password = true ->
  redactSensitiveJSON u (login_payload email password)
  = login_body_logged email.
Proof.
  intros He Hp. unfold redactSensitiveJSON, Json.Unmarshal.
  change (login_payload email password)
    with (compact (string_object [("email", email);
                                   ("password", password)])).
  rewrite parse_compact_string_object by done.
  rewrite to_value_string_object_2 by first [done | by vm_compute].
  change (redactRecursive u (Object [("email", Str email);
                                     ("password", Str password)]))
    with (Object [("email", Str email); ("password", Str REDACTED)]).
  unfold Marshal. cbn [of_value fmap option_fmap option_map].
  unfold login_body_logged. reflexivity.
Qed.

Lemma redact_refresh_payload (u : Strings.Unicode) (token : string) :
  ValidString token = true ->
  redactSensitiveJSON u (refresh_payload token) = refresh_body_logged.
Proof.
  intros Ht. unfold redactSensitiveJSON, Json.Unmarshal.
  change (refresh_payload token)
    with (compact (string_object [("refresh_token", token)])).
  rewrite parse_compact_string_object by done.
  rewrite to_value_string_object_1 by first [done | by vm_compute].
  reflexivity.
Qed.

Lemma doRequest_extends_from (env : Env) (c : Client)
    (method path : string) (jsonBody : option string) (st : State) :
  newRequestError env method (baseURL c +:+ path) = None ->
  extends c 3 [baseURL c +:+ path; refresh_url c]
    (before_send (unicode env) c method path jsonBody st)
    (doRequest env c method path (Ok <$> jsonBody) st).2.
Proof.
  intros Hnew.
  set (urls := [baseURL c +:+ path; refresh_url c]).
  assert (baseURL c +:+ path ∈ urls) as Hpath
    by (apply elem_of_cons; by left).
  assert (refresh_url c ∈ urls) as Hrefresh
    by (apply elem_of_cons; right; apply elem_of_cons; by left).
  set (st1 := before_send (unicode env) c method path jsonBody st).
  set (req0 := new_request c (config st) method path jsonBody).
  assert (doRequest env c method path (Ok <$> jsonBody) st
          = let '(r, st2) := Do env req0 st1 in
            match r with
            | Fail e => (Fail (Wrap "request failed: " e), st2)
            | Ok resp =>
                let done (resp : Response) (st : State) :=
                  (Ok resp,
                   log c ("[spacectl] <- " +:+ method +:+ " " +:+ baseURL c
                          +:+ path +:+ " : " +:+ FormatInt (StatusCode resp)
                          +:+ newline) st) in
                if (StatusCode resp =? StatusUnauthorized)%Z
                   && negb (bool_decide (RefreshToken (config st2)
                                         = EmptyString))
                then
                  let '(err, st) := refreshToken env c st2 in
                  match err with
                  | Some e => (Fail (Wrap "authentication failed: " e), st)
                  | None =>
                      let req :=
                        with_authorization (after_Do req0)
                          (bearer (AccessToken (config st))) in
                      let '(r, st) := Do env req st in
                      match r with
                      | Fail e =>
                          (Fail (Wrap "retry request failed: " e), st)
                      | Ok resp => done resp st
                      end
                  end
                else done resp st2
            end) as ->.
  { unfold doRequest, st1, req0, before_send.
    destruct jsonBody as [b|]; cbn [fmap option_fmap option_map];
      rewrite Hnew; reflexivity. }
  pose proof (extends_Do env c urls req0 st1 Hpath) as H2.
  destruct (Do env req0 st1) as [r st2]; cbn [snd] in H2.
  destruct r as [resp|e]; [|apply (extends_weaken c 1 3); [lia|done]].
  cbv zeta.
  destruct ((StatusCode resp =? StatusUnauthorized)%Z
            && negb (bool_decide (RefreshToken (config st2) = EmptyString)));
    [|cbn [snd];
      apply (extends_weaken c 1 3); [lia|];
      apply (extends_trans c 1 0 urls st1 st2 _ H2), extends_log].
  pose proof (refreshToken_extends env c urls st2 Hrefresh) as H3.
  destruct (refreshToken env c st2) as [err st3]; cbn [snd] in H3.
  pose proof (extends_trans c 1 1 urls st1 st2 st3 H2 H3) as H03.
  destruct err; [apply (extends_weaken c 2 3); [lia|done]|].
  match goal with
  | |- context [Do _ ?req ?s] =>
      pose proof (extends_Do env c urls req s Hpath) as H4;
      destruct (Do env req s) as [r' st4]
  end.
  cbn [snd] in H4.
  pose proof (extends_trans c 2 1 urls st1 st3 st4 H03 H4) as H04.
  destruct r' as [resp'|e']; [|done].
  cbn [snd].
  apply (extends_trans c 3 0 urls st1 st4 _ H04), extends_log.
Qed.

Lemma request_into_state {A} (env : Env) (wire : Wire) (c : Client)
    (method path : string) (body : option (result string))
    (unmarshal : string -> result A) (zero : A) (st : State) :
  (request_into env wire c method path body unmarshal zero st).2
  = (doRequest env c method path body st).2.
Proof.
  unfold request_into.
  destruct (doRequest env c method path body st) as [[resp|e] st'];
    [|done].
  by destruct (handleResponse _ resp _).
Qed.

(** X8. With the debug flag set, the body line that [Login] writes to
    standard error shows the e-mail and, in place of the password, the
    redaction marker: the line does not depend on the password. *)
Theorem login_debug_line_hides_the_password (env : Env) (wire : Wire)
    (c : Client) (email password : string) (st : State) :
  debug c = true ->
  ValidString email = true -> ValidString password = true ->
  newRequestError env "POST" (baseURL c +:+ "/api/v1/user/login") = None ->
  exists rest,
    stderr (Login env wire c email password st).2
    = stderr st
      ++ ["[spacectl] -> POST " +:+ baseURL c +:+ "/api/v1/user/login"
          +:+ newline;
          "[spacectl]    body: " +:+ login_body_logged email +:+ newline]
      ++ rest.
Proof.
  intros Hdebug He Hp Hnew. unfold Login. rewrite request_into_state.
  destruct (doRequest_extends_from env c "POST" "/api/v1/user/login"
              (Some (login_payload email password)) st Hnew)
    as (_ & _ & (rest & Hrest & _)).
  exists rest. cbn [fmap option_fmap option_map] in Hrest. rewrite Hrest.
  rewrite (app_assoc (stderr st) _ rest).
  f_equal. unfold before_send, log. rewrite Hdebug.
  rewrite bool_decide_eq_false_2 by done. cbn [stderr].
  rewrite redact_login_payload by done.
  by rewrite <- app_assoc.
Qed.

Lemma login_debug_line_hides_the_password_witness :
  exists rest,
    stderr (Login (env_of [])
              {| readAll := fun _ => None;
                 unmarshalLoginResponse := decode_login;
                 unmarshalOrganization :=
                   fun _ => Fail (New "not an organization");
                 unmarshalProjects := fun _ => Ok [];
                 unmarshalProjectMemberships := fun _ => Ok [];
                 unmarshalTenants := fun _ => Ok [] |}
              client "dev@example.com" "hunter2"
              (state_of logged_in (disk None None))).2
    = [] ++ ["[spacectl] -> POST https://api.example.com/api/v1/user/login"
             +:+ newline;
             "[spacectl]    body: " +:+ login_body_logged "dev@example.com"
             +:+ newline]
      ++ rest.
Proof.
  apply (login_debug_line_hides_the_password (env_of []) _ client
           "dev@example.com" "hunter2"
           (state_of logged_in (disk None None)));
    by vm_compute.
Defined.

(** X9. With the debug flag set, [refreshToken] writes two or three
    lines to standard error, and none of them depends on the refresh
    token: the body line shows the redaction marker in its place. *)
Theorem refresh_debug_lines_hide_the_token (env : Env) (c : Client)
    (st : State) :
  debug c = true ->
  ValidString (RefreshToken (config st)) = true ->
  exists rest,
    stderr (refreshToken env c st).2
    = stderr st
      ++ ["[spacectl] -> POST " +:+ refresh_url c +:+ newline;
          "[spacectl]    body: " +:+ refresh_body_logged +:+ newline]
      ++ rest
    /\ (rest = []
        \/ exists status,
             rest = ["[spacectl] <- POST " +:+ refresh_url c +:+ " : "
                     +:+ FormatInt status +:+ newline]).
Proof.
  intros Hdebug Htoken. unfold refreshToken.
  rewrite (redact_refresh_payload _ _ Htoken).
  unfold log, Do, save_config, set_config, set_fs. rewrite Hdebug.
  cbn [config fs calls stderr].
  destruct (newRequestError env "POST" (refresh_url c)).
  { exists []. cbn [snd stderr]. split; [by rewrite <- app_assoc|by left]. }
  destruct (roundTrip env (calls st) _) as [resp|e].
  2: { exists []. cbn [snd stderr].
       split; [by rewrite <- app_assoc|by left]. }
  cbn [config fs calls stderr].
  eexists [_]. split; [|right; by eexists].
  destruct (negb (StatusCode resp =? 200)%Z).
  - destruct (Save _ (Api.fs st)) as [err fs']. cbn [snd stderr].
    by rewrite <- !app_assoc.
  - destruct (decodeLoginResponse env (ResponseBody resp)) as [lr|e].
    + cbn [config fs calls stderr].
      destruct (Save _ (Api.fs st)) as [err fs'].
      destruct err; cbn [snd stderr]; by rewrite <- !app_assoc.
    + cbn [snd stderr]. by rewrite <- !app_assoc.
Qed.

Lemma refresh_debug_lines_hide_the_token_witness :
  exists rest,
    stderr (refreshToken (env_of [response 200 login_answer]) client
              (state_of logged_in (disk None None))).2
    = [] ++ ["[spacectl] -> POST " +:+ refresh_url client +:+ newline;
             "[spacectl]    body: " +:+ refresh_body_logged +:+ newline]
      ++ rest
    /\ (rest = []
        \/ exists status,
             rest = ["[spacectl] <- POST " +:+ refresh_url client +:+ " : "
                     +:+ FormatInt status +:+ newline]).
Proof.
  apply (refresh_debug_lines_hide_the_token
           (env_of [response 200 login_answer]) client
           (state_of logged_in (disk None None)));
    by vm_compute.
Defined.

(** ** handleResponse *)

Definition success_status (status : Z) : Prop := (200 <= status < 300)%Z.

Lemma success_status_spec (status : Z) :
  ((200 <=? status) && (status <? 300))%Z = true <-> success_status status.
Proof. unfold success_status. rewrite andb_true_iff. lia. Qed.

(** X10. [handleResponse] returns nil exactly when the body could be
    read, the status is one of 200..299 and, if a result was passed, the
    body unmarshals into it. In particular no status outside 200..299 is
    ever a success, whatever the body says. *)
Theorem handleResponse_succeeds_exactly_on_2xx {A}
    (readAll : option error) (resp : Response)
    (result : option (string -> Go.result A)) :
  is_ok (handleResponse readAll resp result) = true
  <-> readAll = None
      /\ success_status (StatusCode resp)
      /\ match result with
         | Some unmarshal => is_ok (unmarshal (ResponseBody resp)) = true
         | None => True
         end.
Proof.
  unfold handleResponse. destruct readAll as [e|].
  { split; [done|]. by intros [? _]. }
  destruct ((200 <=? StatusCode resp) && (StatusCode resp <? 300))%Z
    eqn:Hs.
  - apply success_status_spec in Hs.
    destruct result as [unmarshal|]; [|done].
    destruct (unmarshal (ResponseBody resp)); cbn [is_ok]; tauto.
  - assert (~ success_status (StatusCode resp)) as Hn.
    { intros H. apply success_status_spec in H. congruence. }
    destruct (ErrorResponse_Unmarshal (ResponseBody resp)); cbn [is_ok];
      split; try done; tauto.
Qed.

(** X11. An error response whose body is the envelope the API sends,
    an object with the member error, is reported with the status and
    that member's text, decoded. *)
Theorem error_status_reports_the_error_member {A} (resp : Response)
    (result : option (string -> Go.result A)) (message : string) :
  ~ success_status (StatusCode resp) ->
  ValidString message = true ->
  ResponseBody resp = compact (TObject [("error", TString (escape message))])
  ->
  handleResponse None resp result
  = Fail (api_error (StatusCode resp) message).
Proof.
  intros Hs Hm Hbody. unfold handleResponse.
  destruct ((200 <=? StatusCode resp) && (StatusCode resp <? 300))%Z
    eqn:Hb; [by apply success_status_spec in Hb|].
  rewrite Hbody. unfold ErrorResponse_Unmarshal.
  change (compact (TObject [("error", TString (escape message))]))
    with (compact (string_object [("error", message)])).
  rewrite parse_compact_string_object by done.
  unfold string_object, string_member_of.
  cbn [map fst snd decode_error_members]. unfold decode_error_member.
  rewrite (unquote_escape "error") by (by vm_compute).
  rewrite bool_decide_eq_true_2 by done. cbn [orb].
  by rewrite (unquote_escape message Hm).
Qed.

Lemma error_status_reports_the_error_member_witness :
  handleResponse (A := unit) None
    {| StatusCode := 404;
       ResponseBody :=
         compact (TObject [("error", TString "tenant not found")]) |}
    None
  = Fail (api_error 404 "tenant not found").
Proof.
  apply (error_status_reports_the_error_member
           {| StatusCode := 404;
              ResponseBody :=
                compact (TObject [("error", TString "tenant not found")]) |}
           None "tenant not found").
  - unfold success_status. simpl. lia.
  - by vm_compute.
  - reflexivity.
Defined.

(** No member of the object is taken for the field Error. *)
Definition no_error_member (members : list (string * Tree)) : Prop :=
  Forall (fun kv : string * Tree =>
            exists key,
              unquote kv.1 = Some key /\ equalFold "error" key = false)
    members.

Lemma decode_error_members_skipped (members : list (string * Tree))
    (message : string) :
  no_error_member members ->
  decode_error_members message members = Some message.
Proof.
  induction 1 as [|[body t] rest (key & Hkey & Hne) _ IH]; [done|].
  cbn [decode_error_members]. unfold decode_error_member.
  cbn [fst] in Hkey. rewrite Hkey.
  rewrite Hne, orb_false_r.
  rewrite bool_decide_eq_false_2; [exact IH|].
  intros ->. by vm_compute in Hne.
Qed.

(** X12. An error response whose body is a JSON object without a member
    for error (under any spelling of the letters' case) is reported with
    the status and an empty message: what the body says is dropped. *)
Theorem error_status_without_error_member_reports_nothing {A}
    (resp : Response) (result : option (string -> Go.result A))
    (members : list (string * Tree)) :
  ~ success_status (StatusCode resp) ->
  parse (ResponseBody resp) = Some (TObject members) ->
  no_error_member members ->
  handleResponse None resp result
  = Fail (api_error (StatusCode resp) EmptyString).
Proof.
  intros Hs Hparse Hmembers. unfold handleResponse.
  destruct ((200 <=? StatusCode resp) && (StatusCode resp <? 300))%Z
    eqn:Hb; [by apply success_status_spec in Hb|].
  unfold ErrorResponse_Unmarshal. rewrite Hparse.
  by rewrite decode_error_members_skipped.
Qed.

Lemma error_status_without_error_member_reports_nothing_witness :
  handleResponse (A := unit) None
    {| StatusCode := 429;
       ResponseBody :=
         compact (TObject [("message", TString "quota exceeded")]) |}
    None
  = Fail (api_error 429 EmptyString).
Proof.
  apply (error_status_without_error_member_reports_nothing
           {| StatusCode := 429;
              ResponseBody :=
                compact (TObject [("message", TString "quota exceeded")]) |}
           None [("message", TString "quota exceeded")]).
  - unfold success_status. simpl. lia.
  - by vm_compute.
  - constructor; [|constructor]. exists "message". split; by vm_compute.
Defined.

End WireFacts.

(* ===================================================================== *)
(** * Theorems: redaction as a function of values                         *)
(* ===================================================================== *)

Section RedactionInvariants.
Import Go Utf8 Strings Json Api.

(** No key of the value, at any depth, is a sensitive one. *)
Fixpoint sensitive_free (u : Unicode) (v : Value) : bool :=
  match v with
  | Object entries =>
      forallb (fun kv : string * Value =>
                 negb (bool_decide (ToLower u kv.1 ∈ sensitive_keys))
                 && sensitive_free u kv.2) entries
  | Array elems => forallb (sensitive_free u) elems
  | _ => true
  end.

(** X13. Redacting twice is redacting once: a redacted value holds
    nothing [redactRecursive] would still change, at any depth. *)
Theorem redactRecursive_idempotent (u : Unicode) (v : Value) :
  redactRecursive u (redactRecursive u v) = redactRecursive u v.
Proof.
  induction v as [| | | |elems IH|entries IH] using Value_nested_ind;
    try reflexivity.
  - cbn [redactRecursive]. f_equal. rewrite map_map.
    induction IH as [|x rest Hx _ IHrest]; [done|].
    cbn [map]. by rewrite Hx, IHrest.
  - cbn [redactRecursive]. f_equal. rewrite map_map.
    induction IH as [|[k x] rest Hx _ IHrest]; [done|].
    cbn [map fst snd] in *. rewrite IHrest. f_equal. f_equal.
    destruct (isSensitiveKey u k); [reflexivity|exact Hx].
Qed.

(** X14. A value in which no key is sensitive, at any depth, comes out
    of [redactRecursive] as it went in. A key is sensitive when its
    lower-case form, as [strings.ToLower] gives it, is one of the seven
    words. *)
Theorem redactRecursive_keeps_what_has_no_sensitive_key
    (u : Unicode) (v : Value) :
  sensitive_free u v = true -> redactRecursive u v = v.
Proof.
  induction v as [| | | |elems IH|entries IH] using Value_nested_ind;
    try reflexivity.
  - cbn [redactRecursive sensitive_free]. intros Hfree. f_equal.
    induction IH as [|x rest Hx _ IHrest]; [done|].
    cbn [forallb] in Hfree. apply andb_true_iff in Hfree as [H1 H2].
    cbn [map]. by rewrite Hx, IHrest.
  - cbn [redactRecursive sensitive_free]. intros Hfree. f_equal.
    induction IH as [|[k x] rest Hx _ IHrest]; [done|].
    cbn [forallb fst snd] in *.
    apply andb_true_iff in Hfree as [H1 H2].
    apply andb_true_iff in H1 as [Hk Hv].
    apply negb_true_iff in Hk.
    cbn [map fst snd]. unfold isSensitiveKey at 1.
    by rewrite Hk, Hx, IHrest.
Qed.

(** The letter e with an acute accent, U+00E9, and its capital. *)
Definition e_acute : string := EncodeRune 233.
Definition E_acute : string := EncodeRune 201.

Lemma redactRecursive_keeps_what_has_no_sensitive_key_witness :
  redactRecursive latin1
    (Object [("name", Str "dev"); ("tokens", Array [Str "a"; Null]);
             ("cl" +:+ E_acute, Object [("cpu", Bool true)])])
  = Object [("name", Str "dev"); ("tokens", Array [Str "a"; Null]);
            ("cl" +:+ E_acute, Object [("cpu", Bool true)])].
Proof.
  apply (redactRecursive_keeps_what_has_no_sensitive_key latin1
           (Object [("name", Str "dev"); ("tokens", Array [Str "a"; Null]);
                    ("cl" +:+ E_acute, Object [("cpu", Bool true)])])).
  by vm_compute.
Defined.

(** A key spelled with the Kelvin sign for its k lowers to token: the
    value does not count as free of sensitive keys, and its value is
    replaced. *)
Lemma kelvin_sign_key_is_redacted :
  let key := "to" +:+ EncodeRune 8490 +:+ "en" in
  ToLower latin1 key = "token"
  /\ sensitive_free latin1 (Object [(key, Str "abc")]) = false
  /\ redactRecursive latin1 (Object [(key, Str "abc")])
     = Object [(key, Str REDACTED)].
Proof. repeat split; by vm_compute. Qed.

End RedactionInvariants.

(* ===================================================================== *)
(** * Theorems: logging in and out                                        *)
(* ===================================================================== *)

Section SessionFacts.
Import Go Json Config Api Calls Cmd.

(** What [save_config] leaves behind when it returns nil. *)
Lemma save_config_then_Load (st : State) :
  well_formed (config st) -> readable (Api.fs st) ->
  (save_config st).1 = None ->
  config (save_config st).2 = config st
  /\ calls (save_config st).2 = calls st
  /\ Load (Api.fs (save_config st).2)
     = (Ok (config st), Api.fs (save_config st).2).
Proof.
  intros Hc Hread Hsave. unfold save_config, set_fs in *.
  unfold Save in *.
  destruct (mkdir_error (Api.fs st)); [done|].
  destruct (write_error (Api.fs st)) as [[? | ? ?]|]; try done.
  cbn [fst snd config fs calls]. repeat split.
  unfold Load, with_file. cbn [file read_error].
  unfold readable in Hread. rewrite Hread.
  by rewrite (Unmarshal_MarshalIndent (config st) Hc).
Qed.

(** X15. After a logout that returns nil, the configuration in memory
    and the one the next Load reads from the file are the old one with
    the two tokens and the e-mail emptied: not authenticated, API URL
    and defaults kept. No request is made. *)
Theorem logout_clears_the_stored_credentials (quiet : bool) (st : State)
    (out : list string) :
  let st' := (runLogout quiet st out).1.2 in
  well_formed (ClearAuth (config st)) -> readable (Api.fs st) ->
  (runLogout quiet st out).1.1 = None ->
  config st' = ClearAuth (config st)
  /\ Load (Api.fs st') = (Ok (ClearAuth (config st)), Api.fs st')
  /\ Config.IsAuthenticated (config st') = false
  /\ settings (config st') = settings (config st)
  /\ calls st' = calls st.
Proof.
  intros st' Hc Hread. subst st'. unfold runLogout.
  pose proof (save_config_then_Load
                (set_config st (ClearAuth (config st))) Hc Hread) as Hs.
  destruct (save_config (set_config st (ClearAuth (config st))))
    as [err st'].
  destruct err as [e|]; [done|]. intros _. cbn [fst snd] in *.
  destruct (Hs eq_refl) as (Hcfg & Hcalls & Hload).
  cbn [config set_config calls] in *. rewrite Hcfg. by repeat split.
Qed.

Lemma logout_clears_the_stored_credentials_witness :
  let st' := (runLogout false (state_of logged_in (disk None None)) []).1.2
  in
  config st' = ClearAuth logged_in
  /\ Load (Api.fs st') = (Ok (ClearAuth logged_in), Api.fs st')
  /\ Config.IsAuthenticated (config st') = false
  /\ settings (config st') = settings logged_in
  /\ calls st' = [].
Proof.
  apply (logout_clears_the_stored_credentials false
           (state_of logged_in (disk None None)) []).
  - unfold well_formed, int64. repeat split; vm_compute; congruence.
  - reflexivity.
  - reflexivity.
Defined.

(** ** The callback handler *)

Definition replied_with (served : Served) (status : Z) : Prop :=
  exists reply,
    served = Replied reply /\ Reply_Status reply = status
    /\ cors ⊆ Reply_Header reply.

(** X16. The handler of /callback touches the token channel only for a
    POST. A POST that finds the slot free puts one value into it (also
    when the body does not decode) and replies, 200 if the body decoded
    and 400 if not; a POST that finds the slot full waits in the send
    without a reply and leaves the value in the slot as it is. Any other
    method leaves the channel alone and is answered 200 (OPTIONS) or
    405. Every reply carries the three CORS headers. *)
Theorem callback_sends_once_into_a_free_slot
    (decode : string -> result (string * string * string))
    (method body : string) (tokenChan : option TokenResult) :
  let served := (callback decode method body tokenChan).1 in
  let after := (callback decode method body tokenChan).2 in
  if bool_decide (method = "POST") then
    match tokenChan with
    | Some earlier => served = Waiting /\ after = Some earlier
    | None =>
        is_Some after
        /\ replied_with served (if is_ok (decode body) then 200 else 400)%Z
    end
  else
    after = tokenChan
    /\ replied_with served
         (if bool_decide (method = "OPTIONS") then 200 else 405)%Z.
Proof.
  cbv zeta. unfold callback, replied_with.
  case_bool_decide as Hpost.
  - subst method. rewrite (bool_decide_eq_false_2 ("POST" = "OPTIONS"))
      by discriminate.
    cbn [negb].
    destruct (decode body) as [[[a r] u]|e], tokenChan as [earlier|];
      cbn [fst snd is_ok]; try done.
    + split; [by eexists|]. eexists. split; [reflexivity|].
      split; [reflexivity|]. cbn [Reply_Header].
      apply insert_subseteq. by vm_compute.
    + split; [by eexists|]. eexists. by repeat split.
  - case_bool_decide as Hopt; cbn [negb fst snd];
      (split; [reflexivity|]); eexists; by repeat split.
Qed.

(** ** The GitHub login *)

Definition github_client (debug : bool) (st : State) : Client :=
  {| baseURL := APIURL (config st); debug := debug |}.

Definition is_shutdown (ev : Event) : bool :=
  match ev with Shutdown => true | _ => false end.

Definition bound (d : Desktop) (port : string) : bool :=
  match listen d port with None => true | Some _ => false end.

(** X17. The callback server is shut down exactly when it was started
    and the flow got as far as waiting for the callback, and then once.
    When the backend does not hand out the authorization URL the flow
    returns with the server still listening; when the port cannot be
    bound there is no server to shut down. *)
Theorem callback_server_is_shut_down_only_after_the_wait (env : Env)
    (d : Desktop) (debug quiet : bool) (port : string) (st : State) :
  let events := (runGithubLogin env d debug quiet port st).2 in
  let waited :=
    is_ok (GetGithubAuthURL env (noFollow d) (github_client debug st) port st)
  in
  length (List.filter is_shutdown events)
  = (if bound d port && waited then 1 else 0)%nat
  /\ (In Serve events <-> bound d port = true).
Proof.
  cbv zeta. unfold runGithubLogin, startCallbackServer, github_client, bound.
  destruct (listen d port) as [e|]; cbn [andb].
  all: destruct (GetGithubAuthURL env (noFollow d) _ port st)
    as [authURL|e']; cbn [is_ok andb snd].
  - (* the port cannot be bound: the error is already in the channel *)
    cbn [TR_err failed snd].
    split; [reflexivity|]. cbn. intuition congruence.
  - split; [reflexivity|]. cbn. intuition congruence.
  - (* started and waited *)
    destruct (arrival d) as [result|].
    + destruct (TR_err result).
      * cbn [snd]. split; [reflexivity|]. cbn. intuition.
      * destruct (save_config _) as [err st'].
        destruct err; [cbn [snd]; split; [reflexivity|]; cbn; intuition|].
        destruct quiet; cbn [snd]; (split; [reflexivity|]; cbn; intuition).
    + cbn [snd]. split; [reflexivity|]. cbn. intuition.
  - split; [reflexivity|]. cbn. intuition.
Qed.

(** X18. When the first value to arrive on the token channel carries
    tokens (a POST to /callback whose body decoded), the login that
    returns nil has stored them: they are in the configuration in memory
    and in what the next Load reads, with the API URL and the defaults
    kept. *)
Theorem github_login_stores_the_tokens_received (env : Env) (d : Desktop)
    (debug quiet : bool) (port : string) (st : State)
    (decode : string -> result (string * string * string)) (body : string)
    (access refresh email : string) :
  let st' := (runGithubLogin env d debug quiet port st).1.2 in
  let cfg := UpdateTokens (config st) access refresh email in
  listen d port = None ->
  arrival d = (callback decode "POST" body None).2 ->
  decode body = Ok (access, refresh, email) ->
  well_formed cfg -> readable (Api.fs st) ->
  (runGithubLogin env d debug quiet port st).1.1 = None ->
  config st' = cfg
  /\ Load (Api.fs st') = (Ok cfg, Api.fs st').
Proof.
  intros st' cfg Hlisten Harrival Hdecode Hcfg Hread. subst st'.
  unfold runGithubLogin, startCallbackServer. rewrite Hlisten.
  destruct (GetGithubAuthURL env (noFollow d) _ port st) as [authURL|e];
    [|done].
  rewrite Harrival. unfold callback.
  rewrite bool_decide_eq_false_2 by done.
  rewrite bool_decide_eq_true_2 by done. cbn [negb].
  rewrite Hdecode. cbn [snd TR_err TR_accessToken TR_refreshToken
                        TR_userEmail].
  fold cfg.
  pose proof (save_config_then_Load (set_config st cfg) Hcfg Hread) as Hs.
  destruct (save_config (set_config st cfg)) as [err st'].
  destruct err as [e|]; [done|]. intros _. cbn [fst snd] in *.
  destruct (Hs eq_refl) as (Hc & _ & Hload).
  cbn [config set_config] in *. by rewrite Hc.
Qed.

(** A decoder of the token response that reads its three members off
    the decoded body, and a machine on which everything works. *)
Definition decode_tokens (body : string)
  : result (string * string * string) :=
  match Json.Unmarshal body with
  | Some (Object m) =>
      Ok (string_at "access_token" (Object m),
          string_at "refresh_token" (Object m),
          string_at "user_email" (Object m))
  | _ => Fail (New "invalid token response")
  end.

Definition token_body : string :=
  compact
    (TObject [("access_token", TString "gh-access");
              ("refresh_token", TString "gh-refresh");
              ("user_email", TString "dev@example.com")]).

Definition desktop : Desktop :=
  {| listen := fun _ => None;
     noFollow := fun _ => Ok (302%Z, "https://github.com/login/oauth");
     openBrowser := fun _ => None;
     arrival := (callback decode_tokens "POST" token_body None).2 |}.

Lemma github_login_stores_the_tokens_received_witness :
  let st := state_of logged_in (disk None None) in
  let st' := (runGithubLogin (env_of []) desktop false false "8081" st).1.2 in
  let cfg :=
    UpdateTokens logged_in "gh-access" "gh-refresh" "dev@example.com" in
  config st' = cfg /\ Load (Api.fs st') = (Ok cfg, Api.fs st').
Proof.
  apply (github_login_stores_the_tokens_received (env_of []) desktop
           false false "8081" (state_of logged_in (disk None None))
           decode_tokens token_body
           "gh-access" "gh-refresh" "dev@example.com").
  - reflexivity.
  - reflexivity.
  - by vm_compute.
  - unfold well_formed, int64. repeat split; vm_compute; congruence.
  - reflexivity.
  - by vm_compute.
Defined.

(** ** The password login *)

(** X19. A password login with both flags given, whose request is
    answered with a status of 200..299 and a body that unmarshals, and
    whose tokens can be saved: one request is made, carrying the e-mail
    and the password as a JSON object; the login returns nil; the tokens
    and the e-mail of the answer are in the configuration in memory and
    in what the next Load reads. *)
Theorem password_login_stores_the_tokens_of_the_answer (env : Env)
    (wire : Wire) (d : Desktop) (debug quiet : bool) (input : LoginInput)
    (st : State) (resp : Response) (lr : LoginResponse) :
  let client := github_client debug st in
  let req :=
    new_request client (config st) "POST" "/api/v1/user/login"
      (Some (login_payload (loginEmail input) (loginPassword input))) in
  let cfg :=
    UpdateTokens (config st) (LR_AccessToken lr) (LR_RefreshToken lr)
      (LR_UserEmail lr) in
  let outcome := runLogin env wire d debug quiet input st in
  loginGithub input = false ->
  loginEmail input <> EmptyString -> loginPassword input <> EmptyString ->
  newRequestError env "POST" (APIURL (config st) +:+ "/api/v1/user/login")
  = None ->
  roundTrip env (calls st) req = Ok resp ->
  success_status (StatusCode resp) ->
  readAll wire resp = None ->
  unmarshalLoginResponse wire (ResponseBody resp) = Ok lr ->
  well_formed cfg -> readable (Api.fs st) ->
  (Save cfg (Api.fs st)).1 = None ->
  outcome.1.1 = None
  /\ config outcome.1.2 = cfg
  /\ calls outcome.1.2 = calls st ++ [req]
  /\ Load (Api.fs outcome.1.2) = (Ok cfg, Api.fs outcome.1.2).
Proof.
  intros client req cfg outcome Hgithub Hemail Hpassword Hnew Hrt Hstatus
    Hread Hunmarshal Hcfg Hreadable Hsave.
  subst outcome. unfold runLogin. rewrite Hgithub.
  rewrite !bool_decide_eq_false_2 by done.
  unfold Login, request_into. fold (github_client debug st). fold client.
  change (Some (Ok (login_payload (loginEmail input)
                      (loginPassword input))))
    with (Ok <$> Some (login_payload (loginEmail input)
                         (loginPassword input))).
  rewrite (doRequest_first_response env client "POST" "/api/v1/user/login"
             _ st resp Hnew Hrt).
  destruct (after_send_same env client "POST" "/api/v1/user/login"
              (Some (login_payload (loginEmail input)
                       (loginPassword input))) st) as (Hc & Hf & Hl).
  set (st1 := after_send env client "POST" "/api/v1/user/login" _ st) in *.
  cbv zeta.
  assert ((StatusCode resp =? StatusUnauthorized)%Z = false) as ->.
  { apply Z.eqb_neq. unfold success_status, StatusUnauthorized in *. lia. }
  cbn [andb]. unfold handleResponse. rewrite Hread.
  apply success_status_spec in Hstatus. rewrite Hstatus, Hunmarshal.
  cbn [default]. change (id lr) with lr.
  set (st2 := log client _ st1).
  assert (config st2 = config st /\ Api.fs st2 = Api.fs st
          /\ calls st2 = calls st ++ [req]) as (Hc2 & Hf2 & Hl2).
  { unfold st2. by rewrite log_config, log_fs, log_calls. }
  rewrite Hc2. fold cfg.
  assert (readable (Api.fs (set_config st2 cfg))) as Hreadable2.
  { cbn [set_config fs]. by rewrite Hf2. }
  pose proof (save_config_then_Load (set_config st2 cfg) Hcfg Hreadable2)
    as Hs.
  assert ((save_config (set_config st2 cfg)).1 = None) as Hnil.
  { unfold save_config. cbn [set_config config fs]. rewrite Hf2.
    by destruct (Save cfg (Api.fs st)). }
  destruct (Hs Hnil) as (Hc3 & Hl3 & Hload).
  destruct (save_config (set_config st2 cfg)) as [err st3].
  cbn [fst snd] in *. subst err. cbn [fst snd].
  cbn [set_config config calls] in *.
  by rewrite Hc3, Hl3, Hl2.
Qed.

Definition wire_example : Wire :=
  {| readAll := fun _ => None;
     unmarshalLoginResponse := decode_login;
     unmarshalOrganization := fun _ => Fail (New "not an organization");
     unmarshalProjects := fun _ => Ok [];
     unmarshalProjectMemberships := fun _ => Ok [];
     unmarshalTenants := fun _ => Ok [] |}.

Definition flags : LoginInput :=
  {| loginEmail := "user@example.com"; loginPassword := "hunter2";
     loginGithub := false; loginCallbackPort := "8081";
     promptEmail := Fail (New "no terminal");
     promptPassword := Fail (New "no terminal");
     trimSpace := fun s => s |}.

Lemma password_login_stores_the_tokens_of_the_answer_witness :
  let st := state_of (ClearAuth logged_in) (disk None None) in
  let cfg :=
    UpdateTokens logged_in "new-access" "new-refresh" "user@example.com" in
  let outcome :=
    runLogin (env_of [response 200 login_answer]) wire_example desktop
      false true flags st in
  outcome.1.1 = None
  /\ config outcome.1.2 = cfg
  /\ calls outcome.1.2
     = [] ++ [new_request (github_client false st) (ClearAuth logged_in)
                "POST" "/api/v1/user/login"
                (Some (login_payload "user@example.com" "hunter2"))]
  /\ Load (Api.fs outcome.1.2) = (Ok cfg, Api.fs outcome.1.2).
Proof.
  apply (password_login_stores_the_tokens_of_the_answer
           (env_of [response 200 login_answer]) wire_example desktop
           false true flags
           (state_of (ClearAuth logged_in) (disk None None))
           {| StatusCode := 200; ResponseBody := login_answer |}
           {| LR_AccessToken := "new-access";
              LR_RefreshToken := "new-refresh";
              LR_UserEmail := "user@example.com" |}).
  - reflexivity.
  - discriminate.
  - discriminate.
  - reflexivity.
  - reflexivity.
  - unfold success_status. simpl. lia.
  - reflexivity.
  - by vm_compute.
  - unfold well_formed, int64. repeat split; vm_compute; congruence.
  - reflexivity.
  - reflexivity.
Defined.

End SessionFacts.

(* ===================================================================== *)
(** * Theorems: resolving names to ids                                    *)
(* ===================================================================== *)

Section ResolverFacts.
Import Go Json Config Api Output Calls Cmd.

(** [id] is the ID of the first of [items] that has the name. *)
Definition first_with_name {A} (name_of id_of : A -> string)
    (name : string) (items : list A) (id : string) : Prop :=
  exists before x after,
    items = before ++ x :: after
    /\ Forall (fun y => name_of y <> name) before
    /\ name_of x = name /\ id_of x = id.

Definition none_with_name {A} (name_of : A -> string) (name : string)
    (items : list A) : Prop :=
  Forall (fun y => name_of y <> name) items.

Lemma first_named_spec {A} (name_of id_of : A -> string) (name : string)
    (items : list A) :
  match first_named name_of id_of name items with
  | Some id => first_with_name name_of id_of name items id
  | None => none_with_name name_of name items
  end.
Proof.
  induction items as [|x rest IH]; cbn [first_named].
  { constructor. }
  case_bool_decide as Hx.
  - exists [], x, rest. repeat split; [constructor|done].
  - destruct (first_named name_of id_of name rest) as [id|].
    + destruct IH as (before & y & after & -> & Hbefore & Hy & Hid).
      exists (x :: before), y, after. repeat split; try done.
      by constructor.
    + by constructor.
Qed.

(** The outcome of a search by name in a list the server returned. *)
Definition searched {A} (name_of id_of : A -> string) (name : string)
    (items : list A) (not_found : string) (r : result string) : Prop :=
  match r with
  | Ok id => first_with_name name_of id_of name items id
  | Fail e => none_with_name name_of name items /\ e = New not_found
  end.

(** X20. Given an id and no name, each resolver returns the id as it is
    and leaves the state as it was: no request is made, the id is not
    checked against the server. Given both or neither, each fails,
    again without a request. *)
Theorem resolvers_contact_the_server_only_for_a_name
    (quote : string -> string) (env : Env) (wire : Wire) (c : Client)
    (name id scope : string) (st : State) :
  name = EmptyString \/ id <> EmptyString ->
  let by_id := bool_decide (name = EmptyString /\ id <> EmptyString) in
  let expected (r : result string * State) :=
    r.2 = st /\ (if by_id then r.1 = Ok id else is_ok r.1 = false) in
  expected (resolveOrganizationID env wire c name id st)
  /\ expected (resolveProjectID quote env wire c name id scope st)
  /\ expected (resolveTenantID quote env wire c name id scope st).
Proof.
  intros Hflags. cbv zeta.
  unfold resolveOrganizationID, resolveProjectID, resolveTenantID.
  destruct (decide (name = EmptyString)) as [->|Hname];
    destruct (decide (id = EmptyString)) as [->|Hid].
  - rewrite (bool_decide_eq_false_2
               (EmptyString = EmptyString /\ EmptyString <> EmptyString))
      by (intros [_ H]; done).
    rewrite !bool_decide_eq_true_2 by done. by cbn.
  - rewrite (bool_decide_eq_true_2
               (EmptyString = EmptyString /\ id <> EmptyString))
      by (split; done).
    rewrite !(bool_decide_eq_true_2 (EmptyString = EmptyString)) by done.
    rewrite !(bool_decide_eq_false_2 (id = EmptyString)) by done.
    by cbn.
  - tauto.
  - rewrite (bool_decide_eq_false_2
               (name = EmptyString /\ id <> EmptyString))
      by (intros [H _]; done).
    rewrite !(bool_decide_eq_false_2 (name = EmptyString)) by done.
    rewrite !(bool_decide_eq_false_2 (id = EmptyString)) by done.
    by cbn.
Qed.

Lemma resolvers_contact_the_server_only_for_a_name_witness :
  let st := state_of logged_in (disk None None) in
  let expected (r : result string * State) :=
    r.2 = st /\ r.1 = Ok "t-42" in
  expected (resolveOrganizationID (env_of []) wire_example client
              EmptyString "t-42" st)
  /\ expected (resolveProjectID quoted (env_of []) wire_example client
                 EmptyString "t-42" "org-1" st)
  /\ expected (resolveTenantID quoted (env_of []) wire_example client
                 EmptyString "t-42" EmptyString st).
Proof.
  pose proof (resolvers_contact_the_server_only_for_a_name quoted
                (env_of []) wire_example client EmptyString "t-42")
    as H.
  cbv zeta in *.
  destruct (H "org-1" (state_of logged_in (disk None None)))
    as (H1 & H2 & _); [by left|].
  destruct (H EmptyString (state_of logged_in (disk None None)))
    as (_ & _ & H3); [by left|].
  rewrite bool_decide_eq_true_2 in H1, H2, H3 by (split; done).
  done.
Defined.

(** X21. A tenant name is resolved within the project given: one list of
    the project's tenants is fetched, and the result is the ID of the
    first tenant in it that has the name; when several tenants share the
    name the later ones are never chosen, and the search fails exactly
    when no tenant has the name. *)
Theorem tenant_name_resolves_to_the_first_match
    (quote : string -> string) (env : Env) (wire : Wire) (c : Client)
    (tenantName projectID : string) (st st' : State)
    (tenants : list Tenant) :
  tenantName <> EmptyString -> projectID <> EmptyString ->
  ListProjectTenants env wire c projectID st = (Ok tenants, st') ->
  (resolveTenantID quote env wire c tenantName EmptyString projectID st).2
  = st'
  /\ searched Tenant_Name Tenant_ID tenantName tenants
       ("tenant with name " +:+ quote tenantName +:+ " not found in project")
       (resolveTenantID quote env wire c tenantName EmptyString projectID
          st).1.
Proof.
  intros Hname Hproject Hlist. unfold resolveTenantID.
  rewrite (bool_decide_eq_false_2 (tenantName = EmptyString)) by done.
  rewrite (bool_decide_eq_true_2 (EmptyString = EmptyString)) by done.
  rewrite (bool_decide_eq_false_2 (projectID = EmptyString)) by done.
  cbn [andb negb]. rewrite Hlist.
  pose proof (first_named_spec Tenant_Name Tenant_ID tenantName tenants)
    as Hspec.
  destruct (first_named Tenant_Name Tenant_ID tenantName tenants);
    cbn [fst snd searched]; by repeat split.
Qed.

(** A tenant as far as the resolver looks at it. *)
Definition tenant (id name : string) : Tenant :=
  {| Tenant_ID := id; Tenant_ProjectID := "p-1";
     Tenant_OrganizationID := "org-1"; Tenant_HostClusterID := "hc-1";
     Tenant_Name := name; Tenant_CloudProvider := "eks";
     Tenant_Region := "eu"; Tenant_LocationShort := "eu";
     Tenant_KubernetesVersion := "1.31"; Tenant_ComputeQuota := 2;
     Tenant_MemoryQuotaGB := 4; Tenant_Status := "ready";
     Tenant_Namespace := "ns"; Tenant_CreatedAt := "2024-01-01";
     Tenant_UpdatedAt := "2024-01-01" |}.

Definition project (id name : string) : Project :=
  {| Project_ID := id; Project_OrganizationID := "org-1";
     Project_Name := name; Project_Description := None;
     Project_MaxTenants := 0; Project_MaxCompute := 0;
     Project_MaxMemoryGB := 0; Project_CreatedAt := "2024-01-01";
     Project_UpdatedAt := "2024-01-01" |}.

(** A server with two tenants and two projects of the same name. *)
Definition wire_twins : Wire :=
  {| readAll := fun _ => None;
     unmarshalLoginResponse := decode_login;
     unmarshalOrganization := fun _ => Fail (New "not an organization");
     unmarshalProjects :=
       fun _ => Ok [project "p-0" "api"; project "p-1" "web";
                    project "p-2" "web"];
     unmarshalProjectMemberships := fun _ => Ok [];
     unmarshalTenants :=
       fun _ => Ok [tenant "t-1" "alpha"; tenant "t-2" "alpha"] |}.

Lemma tenant_name_resolves_to_the_first_match_witness :
  let env := env_of [response 200 "[]"] in
  let st := state_of logged_in (disk None None) in
  searched Tenant_Name Tenant_ID "alpha"
    [tenant "t-1" "alpha"; tenant "t-2" "alpha"]
    ("tenant with name " +:+ quoted "alpha" +:+ " not found in project")
    (resolveTenantID quoted env wire_twins client "alpha" EmptyString "p-1"
       st).1
  /\ (resolveTenantID quoted env wire_twins client "alpha" EmptyString "p-1"
        st).1 = Ok "t-1".
Proof.
  split; [|by vm_compute].
  eapply (tenant_name_resolves_to_the_first_match quoted
            (env_of [response 200 "[]"]) wire_twins client "alpha" "p-1"
            (state_of logged_in (disk None None))).
  - discriminate.
  - discriminate.
  - by vm_compute.
Defined.

(** The list [resolveProjectID] searches: the projects of the
    organization when one is given, else the projects of the user's own
    memberships. *)
Definition project_listing (env : Env) (wire : Wire) (c : Client)
    (orgID : string) (st : State) : result (list Project) * State :=
  if bool_decide (orgID = EmptyString) then
    let '(r, st) := ListUserProjects env wire c st in
    (match r with
     | Ok memberships => Ok (map PM_Project memberships)
     | Fail e => Fail e
     end, st)
  else ListOrganizationProjects env wire c orgID st.

Lemma first_named_map {A B} (f : A -> B) (name_of id_of : B -> string)
    (name : string) (items : list A) :
  first_named (fun x => name_of (f x)) (fun x => id_of (f x)) name items
  = first_named name_of id_of name (map f items).
Proof.
  induction items as [|x rest IH]; [done|].
  cbn [first_named map]. by rewrite IH.
Qed.

(** X22. A project name is resolved in the organization's projects when
    an organization is given, else in the user's own memberships: the
    result is the ID of the first project in that list with the name,
    and the search fails exactly when the list has none. *)
Theorem project_name_resolves_to_the_first_match
    (quote : string -> string) (env : Env) (wire : Wire) (c : Client)
    (projectName orgID : string) (st st' : State)
    (projects : list Project) :
  let r := resolveProjectID quote env wire c projectName EmptyString orgID
             st in
  projectName <> EmptyString ->
  project_listing env wire c orgID st = (Ok projects, st') ->
  r.2 = st'
  /\ searched Project_Name Project_ID projectName projects
       ("project named " +:+ quote projectName
        +:+ (if bool_decide (orgID = EmptyString) then " not found"
             else " not found in organization")) r.1.
Proof.
  intros r Hname. subst r. unfold resolveProjectID, project_listing.
  rewrite (bool_decide_eq_false_2 (projectName = EmptyString)) by done.
  rewrite (bool_decide_eq_true_2 (EmptyString = EmptyString)) by done.
  cbn [andb negb].
  case_bool_decide as Horg; cbn [negb].
  - destruct (ListUserProjects env wire c st) as [[memberships|e] st1];
      intros [= <- <-].
    rewrite first_named_map.
    pose proof (first_named_spec Project_Name Project_ID projectName
                  (map PM_Project memberships)) as Hspec.
    destruct (first_named _ _ projectName (map PM_Project memberships));
      cbn [fst snd searched]; by repeat split.
  - intros Hlist. rewrite Hlist.
    pose proof (first_named_spec Project_Name Project_ID projectName
                  projects) as Hspec.
    destruct (first_named _ _ projectName projects);
      cbn [fst snd searched]; by repeat split.
Qed.

Lemma project_name_resolves_to_the_first_match_witness :
  let env := env_of [response 200 "[]"] in
  let st := state_of logged_in (disk None None) in
  let r := resolveProjectID quoted env wire_twins client "web" EmptyString
             "org-1" st in
  searched Project_Name Project_ID "web"
    [project "p-0" "api"; project "p-1" "web"; project "p-2" "web"]
    ("project named " +:+ quoted "web" +:+ " not found in organization") r.1
  /\ r.1 = Ok "p-1".
Proof.
  split; [|by vm_compute].
  eapply (project_name_resolves_to_the_first_match quoted
            (env_of [response 200 "[]"]) wire_twins client "web" "org-1"
            (state_of logged_in (disk None None))).
  - discriminate.
  - by vm_compute.
Defined.

End ResolverFacts.

(* ===================================================================== *)
(** * Theorems: headers, cells and struct records                         *)
(* ===================================================================== *)

Section FormatterInvariants.
Import Go Utf8 Strings Output.

(** X23. Every header [getOrderedHeadersFromRecord] returns is a key of
    the record, and no header comes twice: with headers written, a cell
    of the first record is never the placeholder of a missing key. *)
Theorem headers_are_keys_of_the_record (record : gmap string Value) :
  Forall (fun h => is_Some (record !! h))
    (getOrderedHeadersFromRecord record)
  /\ NoDup (getOrderedHeadersFromRecord record).
Proof.
  unfold getOrderedHeadersFromRecord.
  assert (forall keys, hasKeys record keys = true ->
            Forall (fun h => is_Some (record !! h)) keys) as Hkeys.
  { intros keys H. apply Forall_forall. intros k Hk.
    apply elem_of_dom. revert k Hk. by apply hasKeys_true. }
  destruct (hasKeys record organization_order) eqn:H1.
  { split; [by apply Hkeys|]. by apply (bool_decide_unpack _). }
  destruct (hasKeys record location_order) eqn:H2.
  { split; [by apply Hkeys|]. by apply (bool_decide_unpack _). }
  destruct (hasKeys record version_order) eqn:H3.
  { split; [by apply Hkeys|]. by apply (bool_decide_unpack _). }
  destruct (hasKeys record tenant_order) eqn:H4.
  { split; [by apply Hkeys|]. by apply (bool_decide_unpack _). }
  destruct (sorted_keys_spec record) as (_ & Hnodup & Hdom).
  split; [|exact Hnodup].
  apply Forall_forall. intros k Hk. apply elem_of_dom. by apply Hdom.
Qed.

(** A key in ASCII without capital letters, as the json tag names of the
    models are. *)
Fixpoint plain_key (s : string) : bool :=
  match s with
  | EmptyString => true
  | String c r => (byte_val c <=? 127)%N && negb (is_upper c) && plain_key r
  end.

Lemma DecodeRune_ascii (c : ascii) (r : string) :
  (byte_val c <=? 127)%N = true ->
  DecodeRune (String c r) = (byte_val c, 1%nat).
Proof.
  intros Hc. apply N.leb_le in Hc. unfold DecodeRune.
  assert ((byte_val c <? 128)%N = true) as -> by (apply N.ltb_lt; lia).
  reflexivity.
Qed.

Lemma EncodeRune_ascii (n : N) :
  (n <= 127)%N -> EncodeRune n = String (ascii_of_N n) EmptyString.
Proof.
  intros Hn. unfold EncodeRune.
  assert (((55296 <=? n) && (n <=? 57343) || (1114111 <? n))%N = false)
    as ->.
  { apply orb_false_iff. split; [apply andb_false_iff; left|].
    - apply N.leb_gt. lia.
    - apply N.ltb_ge. lia. }
  assert ((n <? 128)%N = true) as -> by (apply N.ltb_lt; lia).
  reflexivity.
Qed.

(** The title form of an ASCII byte that is no capital is ASCII, and its
    lower-case form is the byte again. *)
Lemma lower_title_byte (u : Unicode) (c : ascii) :
  (byte_val c <=? 127)%N = true -> is_upper c = false ->
  let x := unicode_ToTitle u (byte_val c) in
  (x <= 127)%N /\ lower_byte (ascii_of_N x) = c.
Proof.
  intros Hc Hu. cbv zeta. unfold unicode_ToTitle. rewrite Hc.
  apply N.leb_le in Hc.
  destruct ((97 <=? byte_val c) && (byte_val c <=? 122))%N eqn:Hl.
  - apply andb_true_iff in Hl as [H1 H2]. apply N.leb_le in H1, H2.
    split; [lia|].
    assert (byte_val (ascii_of_N (byte_val c - 32)) = (byte_val c - 32)%N)
      as Hv.
    { unfold byte_val. apply N_ascii_embedding. unfold byte_val in *. lia. }
    unfold lower_byte, is_upper. rewrite Hv.
    assert (((65 <=? byte_val c - 32) && (byte_val c - 32 <=? 90))%N = true)
      as ->.
    { apply andb_true_iff. split; apply N.leb_le; lia. }
    replace (byte_val c - 32 + 32)%N with (byte_val c) by lia.
    unfold byte_val. apply ascii_N_embedding.
  - split; [lia|]. unfold byte_val at 1. rewrite ascii_N_embedding.
    unfold lower_byte. by rewrite Hu.
Qed.

(** The title of a plain key is ASCII, and lowering it byte by byte
    gives the key back. *)
Lemma Title_go_plain (u : Unicode) (s : string) :
  forall prev, plain_key s = true ->
    isASCII (Title_go u prev 0 s) = true
    /\ lower_bytes (Title_go u prev 0 s) = s.
Proof.
  induction s as [|c r IH]; intros prev Hs; [done|].
  cbn [plain_key] in Hs.
  apply andb_true_iff in Hs as [Hs Hr].
  apply andb_true_iff in Hs as [Ha Hc]. apply negb_true_iff in Hc.
  cbn [Title_go]. rewrite (DecodeRune_ascii c r Ha).
  change (1 - 1)%nat with 0%nat.
  destruct (IH (byte_val c) Hr) as [IH1 IH2].
  destruct (lower_title_byte u c Ha Hc) as [Hx1 Hx2].
  assert (forall x, (x <= 127)%N -> lower_byte (ascii_of_N x) = c ->
            isASCII (EncodeRune x +:+ Title_go u (byte_val c) 0 r) = true
            /\ lower_bytes (EncodeRune x +:+ Title_go u (byte_val c) 0 r)
               = String c r) as Hstep.
  { intros x Hx Hl. rewrite (EncodeRune_ascii x Hx).
    change (String (ascii_of_N x) EmptyString
            +:+ Title_go u (byte_val c) 0 r)
      with (String (ascii_of_N x) (Title_go u (byte_val c) 0 r)).
    cbn [isASCII lower_bytes]. rewrite IH1, IH2, Hl.
    split; [|reflexivity]. rewrite andb_true_r. apply N.ltb_lt.
    unfold byte_val. rewrite N_ascii_embedding by lia. lia. }
  destruct (isSeparator u prev).
  - by apply Hstep.
  - apply Hstep; [by apply N.leb_le|].
    unfold byte_val. rewrite ascii_N_embedding.
    unfold lower_byte. by rewrite Hc.
Qed.

Lemma ToLower_Title_plain (u : Unicode) (s : string) :
  plain_key s = true -> ToLower u (Title u s) = s.
Proof.
  intros Hs. destruct (Title_go_plain u s 32%N Hs) as [H1 H2].
  unfold ToLower, Title. by rewrite H1.
Qed.

Lemma table_row_plain (u : Unicode) (keys : list string)
    (record : gmap string Value) :
  Forall (fun k => plain_key k = true) keys ->
  table_row u (map (Title u) keys) record = map (show_field record) keys.
Proof.
  intros Hkeys. unfold table_row. rewrite map_map.
  induction Hkeys as [|k rest Hk _ IH]; [done|].
  cbn [map]. rewrite IH. f_equal.
  by rewrite ToLower_Title_plain.
Qed.

(** X24. When the headers are ASCII keys without capital letters, the
    table and the CSV with headers hold the same cells in the same
    column order: the table finds each cell again under the lower-cased
    title of its key. *)
Theorem table_and_csv_show_the_same_cells (u : Unicode) (f f' : Formatter)
    (range : RangeOrder) (data : Data) (first : gmap string Value)
    (rest : list (gmap string Value)) :
  let headers := getOrderedHeadersFromRecord first in
  let rows := map (fun r => map (show_field r) headers) (first :: rest) in
  convertToRecords data = Ok (first :: rest) ->
  noHeaders f' = false ->
  Forall (fun k => plain_key k = true) headers ->
  formatTable u f data = ([TableRender (map (Title u) headers) rows], None)
  /\ csv_written f' range (first :: rest) = headers :: rows.
Proof.
  intros headers rows Hrecords Hheaders Hplain. split.
  - unfold formatTable. rewrite Hrecords. unfold table_headers.
    fold headers. do 3 f_equal. unfold rows.
    apply map_ext. intros r. by apply table_row_plain.
  - by rewrite csv_written_with_headers.
Qed.

Definition acme : Organization :=
  {| Organization_ID := "org-1"; Organization_Name := "Acme";
     Organization_CreatedAt := "2024-01-01";
     Organization_UpdatedAt := "2024-01-02" |}.

Lemma table_and_csv_show_the_same_cells_witness :
  formatTable latin1 csv_on (DModel (MOrganization acme))
  = ([TableRender ["Id"; "Name"] [["org-1"; "Acme"]]], None)
  /\ csv_written csv_on range_rev [curated (MOrganization acme)]
     = [["id"; "name"]; ["org-1"; "Acme"]].
Proof.
  assert (getOrderedHeadersFromRecord (curated (MOrganization acme))
          = ["id"; "name"]) as Hh by (by vm_compute).
  pose proof (table_and_csv_show_the_same_cells latin1 csv_on csv_on
                range_rev
                (DModel (MOrganization acme))
                (curated (MOrganization acme)) []) as H.
  cbv zeta in H. rewrite Hh in H.
  apply H; [reflexivity | reflexivity | by repeat constructor].
Defined.

(** ** structToMap *)

(** The key under which [structToMap] files a field, if it does. *)
Definition field_key (f : Field) : option string :=
  if negb (Field_Exported f) then None
  else if bool_decide (Field_JsonTag f = EmptyString)
          || bool_decide (Field_JsonTag f = "-") then None
  else if bool_decide (before_comma (Field_JsonTag f) = EmptyString)
  then Some (Field_Name f)
  else Some (before_comma (Field_JsonTag f)).

Definition files_under (k : string) (f : Field) : bool :=
  bool_decide (field_key f = Some k).

Lemma structFields_lookup (fs : list Field) :
  forall (result : gmap string Value) (k : string),
    structFields fs result !! k
    = match last (List.filter (files_under k) fs) with
      | Some f => Some (Field_Value f)
      | None => result !! k
      end.
Proof.
  induction fs as [|f rest IH]; intros result k; [done|].
  cbn [structFields List.filter]. unfold files_under at 1, field_key.
  destruct (negb (Field_Exported f)).
  { rewrite bool_decide_eq_false_2 by done. apply IH. }
  destruct (bool_decide (Field_JsonTag f = EmptyString)
            || bool_decide (Field_JsonTag f = "-")).
  { rewrite bool_decide_eq_false_2 by done. apply IH. }
  cbv zeta. rewrite IH.
  set (key := if bool_decide (before_comma (Field_JsonTag f) = EmptyString)
              then Field_Name f else before_comma (Field_JsonTag f)).
  assert ((if bool_decide (before_comma (Field_JsonTag f) = EmptyString)
           then Some (Field_Name f)
           else Some (before_comma (Field_JsonTag f))) = Some key) as ->.
  { unfold key. by destruct (bool_decide _). }
  destruct (decide (key = k)) as [->|Hne].
  - rewrite bool_decide_eq_true_2 by done.
    destruct (List.filter (files_under k) rest) as [|g rest'] eqn:Hrest.
    + cbn [last]. apply lookup_insert_eq.
    + change (last (f :: g :: rest')) with (last (g :: rest')).
      by destruct (last (g :: rest')) eqn:Hlast;
        [|apply last_None in Hlast].
  - rewrite bool_decide_eq_false_2 by congruence.
    destruct (last (List.filter (files_under k) rest)); [done|].
    by apply lookup_insert_ne.
Qed.

(** X25. The record [structToMap] builds from a struct holds, under a
    key, the value of the last field filed under that key; a field is
    filed only if it is exported and has a json tag other than the dash,
    under the name the tag gives before its first comma, or under the
    field's own name when the tag gives none. Keys no field is filed
    under are absent. *)
Theorem structToMap_holds_the_last_field_of_each_key (s : Struct)
    (k : string) :
  exists record,
    structToMap (IStruct s) = Ok record
    /\ record !! k
       = Field_Value <$> last (List.filter (files_under k) s).
Proof.
  eexists. split; [reflexivity|].
  rewrite structFields_lookup, lookup_empty.
  by destruct (last _).
Qed.

(** ** Keys with capital letters *)

(** X26. A header whose lower-cased title is not a key of the record
    (as for a key with a capital letter, which a struct field gets from
    a json tag without a name) is shown in the table as the placeholder
    of a missing key, while the CSV written with headers shows the value
    stored under the key. *)
Theorem table_cell_of_a_capitalised_key_is_nil (u : Unicode)
    (f f' : Formatter) (range : RangeOrder) (data : Data)
    (first : gmap string Value) (rest : list (gmap string Value))
    (k : string) (i : nat) :
  convertToRecords data = Ok (first :: rest) ->
  getOrderedHeadersFromRecord first !! i = Some k ->
  first !! ToLower u (Title u k) = None ->
  noHeaders f' = false ->
  exists headers row rows csv_header csv_row csv_rows,
    formatTable u f data = ([TableRender headers (row :: rows)], None)
    /\ row !! i = Some "<nil>"
    /\ csv_written f' range (first :: rest)
       = csv_header :: csv_row :: csv_rows
    /\ csv_row !! i = Some (show_field first k).
Proof.
  intros Hrecords Hk Hmissing Hheaders.
  unfold formatTable. rewrite Hrecords.
  rewrite csv_written_with_headers by done. cbn [map].
  do 6 eexists. split; [reflexivity|].
  split; [|split; [reflexivity|]].
  - unfold table_row, table_headers. rewrite map_map.
    rewrite list_lookup_fmap, Hk. cbn [fmap option_fmap option_map].
    unfold show_field. by rewrite Hmissing.
  - by rewrite list_lookup_fmap, Hk.
Qed.

Definition named_only_by_field : Struct :=
  [{| Field_Name := "Name"; Field_Exported := true;
      Field_JsonTag := ",omitempty"; Field_Value := VString "web" |}].

Lemma table_cell_of_a_capitalised_key_is_nil_witness :
  exists headers row rows csv_header csv_row csv_rows,
    formatTable latin1 csv_on (DStruct named_only_by_field)
    = ([TableRender headers (row :: rows)], None)
    /\ row !! 0%nat = Some "<nil>"
    /\ csv_written csv_on range_fwd [structFields named_only_by_field ∅]
       = csv_header :: csv_row :: csv_rows
    /\ csv_row !! 0%nat
       = Some (show_field (structFields named_only_by_field ∅) "Name").
Proof.
  apply (table_cell_of_a_capitalised_key_is_nil latin1 csv_on csv_on
           range_fwd (DStruct named_only_by_field)
           (structFields named_only_by_field ∅) [] "Name" 0);
    by vm_compute.
Defined.

(** Two keys that differ in letter case only, here A followed by U+00C9
    and a followed by U+00E9: the table looks both headers up under the
    lower-case key and shows its value twice, while the CSV shows each
    key's own value. *)
Definition twin_record : gmap string Value :=
  list_to_map [("A" +:+ EncodeRune 201, VString "upper");
               ("a" +:+ EncodeRune 233, VString "lower")].

Lemma table_cells_of_keys_that_differ_in_case :
  formatTable latin1 csv_on (DSlice [IMap twin_record])
  = ([TableRender ["A" +:+ EncodeRune 201; "A" +:+ EncodeRune 233]
        [["lower"; "lower"]]], None)
  /\ csv_written csv_on range_fwd [twin_record]
     = [["A" +:+ EncodeRune 201; "a" +:+ EncodeRune 233];
        ["upper"; "lower"]].
Proof. split; by vm_compute. Qed.

(** ** Slices *)

Definition is_nil_model (it : Item) : bool :=
  match it with IModelPtr None => true | _ => false end.

Definition not_a_struct (it : Item) : bool :=
  match it with IStructPtr None | IOther _ => true | _ => false end.

Lemma convertItems_spec (items : list Item) :
  forall acc,
    match convertItems items acc with
    | Ok records =>
        length records
        = (length acc
           + length (List.filter (fun it => negb (is_nil_model it)) items))%nat
        /\ Forall (fun it => not_a_struct it = false) items
    | Fail _ => Exists (fun it => not_a_struct it = true) items
    end.
Proof.
  induction items as [|it rest IH]; intros acc.
  { cbn. split; [lia|constructor]. }
  assert (forall a,
            is_nil_model it = false -> not_a_struct it = false ->
            match convertItems rest (acc ++ [a]) with
            | Ok records =>
                length records
                = (length acc
                   + length (List.filter (fun it => negb (is_nil_model it))
                               (it :: rest)))%nat
                /\ Forall (fun it => not_a_struct it = false) (it :: rest)
            | Fail _ =>
                Exists (fun it => not_a_struct it = true) (it :: rest)
            end) as Hkept.
  { intros a Hnil Hstruct. specialize (IH (acc ++ [a])).
    destruct (convertItems rest (acc ++ [a])).
    - destruct IH as [Hlen Hall]. split; [|by constructor].
      cbn [List.filter]. rewrite Hnil. cbn [negb length].
      rewrite Hlen, List.length_app. cbn [length]. lia.
    - by apply Exists_cons_tl. }
  cbn [convertItems].
  destruct it as [m|[m|]|r|s|[s|]|kind]; cbn [structToMap].
  - by apply Hkept.
  - by apply Hkept.
  - specialize (IH acc). destruct (convertItems rest acc).
    + destruct IH as [Hlen Hall]. split; [|by constructor].
      cbn [List.filter is_nil_model negb]. exact Hlen.
    + by apply Exists_cons_tl.
  - by apply Hkept.
  - by apply Hkept.
  - by apply Hkept.
  - by apply Exists_cons_hd.
  - by apply Exists_cons_hd.
Qed.

(** X27. Converting a slice: a nil pointer to one of the curated models
    gives no record and no error, every other element gives one record;
    one element that is not a struct (or is a nil pointer to a struct)
    fails the whole conversion, however many good elements come before
    it, and the conversion fails only then. *)
Theorem slice_conversion_skips_nil_models_and_rejects_non_structs
    (items : list Item) :
  match convertToRecords (DSlice items) with
  | Ok records =>
      length records
      = length (List.filter (fun it => negb (is_nil_model it)) items)
      /\ Forall (fun it => not_a_struct it = false) items
  | Fail _ => Exists (fun it => not_a_struct it = true) items
  end.
Proof.
  cbn [convertToRecords].
  pose proof (convertItems_spec items []) as H.
  by destruct (convertItems items []).
Qed.

End FormatterInvariants.
